(** * Off-chain reference protocol: executor, storage keys and pair channel

    A shallow embedding of the Python sources

    - [src/executor.py]              (SharedObject, ProtocolCommand,
                                      ProtocolExecutor, SampleCommand)
    - [src/offchainapi/utils.py]     (get_unique_string, StructureChecker)
    - [src/offchainapi/storage.py]   (key_join, StorableFactory, BasicStore,
                                      StorableDict)
    - [src/offchainapi/protocol.py]  (VASPPairChannel)

    Python objects are records, dictionaries are [gmap]s, exceptions are an
    explicit [result] type threaded through a state monad, and unbounded
    Python integers are [Z] (lengths and list positions are [nat]). *)

From Stdlib Require Import ZArith NArith Ascii.
From Stdlib Require String DecimalString DecimalNat Strings.Byte.
From stdpp Require Import base option list gmap strings.

(** ** Python exceptions and the state-and-exception monad *)

Module Py.

Inductive exn_type :=
| Exception_
| ExecutorException
| KeyError
| IndexError
| TypeError
| AssertionError
| AttributeError
| RuntimeError
| NotImplementedError
| InvalidStateError
| JSONParsingError
| JSONDecodeError.

(** [str(type(e))] *)
Definition type_repr (t : exn_type) : string :=
  match t with
  | Exception_ => "<class 'Exception'>"
  | ExecutorException => "<class 'executor.ExecutorException'>"
  | KeyError => "<class 'KeyError'>"
  | IndexError => "<class 'IndexError'>"
  | TypeError => "<class 'TypeError'>"
  | AssertionError => "<class 'AssertionError'>"
  | AttributeError => "<class 'AttributeError'>"
  | RuntimeError => "<class 'RuntimeError'>"
  | NotImplementedError => "<class 'NotImplementedError'>"
  | InvalidStateError => "<class 'asyncio.exceptions.InvalidStateError'>"
  | JSONParsingError => "<class 'utils.JSONParsingError'>"
  | JSONDecodeError => "<class 'json.decoder.JSONDecodeError'>"
  end.

Record exn := mkExn { exn_ty : exn_type; exn_msg : string }.

Inductive result (A : Type) :=
| Ok (a : A)
| Raise (e : exn).
Arguments Ok {A} a.
Arguments Raise {A} e.

Definition raises {A} (r : result A) (t : exn_type) : Prop :=
  match r with
  | Ok _ => False
  | Raise e => exn_ty e = t
  end.

Definition is_ok {A} (r : result A) : bool :=
  match r with Ok _ => true | Raise _ => false end.

(** A computation over a mutable state [S]: a Python exception leaves the
    mutations made so far in place, so the state is returned in both cases. *)
Definition M (S A : Type) : Type := S → result A * S.

Definition ret {S A} (a : A) : M S A := fun s => (Ok a, s).
Definition throw {S A} (t : exn_type) (msg : string) : M S A :=
  fun s => (Raise (mkExn t msg), s).
Definition rethrow {S A} (e : exn) : M S A := fun s => (Raise e, s).
Definition bind {S A B} (m : M S A) (k : A → M S B) : M S B :=
  fun s => match m s with
           | (Ok a, s') => k a s'
           | (Raise e, s') => (Raise e, s')
           end.
Definition get {S} : M S S := fun s => (Ok s, s).
Definition gets {S A} (f : S → A) : M S A := fun s => (Ok (f s), s).
Definition modify {S} (f : S → S) : M S unit := fun s => (Ok tt, f s).
Definition lift_result {S A} (r : result A) : M S A := fun s => (r, s).

(** [try: m except Exception as e: h e] *)
Definition try_except {S A} (m : M S A) (h : exn → M S A) : M S A :=
  fun s => match m s with
           | (Ok a, s') => (Ok a, s')
           | (Raise e, s') => h e s'
           end.

(** [try: m finally: f]; an exception raised by [f] replaces the pending one. *)
Definition try_finally {S A} (m : M S A) (f : M S unit) : M S A :=
  fun s => match m s with
           | (r, s') => match f s' with
                        | (Ok _, s'') => (r, s'')
                        | (Raise e, s'') => (Raise e, s'')
                        end
           end.

(** [assert b] *)
Definition assert_ {S} (b : bool) : M S unit :=
  if b then ret tt else throw AssertionError "".

End Py.

Import Py.

Declare Scope py_scope.
Delimit Scope py_scope with py.
Notation "x <- m ;; k" := (Py.bind m (fun x => k))
  (at level 100, m at next level, right associativity) : py_scope.
Notation "m ;;; k" := (Py.bind m (fun _ => k))
  (at level 100, right associativity) : py_scope.
Local Open Scope py_scope.

(** ** Unique strings: [utils.get_unique_string] and the executor's own *)

Module Utils.

Abbreviation bytes := (list Byte.byte).

(** One lower-case hexadecimal digit, as [bytes.hex()] prints it. *)
Definition hex_digit (n : N) : ascii :=
  match n with
  | 0 => "0" | 1 => "1" | 2 => "2" | 3 => "3" | 4 => "4" | 5 => "5"
  | 6 => "6" | 7 => "7" | 8 => "8" | 9 => "9" | 10 => "a" | 11 => "b"
  | 12 => "c" | 13 => "d" | 14 => "e" | _ => "f"
  end%N%char.

Definition is_hex_digit (c : ascii) : bool :=
  let n := N_of_ascii c in
  ((48 <=? n) && (n <=? 57) || (97 <=? n) && (n <=? 102) || (65 <=? n) && (n <=? 70))%N.

(** [bs.hex()] *)
Fixpoint hex (bs : bytes) : string :=
  match bs with
  | [] => ""
  | b :: r =>
      let n := Byte.to_N b in
      String (hex_digit (n / 16)) (String (hex_digit (n mod 16)) (hex r))
  end.

Definition is_hex_string (s : string) : bool :=
  forallb is_hex_digit (String.list_ascii_of_string s).

(** [utils.get_unique_string]: [urandom(16).hex()].  The sixteen bytes
    drawn from the operating system are the argument. *)
Definition get_unique_string (urandom16 : bytes) : string := hex urandom16.

(** The alphabet of [base64.standard_b64encode]. *)
Definition b64_alphabet : string :=
  "ABCDEFGHIJKLMNOPQRSTUVWXYZabcdefghijklmnopqrstuvwxyz0123456789+/".

Definition b64_char (n : N) : ascii :=
  match String.get (N.to_nat n) b64_alphabet with
  | Some c => c
  | None => "="%char
  end.

Definition is_b64_char (c : ascii) : bool :=
  let n := N_of_ascii c in
  ((65 <=? n) && (n <=? 90) || (97 <=? n) && (n <=? 122) || (48 <=? n) && (n <=? 57)
   || (n =? 43) || (n =? 47) || (n =? 61))%N.

(** [base64.standard_b64encode]: three bytes give four characters, a last
    group of one or two bytes is padded with [=]. *)
Fixpoint standard_b64encode (bs : bytes) : string :=
  match bs with
  | [] => ""
  | [a] =>
      let x := Byte.to_N a in
      String (b64_char (x / 4)) (String (b64_char ((x mod 4) * 16)) "==")
  | [a; b] =>
      let x := Byte.to_N a in
      let y := Byte.to_N b in
      String (b64_char (x / 4))
        (String (b64_char ((x mod 4) * 16 + y / 16))
           (String (b64_char ((y mod 16) * 4)) "="))
  | a :: b :: c :: r =>
      let x := Byte.to_N a in
      let y := Byte.to_N b in
      let z := Byte.to_N c in
      String (b64_char (x / 4))
        (String (b64_char ((x mod 4) * 16 + y / 16))
           (String (b64_char ((y mod 16) * 4 + z / 64))
              (String (b64_char (z mod 64)) (standard_b64encode r))))
  end%N.

End Utils.

(** ** [utils.py]: checked structures *)

Module Structure.

(** What [StructureChecker.update] asks of the Python values it handles:
    [isinstance(value, field_type)] and [a != b]. *)
Class PyValues := {
  value : Type;
  ftype : Type;
  isinstance : value → ftype → bool;
  ne : value → value → bool
}.

Definition REQUIRED : bool := true.
Definition OPTIONAL : bool := false.
Definition WRITE_ONCE : bool := true.
Definition UPDATABLE : bool := false.

Section Checker.
Context `{PyValues}.

(** An entry [(field, field_type, required, write_mode)] of the class
    attribute [fields]. *)
Record Field := mkField {
  field : string;
  field_type : ftype;
  required : bool;
  write_mode : bool
}.

(** A [diff] is a [dict]: its items, in the order of insertion. *)
Definition Diff : Type := list (string * value).

(** [diff[key]] when [key in diff]. *)
Fixpoint diff_get (diff : Diff) (key : string) : option value :=
  match diff with
  | [] => None
  | (k, v) :: rest => if bool_decide (k = key) then Some v else diff_get rest key
  end.

(** [StructureException], by the message it is raised with. *)
Inductive StructureException :=
| WrongType (name : string) (expected : ftype) (got : value)
    (* f'Wrong type: field {field}, expected {field_type} but got {actual_type}' *)
| WrongUpdate (name : string)
    (* f'Wrong update: field {field} cannot be changed' *)
| UnknownField (key : string)
    (* f'Unknown: field {key}' *)
| MissingField (name : string)
    (* f'Missing field: {field}' *)
| CustomCheck (msg : string).
    (* raised by an overriding [custom_update_checks] *)

(** The state of an instance. *)
Record StructureChecker := mkChecker {
  data : gmap string value;
  update_record : list Diff
}.

(** [__contains__] *)
Definition __contains__ (self : StructureChecker) (item : string) : bool :=
  bool_decide (is_Some (data self !! item)).

(** [record] *)
Definition record (diff : Diff) (self : StructureChecker) : StructureChecker :=
  {| data := data self; update_record := update_record self ++ [diff] |}.

(** What a subclass fixes: the class attribute [fields], a list of
    entries, and the method [custom_update_checks], which looks at the
    instance and the diff and passes ([None]) or raises a
    [StructureException] with a message. *)
Variable fields : list Field.
Variable custom_update_checks : StructureChecker → Diff → option string.

(** [StructureChecker.__init__]: the class must declare fields. *)
Definition StructureChecker_init : result StructureChecker :=
  match fields with
  | [] => Raise (mkExn AssertionError "")
  | _ => Ok {| data := ∅; update_record := [] |}
  end.

(** The first loop of [update]: the type and the write mode of every
    declared field that the diff sets. *)
Fixpoint check_fields (self : StructureChecker) (diff : Diff) (fs : list Field)
    : option StructureException :=
  match fs with
  | [] => None
  | f :: rest =>
      match diff_get diff (field f) with
      | Some v =>
          (* Check the type is right *)
          if negb (isinstance v (field_type f))
          then Some (WrongType (field f) (field_type f) v)
          else
            (* Check you can write again *)
            match data self !! field f with
            | Some old =>
                if bool_decide (write_mode f = WRITE_ONCE) && ne old v
                then Some (WrongUpdate (field f))
                else check_fields self diff rest
            | None => check_fields self diff rest
            end
      | None => check_fields self diff rest
      end
  end.

(** The second loop: no key of the diff is unknown. *)
Fixpoint check_known (keys : list string) : option StructureException :=
  match keys with
  | [] => None
  | key :: rest =>
      if bool_decide (key ∈ field <$> fields) then check_known rest
      else Some (UnknownField key)
  end.

(** The third loop: the writes, and whether anything was written.  A key
    of the diff always has a value in the diff. *)
Fixpoint apply_diff (diff : Diff) (keys : list string) (d : gmap string value)
    (updates : bool) : gmap string value * bool :=
  match keys with
  | [] => (d, updates)
  | key :: rest =>
      match diff_get diff key with
      | Some v =>
          if match d !! key with
             | None => true
             | Some old => ne old v
             end
          then apply_diff diff rest (<[key := v]> d) true
          else apply_diff diff rest d updates
      | None => apply_diff diff rest d updates
      end
  end.

(** The fourth loop: every required field is there. *)
Fixpoint check_required (d : gmap string value) (fs : list Field)
    : option StructureException :=
  match fs with
  | [] => None
  | f :: rest =>
      if required f && negb (bool_decide (is_Some (d !! field f)))
      then Some (MissingField (field f))
      else check_required d rest
  end.

(** [update]: the exception raised, if any, and the instance afterwards. *)
Definition update (diff : Diff) (self : StructureChecker)
    : option StructureException * StructureChecker :=
  (* Check all types and write mode before update *)
  match check_fields self diff fields with
  | Some e => (Some e, self)
  | None =>
      (* Check we are not updating unknown fields *)
      match check_known diff.*1 with
      | Some e => (Some e, self)
      | None =>
          (* Finally update *)
          let '(d, updates) := apply_diff diff diff.*1 (data self) false in
          let self := {| data := d; update_record := update_record self |} in
          match check_required d fields with
          | Some e => (Some e, self)
          | None =>
              (* Do custom checks on object *)
              match custom_update_checks self diff with
              | Some msg => (Some (CustomCheck msg), self)
              | None => (None, if updates : bool then record diff self else self)
              end
          end
      end
  end.

End Checker.

(** [custom_update_checks] as [StructureChecker] itself defines it: [pass]. *)
Definition no_custom_checks `{PyValues} : StructureChecker → Diff → option string :=
  fun _ _ => None.

(** The dictionary [d'] is [d] overwritten by the diff: a key of the diff
    holds the diff's value, or the value it had when that one is not [!=]
    to the diff's; any other key is as it was. *)
Definition overwritten `{PyValues} (diff : Diff) (d d' : gmap string value) : Prop :=
  ∀ k,
    match diff_get diff k with
    | Some v => d' !! k = Some v
                ∨ ∃ old, d !! k = Some old ∧ ne old v = false ∧ d' !! k = Some old
    | None => d' !! k = d !! k
    end.

(** The diff sets a key that [d] lacks or holds with a value [!=] to the
    diff's. *)
Definition changes `{PyValues} (diff : Diff) (d : gmap string value) : Prop :=
  ∃ k v, diff_get diff k = Some v
         ∧ match d !! k with
           | Some old => ne old v = true
           | None => True
           end.

End Structure.

(** ** [executor.py]: shared objects, commands and the executor *)

Module Executor.
Import Utils.

(** [executor.get_unique_string]: [standard_b64encode(urandom(16))]. *)
Definition get_unique_string (urandom16 : bytes) : string :=
  standard_b64encode urandom16.

(** [SharedObject]; [item] is the field the subclass [SampleObject] adds. *)
Record SharedObject := mkSharedObject {
  version : string;
  extends : list string;
  potentially_live : bool;
  actually_live : bool;
  item : string
}.

(** [SharedObject.__init__] *)
Definition SharedObject_init (urandom16 : bytes) : SharedObject :=
  {| version := get_unique_string urandom16;
     extends := [];
     potentially_live := false;
     actually_live := false;
     item := "" |}.

Definition get_version (self : SharedObject) : string := version self.

(** [SharedObject.new_version]: [urandom16] is only read when no explicit
    version is given. *)
Definition new_version (self : SharedObject) (new_version : option string)
    (urandom16 : bytes) : SharedObject :=
  {| version := match new_version with
                | Some v => v
                | None => get_unique_string urandom16
                end;
     extends := [get_version self];
     potentially_live := false;
     actually_live := false;
     item := item self |}.

Definition get_potentially_live (self : SharedObject) : bool := potentially_live self.
Definition get_actually_live (self : SharedObject) : bool := actually_live self.

Definition set_potentially_live (self : SharedObject) (flag : bool) : SharedObject :=
  {| version := version self; extends := extends self;
     potentially_live := flag; actually_live := actually_live self;
     item := item self |}.

Definition set_actually_live (self : SharedObject) (flag : bool) : SharedObject :=
  {| version := version self; extends := extends self;
     potentially_live := potentially_live self; actually_live := flag;
     item := item self |}.

(** [SampleObject.__init__] *)
Definition SampleObject_init (itm : string) (urandom16 : bytes) : SharedObject :=
  {| version := get_unique_string urandom16; extends := [];
     potentially_live := false; actually_live := false; item := itm |}.

(** [ProtocolCommand].  [command] and [always_happy] are the data of the
    subclass [SampleCommand]; [origin] is what [set_origin] records. *)
Record ProtocolCommand := mkCommand {
  depend_on : list string;
  creates : list string;
  commit_status : option bool;
  origin : option string;
  command : SharedObject;
  always_happy : bool
}.

#[export] Instance SharedObject_eq_dec : EqDecision SharedObject.
Proof. solve_decision. Defined.

#[export] Instance ProtocolCommand_eq_dec : EqDecision ProtocolCommand.
Proof. solve_decision. Defined.

Definition set_commit_status (c : ProtocolCommand) (st : option bool) : ProtocolCommand :=
  {| depend_on := depend_on c; creates := creates c; commit_status := st;
     origin := origin c; command := command c; always_happy := always_happy c |}.

Definition set_origin (c : ProtocolCommand) (addr : string) : ProtocolCommand :=
  {| depend_on := depend_on c; creates := creates c; commit_status := commit_status c;
     origin := Some addr; command := command c; always_happy := always_happy c |}.

(** [set(self.depend_on)]: each version once.  Python fixes no order for
    the iteration over a set; here it follows the list. *)
Definition get_dependencies (c : ProtocolCommand) : list string :=
  remove_dups (depend_on c).

(** [set(self.creates)] *)
Definition new_object_versions (c : ProtocolCommand) : list string :=
  remove_dups (creates c).

Definition Context := option string.

(** The methods a command class overrides; calls are dispatched through
    this interface. *)
Class CommandMethods := {
  validity_checks :
    ProtocolCommand → Context → gmap string SharedObject → bool → result unit;
  get_object :
    ProtocolCommand → string → gmap string SharedObject → result SharedObject;
  on_success : ProtocolCommand → result unit;
  on_fail : ProtocolCommand → result unit;
  command_eq : ProtocolCommand → ProtocolCommand → bool
}.

Definition not_implemented {A} : result A :=
  Raise (mkExn NotImplementedError "You need to subclass and override this method").

(** The base class [ProtocolCommand]: every method is abstract.  It does
    not define [__eq__]; Python then compares object identities, which
    this value model renders as equality of the records. *)
Definition ProtocolCommand_methods : CommandMethods := {|
  validity_checks := fun _ _ _ _ => not_implemented;
  get_object := fun c v _ =>
    if bool_decide (v ∈ new_object_versions c) then not_implemented
    else Raise (mkExn AssertionError "");
  on_success := fun _ => not_implemented;
  on_fail := fun _ => not_implemented;
  command_eq := fun a b => bool_decide (a = b)
|}.

(** [SampleCommand.__init__(command, deps)] *)
Definition SampleCommand_init (itm : string) (deps : option (list string))
    (urandom16 : bytes) : ProtocolCommand :=
  {| depend_on := match deps with None => [] | Some d => d end;
     creates := [itm];
     commit_status := None;
     origin := None;
     command := SampleObject_init itm urandom16;
     always_happy := true |}.

(** The methods of [SampleCommand].  [random_draw] tells whether
    [random.random() > 0.75] holds for the draw made by the validity check. *)
Definition SampleCommand_methods (random_draw : bool) : CommandMethods := {|
  validity_checks := fun c _ _ maybe_own =>
    let all_good := maybe_own || always_happy c || random_draw in
    if negb all_good then Raise (mkExn Exception_ "SimpleCommand checks failure")
    else Ok tt;
  get_object := fun c _ _ => Ok (command c);
  on_success := fun _ => Ok tt;
  on_fail := fun _ => Ok tt;
  command_eq := fun a b =>
    bool_decide (depend_on a = depend_on b)
    && bool_decide (creates a = creates b)
    && bool_decide (item (command a) = item (command b))
|}.

(** What the executor has told a command: the calls of [on_success] and
    [on_fail], in order. *)
Inductive HookCall :=
| OnSuccess (c : ProtocolCommand)
| OnFail (c : ProtocolCommand).

(** [ProtocolExecutor]: [seq] is the common command sequence.  [hooks] is
    not a field of the Python object: it records the hook calls made.
    Commands and objects are held by value: the store maps each version to
    its own copy of the object, and a command class that hands out one
    object under two versions is not represented. *)
Record ProtocolExecutor := mkExecutor {
  seq : list ProtocolCommand;
  last_confirmed : nat;
  object_store : gmap string SharedObject;
  context : Context;
  hooks : list HookCall
}.

(** [ProtocolExecutor.__init__] *)
Definition ProtocolExecutor_init : ProtocolExecutor :=
  {| seq := []; last_confirmed := 0; object_store := ∅; context := None; hooks := [] |}.

Definition with_seq (f : list ProtocolCommand → list ProtocolCommand)
    (ex : ProtocolExecutor) : ProtocolExecutor :=
  {| seq := f (seq ex); last_confirmed := last_confirmed ex;
     object_store := object_store ex; context := context ex; hooks := hooks ex |}.

Definition with_last_confirmed (n : nat) (ex : ProtocolExecutor) : ProtocolExecutor :=
  {| seq := seq ex; last_confirmed := n;
     object_store := object_store ex; context := context ex; hooks := hooks ex |}.

Definition with_store (f : gmap string SharedObject → gmap string SharedObject)
    (ex : ProtocolExecutor) : ProtocolExecutor :=
  {| seq := seq ex; last_confirmed := last_confirmed ex;
     object_store := f (object_store ex); context := context ex; hooks := hooks ex |}.

Definition with_hook (h : HookCall) (ex : ProtocolExecutor) : ProtocolExecutor :=
  {| seq := seq ex; last_confirmed := last_confirmed ex;
     object_store := object_store ex; context := context ex;
     hooks := hooks ex ++ [h] |}.

Definition set_business_context (ctx : Context) (ex : ProtocolExecutor) : ProtocolExecutor :=
  {| seq := seq ex; last_confirmed := last_confirmed ex;
     object_store := object_store ex; context := ctx; hooks := hooks ex |}.

Definition next_seq (ex : ProtocolExecutor) : nat := length (seq ex).

(** [lst[i]] on a Python list: negative positions count from the end. *)
Definition py_position {A} (l : list A) (i : Z) : option nat :=
  let n := Z.of_nat (length l) in
  if ((0 <=? i) && (i <? n))%Z then Some (Z.to_nat i)
  else if ((- n <=? i) && (i <? 0))%Z then Some (Z.to_nat (n + i))
  else None.

(** [ProtocolExecutor.all_true] *)
Fixpoint all_true (store : gmap string SharedObject) (versions : list string)
    (predicate : SharedObject → bool) : bool :=
  match versions with
  | [] => true
  | v :: vs =>
      match store !! v with
      | None => false
      | Some obj => if predicate obj then all_true store vs predicate else false
      end
  end.

Section WithCommands.
Context `{CommandMethods}.

(** The loop that creates the new objects in [sequence_next_command]. *)
Fixpoint create_objects (cmd : ProtocolCommand) (versions : list string)
    : M ProtocolExecutor unit :=
  match versions with
  | [] => ret tt
  | v :: vs =>
      store <- gets object_store ;;
      obj <- lift_result (get_object cmd v store) ;;
      modify (with_store (<[v := set_potentially_live obj true]>)) ;;;
      create_objects cmd vs
  end.

(** The [try] block of [sequence_next_command]. *)
Definition sequence_try (cmd : ProtocolCommand) (own : bool) : M ProtocolExecutor unit :=
  let dependencies := get_dependencies cmd in
  let predicate_own := get_potentially_live in
  let predicate_other := get_actually_live in
  let predicate := if own then predicate_own else predicate_other in
  all_good <- gets (fun ex => all_true (object_store ex) dependencies predicate) ;;
  (if negb all_good
   then throw ExecutorException "Required objects do not exist"
   else ret tt) ;;;
  ctx <- gets context ;;
  store <- gets object_store ;;
  lift_result (validity_checks cmd ctx store own) ;;;
  create_objects cmd (new_object_versions cmd).

(** [ProtocolExecutor.sequence_next_command].  The [except] clause turns
    every exception of the [try] block into an [ExecutorException]; the
    [finally] clause appends the command when all went well or when errors
    are to be sequenced too. *)
Definition sequence_next_command (cmd : ProtocolCommand)
    (do_not_sequence_errors : bool) (own : bool) : M ProtocolExecutor nat :=
  fun ex =>
    match sequence_try cmd own ex with
    | (Ok _, ex1) =>
        (* all_good = True *)
        (Ok (length (seq ex1)), with_seq (fun s => s ++ [cmd]) ex1)
    | (Raise e, ex1) =>
        (* all_good = False *)
        let type_str := type_repr (exn_ty e) +:+ ": " +:+ exn_msg e in
        (Raise (mkExn ExecutorException type_str),
         if negb do_not_sequence_errors
         then with_seq (fun s => s ++ [cmd]) ex1
         else ex1)
    end.

(** [for version in dependencies: del self.object_store[version]] *)
Fixpoint consume_objects (versions : list string) : M ProtocolExecutor unit :=
  match versions with
  | [] => ret tt
  | v :: vs =>
      store <- gets object_store ;;
      match store !! v with
      | None => throw KeyError v
      | Some _ => modify (with_store (delete v)) ;;; consume_objects vs
      end
  end.

(** [for version in new_versions: self.object_store[version].set_actually_live(True)] *)
Fixpoint commit_objects (versions : list string) : M ProtocolExecutor unit :=
  match versions with
  | [] => ret tt
  | v :: vs =>
      store <- gets object_store ;;
      match store !! v with
      | None => throw KeyError v
      | Some obj =>
          modify (with_store (<[v := set_actually_live obj true]>)) ;;;
          commit_objects vs
      end
  end.

(** [for version in new_versions: if version in store: del store[version]] *)
Fixpoint discard_objects (versions : list string) : M ProtocolExecutor unit :=
  match versions with
  | [] => ret tt
  | v :: vs =>
      store <- gets object_store ;;
      (if bool_decide (is_Some (store !! v))
       then modify (with_store (delete v))
       else ret tt) ;;;
      discard_objects vs
  end.

(** [command = self.seq[seq_no]] *)
Definition seq_position (seq_no : Z) : M ProtocolExecutor nat :=
  s <- gets seq ;;
  match py_position s seq_no with
  | Some i => ret i
  | None => throw IndexError "list index out of range"
  end.

(** [ProtocolExecutor.set_success] *)
Definition set_success (seq_no : Z) : M ProtocolExecutor unit :=
  lc <- gets last_confirmed ;;
  assert_ (seq_no =? Z.of_nat lc)%Z ;;;
  modify (with_last_confirmed (S lc)) ;;;
  i <- seq_position seq_no ;;
  modify (with_seq (alter (fun c => set_commit_status c (Some true)) i)) ;;;
  s <- gets seq ;;
  match s !! i with
  | None => throw IndexError "list index out of range"
  | Some cmd =>
      consume_objects (get_dependencies cmd) ;;;
      commit_objects (new_object_versions cmd) ;;;
      modify (with_hook (OnSuccess cmd)) ;;;
      lift_result (on_success cmd)
  end.

(** [ProtocolExecutor.set_fail] *)
Definition set_fail (seq_no : Z) : M ProtocolExecutor unit :=
  lc <- gets last_confirmed ;;
  assert_ (seq_no =? Z.of_nat lc)%Z ;;;
  modify (with_last_confirmed (S lc)) ;;;
  i <- seq_position seq_no ;;
  modify (with_seq (alter (fun c => set_commit_status c (Some false)) i)) ;;;
  s <- gets seq ;;
  match s !! i with
  | None => throw IndexError "list index out of range"
  | Some cmd =>
      discard_objects (new_object_versions cmd) ;;;
      modify (with_hook (OnFail cmd)) ;;;
      lift_result (on_fail cmd)
  end.

End WithCommands.

Definition count_potentially_live (ex : ProtocolExecutor) : nat :=
  size (filter (fun kv => get_potentially_live kv.2 = true) (object_store ex)).

Definition count_actually_live (ex : ProtocolExecutor) : nat :=
  size (filter (fun kv => get_actually_live kv.2 = true) (object_store ex)).

(** Every object of the store has its flag [potentially_live] set. *)
Definition all_potentially_live (store : gmap string SharedObject) : Prop :=
  map_Forall (fun _ obj => get_potentially_live obj = true) store.

End Executor.

(** ** [storage.py]: keys, namespaces and transactions *)

Module Storage.

(** [str(n)] for a length. *)
Definition str_of_nat (n : nat) : string :=
  DecimalString.NilEmpty.string_of_uint (Nat.to_uint n).

(** [f'[{len(s)}:{s}]'] *)
Definition key_part (s : string) : string :=
  "[" +:+ str_of_nat (String.length s) +:+ ":" +:+ s +:+ "]".

(** [key_join] *)
Definition key_join (strs : list string) : string :=
  String.concat "||" (map key_part strs).

(** [hashlib]'s part of a namespace: [sha256(s.encode('utf8')).digest().hex()]. *)
Class HashLib := { sha256_hex : string → string }.

(** What [StorableDict] and [StorableValue] keep about their place in the
    hierarchy. *)
Record Storable := mkStorable { root : list string; name : string }.

Definition base_key (self : Storable) : list string := root self ++ [name self].

(** The first lines of [StorableDict.__init__] and [StorableValue.__init__]. *)
Definition Storable_init (nm : string) (parent : option Storable) : Storable :=
  {| root := match parent with None => [""] | Some r => base_key r end;
     name := nm |}.

(** [self.ns] *)
Definition ns `{HashLib} (self : Storable) : string :=
  sha256_hex (key_join (base_key self)).

(** [BasicStore]: the rows as of the last commit and the rows the
    connection sees, over any representation [T] of the table. *)
Record BasicStore (T : Type) := mkStore {
  can_write : bool;
  committed : T;
  current : T
}.
Arguments mkStore {T}.
Arguments can_write {T}.
Arguments committed {T}.
Arguments current {T}.

Section BasicStore.
Context {T : Type}.

Definition set_write (can_wrtie : bool) (db : BasicStore T) : BasicStore T :=
  {| can_write := can_wrtie; committed := committed db; current := current db |}.

Definition check_write : M (BasicStore T) unit :=
  fun db =>
    if can_write db then (Ok tt, db)
    else (Raise (mkExn RuntimeError
                   "Store cannot be used for writing outside a transaction."), db).

Definition update_rows (f : T → T) (db : BasicStore T) : BasicStore T :=
  {| can_write := can_write db; committed := committed db; current := f (current db) |}.

(** [end_transaction]: [db.commit()] or [db.rollback()] *)
Definition end_transaction (commit : bool) (db : BasicStore T) : BasicStore T :=
  if commit
  then {| can_write := can_write db; committed := current db; current := current db |}
  else {| can_write := can_write db; committed := committed db; current := committed db |}.

End BasicStore.

(** The [kvstore] table: rows [(ns, key) ↦ val]. *)
Abbreviation Rows := (gmap (string * string) string).

Definition get (nsp key : string) : M (BasicStore Rows) string :=
  fun db =>
    match current db !! (nsp, key) with
    | None => (Raise (mkExn KeyError key), db)
    | Some val => (Ok val, db)
    end.

Definition put (nsp key val : string) : M (BasicStore Rows) unit :=
  check_write ;;; modify (update_rows (<[(nsp, key) := val]>)).

Definition delete_ (nsp key : string) : M (BasicStore Rows) unit :=
  check_write ;;;
  rows <- gets current ;;
  match rows !! (nsp, key) with
  | None => throw KeyError key
  | Some _ => modify (update_rows (delete (nsp, key)))
  end.

Definition isin (nsp key : string) : M (BasicStore Rows) bool :=
  try_except (get nsp key ;;; ret true)
    (fun e => match exn_ty e with KeyError => ret false | _ => rethrow e end).

(** The rows [WHERE ns=?] selects.  SQL fixes no order for them; here they
    come in the order of the map. *)
Definition rows_of (nsp : string) (rows : Rows) : list (string * string * string) :=
  filter (fun row => row.1.1 = nsp) (map_to_list rows).

(** [getkeys] *)
Definition getkeys (nsp : string) : M (BasicStore Rows) (list string) :=
  gets (fun db => (fun row => row.1.2) <$> rows_of nsp (current db)).

(** [count] *)
Definition count (nsp : string) : M (BasicStore Rows) nat :=
  gets (fun db => length (rows_of nsp (current db))).

(** What a [StorableDict] needs of the type [xtype] of its values:
    [Storable.pre_proc] and [Storable.post_proc] for that type, and
    [json.dumps] and [json.loads] on the structures [J] they exchange. *)
Class Xtype (V J : Type) := {
  pre_proc : V → result J;
  post_proc : J → result V;
  dumps : J → result string;
  loads : string → result J
}.

(** [StorableDict]: its methods on the store [self.db]. *)
Module StorableDict.
Section Methods.
Context `{HashLib} {V J : Type} `{Xtype V J}.

Definition __getitem__ (self : Storable) (key : string) : M (BasicStore Rows) V :=
  data <- get (ns self) key ;;
  j <- lift_result (loads data) ;;
  lift_result (post_proc j).

Definition __setitem__ (self : Storable) (key : string) (value : V)
    : M (BasicStore Rows) unit :=
  j <- lift_result (pre_proc value) ;;
  data <- lift_result (dumps j) ;;
  put (ns self) key data.

Definition keys (self : Storable) : M (BasicStore Rows) (list string) :=
  getkeys (ns self).

(** [return self.db.count()]: the call leaves out the argument [ns]. *)
Definition __len__ (self : Storable) : M (BasicStore Rows) nat :=
  throw TypeError "count() missing 1 required positional argument: 'ns'".

Definition is_empty (self : Storable) : M (BasicStore Rows) bool :=
  n <- count (ns self) ;; ret (Nat.eqb n 0).

Definition __delitem__ (self : Storable) (key : string) : M (BasicStore Rows) unit :=
  delete_ (ns self) key.

Definition __contains__ (self : Storable) (item : string) : M (BasicStore Rows) bool :=
  isin (ns self) item.

End Methods.
End StorableDict.

(** [StorableFactory].  The transaction identifier is a fresh unique string
    that is never read; only its presence is kept. *)
Record StorableFactory (T : Type) := mkFactory {
  db : BasicStore T;
  current_transaction : bool;
  levels : nat
}.
Arguments mkFactory {T}.
Arguments db {T}.
Arguments current_transaction {T}.
Arguments levels {T}.

Section Factory.
Context {T : Type}.

(** [StorableFactory.__init__] *)
Definition StorableFactory_init (d : BasicStore T) : StorableFactory T :=
  {| db := d; current_transaction := false; levels := 0 |}.

(** [StorableFactory.__enter__] *)
Definition enter (self : StorableFactory T) : StorableFactory T :=
  let self1 :=
    if Nat.eqb (levels self) 0
    then {| db := set_write true (db self); current_transaction := true;
            levels := levels self |}
    else self in
  {| db := db self1; current_transaction := current_transaction self1;
     levels := levels self1 + 1 |}.

(** [StorableFactory.__exit__]; [exc] tells whether the block raised. *)
Definition exit (exc : bool) (self : StorableFactory T) : StorableFactory T :=
  let lv := levels self - 1 in
  if Nat.eqb lv 0
  then {| db := end_transaction (negb exc) (set_write false (db self));
          current_transaction := false; levels := lv |}
  else {| db := db self; current_transaction := current_transaction self;
          levels := lv |}.

(** No transaction is open and nothing is left uncommitted, or one is open
    and the store accepts writes. *)
Definition consistent (self : StorableFactory T) : Prop :=
  if Nat.eqb (levels self) 0
  then can_write (db self) = false ∧ current (db self) = committed (db self)
       ∧ current_transaction self = false
  else can_write (db self) = true.

End Factory.

End Storage.

(** ** Addresses *)

Module Address.

(** Modelled from the spec: [libra_address.py] is not among the sources.
    An address is an opaque byte string with two operations, [last_bit] and
    the lexicographic comparison; [as_str] is its textual form. *)
Abbreviation LibraAddress := string.

Definition as_str (a : LibraAddress) : string := a.

Fixpoint last_byte (a : string) : option ascii :=
  match a with
  | EmptyString => None
  | String c EmptyString => Some c
  | String _ r => last_byte r
  end.

Definition last_bit (a : LibraAddress) : Z :=
  match last_byte a with
  | Some (Ascii b0 _ _ _ _ _ _ _) => Z.b2z b0
  | None => 0
  end.

Definition greater_than_or_equal (a b : LibraAddress) : bool :=
  match String.compare a b with
  | Lt => false
  | _ => true
  end.

Definition equal (a b : LibraAddress) : bool := bool_decide (a = b).

End Address.

(** ** Protocol messages *)

Module Messages.
Import Executor.

Inductive Status := success | failure.

#[export] Instance Status_eq_dec : EqDecision Status.
Proof. solve_decision. Defined.

(** Modelled from the spec: [protocol_messages.py] is not among the
    sources.  An error carries its code and says whether it is one of the
    protocol errors ([wait], [missing], [conflict], [malformed], [parsing])
    or the failure of a command. *)
Record OffChainError := mkError {
  protocol_error : bool;
  code : string
}.

(** Modelled from the spec: the response [{cid, seq, command_seq, status,
    error?}].  [seq] is [None] when it is not an integer; [previous_command]
    is the attribute the channel sets on a [conflict] answer. *)
Record CommandResponseObject := mkResponse {
  resp_seq : option Z;
  resp_command_seq : option Z;
  status : Status;
  error : option OffChainError;
  previous_command : option ProtocolCommand
}.

(** Modelled from the spec: the request [{cid, seq, command_seq?, command,
    response?}]. *)
Record CommandRequestObject := mkRequest {
  req_seq : Z;
  req_command_seq : option Z;
  req_command : ProtocolCommand;
  response : option CommandResponseObject
}.

#[export] Instance OffChainError_eq_dec : EqDecision OffChainError.
Proof. solve_decision. Defined.
#[export] Instance Response_eq_dec : EqDecision CommandResponseObject.
Proof. solve_decision. Defined.
#[export] Instance Request_eq_dec : EqDecision CommandRequestObject.
Proof. solve_decision. Defined.

Definition with_response (r : CommandRequestObject)
    (resp : option CommandResponseObject) : CommandRequestObject :=
  {| req_seq := req_seq r; req_command_seq := req_command_seq r;
     req_command := req_command r; response := resp |}.

Definition with_req_command (r : CommandRequestObject)
    (c : ProtocolCommand) : CommandRequestObject :=
  {| req_seq := req_seq r; req_command_seq := req_command_seq r;
     req_command := c; response := response r |}.

Definition with_command_seq (r : CommandResponseObject) (n : option Z)
    : CommandResponseObject :=
  {| resp_seq := resp_seq r; resp_command_seq := n; status := status r;
     error := error r; previous_command := previous_command r |}.

Definition with_previous_command (r : CommandResponseObject)
    (c : ProtocolCommand) : CommandResponseObject :=
  {| resp_seq := resp_seq r; resp_command_seq := resp_command_seq r;
     status := status r; error := error r; previous_command := Some c |}.

(** Modelled from the spec: a request has a response once one is attached. *)
Definition has_response (r : CommandRequestObject) : bool :=
  bool_decide (is_Some (response r)).

(** Modelled from the spec: the attached response reports success. *)
Definition is_success (r : CommandRequestObject) : bool :=
  match response r with
  | Some resp => bool_decide (status resp = success)
  | None => false
  end.

(** Modelled from the spec: two requests carry the same command. *)
Definition is_same_command `{CommandMethods} (r other : CommandRequestObject) : bool :=
  command_eq (req_command r) (req_command other).

(** Modelled from the spec: a response is a protocol failure when its
    status is [failure] and its error is a protocol error. *)
Definition not_protocol_failure (r : CommandResponseObject) : bool :=
  match status r, error r with
  | success, _ => true
  | failure, Some e => negb (protocol_error e)
  | failure, None => true
  end.

(** Modelled from the spec: the three answers to a request echo its [seq]. *)
Definition make_success_response (r : CommandRequestObject) : CommandResponseObject :=
  {| resp_seq := Some (req_seq r); resp_command_seq := None; status := success;
     error := None; previous_command := None |}.

Definition make_protocol_error (r : CommandRequestObject) (c : string)
    : CommandResponseObject :=
  {| resp_seq := Some (req_seq r); resp_command_seq := None; status := failure;
     error := Some {| protocol_error := true; code := c |};
     previous_command := None |}.

Definition make_command_error (r : CommandRequestObject) (c : string)
    : CommandResponseObject :=
  {| resp_seq := Some (req_seq r); resp_command_seq := None; status := failure;
     error := Some {| protocol_error := false; code := c |};
     previous_command := None |}.

(** Modelled from the spec: a [parsing] error has no echoed fields. *)
Definition make_parsing_error : CommandResponseObject :=
  {| resp_seq := None; resp_command_seq := None; status := failure;
     error := Some {| protocol_error := true; code := "parsing" |};
     previous_command := None |}.

(** [CommandRequestObject(command)] with its [seq] and [command_seq] set. *)
Definition CommandRequestObject_init (c : ProtocolCommand) (sq : Z)
    (command_seq : option Z) : CommandRequestObject :=
  {| req_seq := sq; req_command_seq := command_seq; req_command := c;
     response := None |}.

(** Modelled from the spec: a message as it is handed to the channel, the
    JSON text when the caller says [encoded] and the decoded data
    otherwise.  It holds a request, a response or something else; or it is
    text that is not JSON at all. *)
Inductive Json :=
| JsonRequest (r : CommandRequestObject)
| JsonResponse (r : CommandResponseObject)
| JsonOther (s : string)
| JsonUndecodable (text : string).

(** [json.loads]: text that is not JSON raises [json.JSONDecodeError], a
    [ValueError] and no [JSONParsingError]. *)
Definition json_loads (j : Json) : result Json :=
  match j with
  | JsonUndecodable _ =>
      Raise (mkExn JSONDecodeError "Expecting value: line 1 column 1 (char 0)")
  | _ => Ok j
  end.

Definition parsing_failed {A} : result A :=
  Raise (mkExn JSONParsingError "").

Definition request_from_json (j : Json) : result CommandRequestObject :=
  match j with JsonRequest r => Ok r | _ => parsing_failed end.

Definition response_from_json (j : Json) : result CommandResponseObject :=
  match j with JsonResponse r => Ok r | _ => parsing_failed end.

Inductive MessageType := RequestType | ResponseType.

(** [NetMessage = namedtuple('NetMessage', ['src', 'dst', 'type', 'content'])] *)
Record NetMessage := mkNetMessage {
  src : string;
  dst : string;
  type : MessageType;
  content : Json
}.

End Messages.

(** ** [protocol.py]: the channel between two VASPs *)

Module Protocol.
Import Utils Executor Storage Address Messages.

(** The persisted fields of a channel, as the storage keeps them. *)
Record Persist := mkPersist {
  my_requests : list CommandRequestObject;
  other_requests : list CommandRequestObject;
  next_retransmit : nat
}.

Definition with_my_requests (f : list CommandRequestObject → list CommandRequestObject)
    (p : Persist) : Persist :=
  {| my_requests := f (my_requests p); other_requests := other_requests p;
     next_retransmit := next_retransmit p |}.

Definition with_other_requests (f : list CommandRequestObject → list CommandRequestObject)
    (p : Persist) : Persist :=
  {| my_requests := my_requests p; other_requests := f (other_requests p);
     next_retransmit := next_retransmit p |}.

Definition with_next_retransmit (n : nat) (p : Persist) : Persist :=
  {| my_requests := my_requests p; other_requests := other_requests p;
     next_retransmit := n |}.

(** An [asyncio.Future]: pending, resolved or failed. *)
Inductive FutureValue :=
| Sent (m : NetMessage)
| Handled (b : bool).

Inductive FutureState :=
| Pending
| Resolved (v : FutureValue)
| Failed (e : exn).

(** The attributes [VASPPairChannel.__init__] sets.  A future is named by
    its position in [futures]; the lock, the processor and the VASP handle
    carry no state of their own here. *)
Record VASPPairChannel := mkChannel {
  myself : LibraAddress;
  other : LibraAddress;
  storage : StorableFactory Persist;
  executor : ProtocolExecutor;
  response_cache : gmap Z CommandResponseObject;
  waiting_requests : gmap Z (list (Json * bool * nat * Z));
  request_window : Z;
  waiting_response : gmap Z (list (Json * bool * nat));
  response_window : Z;
  net_queue : list NetMessage;
  futures : list FutureState
}.

Definition with_storage (f : StorableFactory Persist → StorableFactory Persist)
    (ch : VASPPairChannel) : VASPPairChannel :=
  {| myself := myself ch; other := other ch; storage := f (storage ch);
     executor := executor ch; response_cache := response_cache ch;
     waiting_requests := waiting_requests ch; request_window := request_window ch;
     waiting_response := waiting_response ch; response_window := response_window ch;
     net_queue := net_queue ch; futures := futures ch |}.

Definition with_executor (ex : ProtocolExecutor) (ch : VASPPairChannel) : VASPPairChannel :=
  {| myself := myself ch; other := other ch; storage := storage ch;
     executor := ex; response_cache := response_cache ch;
     waiting_requests := waiting_requests ch; request_window := request_window ch;
     waiting_response := waiting_response ch; response_window := response_window ch;
     net_queue := net_queue ch; futures := futures ch |}.

Definition with_response_cache
    (f : gmap Z CommandResponseObject → gmap Z CommandResponseObject)
    (ch : VASPPairChannel) : VASPPairChannel :=
  {| myself := myself ch; other := other ch; storage := storage ch;
     executor := executor ch; response_cache := f (response_cache ch);
     waiting_requests := waiting_requests ch; request_window := request_window ch;
     waiting_response := waiting_response ch; response_window := response_window ch;
     net_queue := net_queue ch; futures := futures ch |}.

Definition with_waiting_requests
    (f : gmap Z (list (Json * bool * nat * Z)) → gmap Z (list (Json * bool * nat * Z)))
    (ch : VASPPairChannel) : VASPPairChannel :=
  {| myself := myself ch; other := other ch; storage := storage ch;
     executor := executor ch; response_cache := response_cache ch;
     waiting_requests := f (waiting_requests ch); request_window := request_window ch;
     waiting_response := waiting_response ch; response_window := response_window ch;
     net_queue := net_queue ch; futures := futures ch |}.

Definition with_waiting_response
    (f : gmap Z (list (Json * bool * nat)) → gmap Z (list (Json * bool * nat)))
    (ch : VASPPairChannel) : VASPPairChannel :=
  {| myself := myself ch; other := other ch; storage := storage ch;
     executor := executor ch; response_cache := response_cache ch;
     waiting_requests := waiting_requests ch; request_window := request_window ch;
     waiting_response := f (waiting_response ch); response_window := response_window ch;
     net_queue := net_queue ch; futures := futures ch |}.

Definition with_net_queue (f : list NetMessage → list NetMessage)
    (ch : VASPPairChannel) : VASPPairChannel :=
  {| myself := myself ch; other := other ch; storage := storage ch;
     executor := executor ch; response_cache := response_cache ch;
     waiting_requests := waiting_requests ch; request_window := request_window ch;
     waiting_response := waiting_response ch; response_window := response_window ch;
     net_queue := f (net_queue ch); futures := futures ch |}.

Definition with_futures (f : list FutureState → list FutureState)
    (ch : VASPPairChannel) : VASPPairChannel :=
  {| myself := myself ch; other := other ch; storage := storage ch;
     executor := executor ch; response_cache := response_cache ch;
     waiting_requests := waiting_requests ch; request_window := request_window ch;
     waiting_response := waiting_response ch; response_window := response_window ch;
     net_queue := net_queue ch; futures := f (futures ch) |}.

(** [with self.storage.atomic_writes() as tx_no: body] *)
Definition atomic_writes {A} (body : M VASPPairChannel A) : M VASPPairChannel A :=
  fun ch =>
    match body (with_storage enter ch) with
    | (r, ch') => (r, with_storage (exit (negb (is_ok r))) ch')
    end.

(** The attributes [VASPPairChannel.__init__] sets once the two addresses
    are known to differ, over a storage factory that may already hold the
    channel's persisted fields. *)
Definition initial_attributes (myself other : LibraAddress)
    (storage : StorableFactory Persist) : VASPPairChannel :=
  {| myself := myself; other := other;
     storage := exit false (enter storage);
     executor := ProtocolExecutor_init;
     response_cache := ∅;
     waiting_requests := ∅; request_window := 1000;
     waiting_response := ∅; response_window := 1000;
     net_queue := []; futures := [] |}.

(** [VASPPairChannel.__init__] *)
Definition VASPPairChannel_init (myself other : LibraAddress)
    (storage : StorableFactory Persist) : result VASPPairChannel :=
  (* Check we are not making a channel with ourselves *)
  if bool_decide (as_str myself = as_str other)
  then Raise (mkExn Exception_ "Must talk to another VASP:")
  else Ok (initial_attributes myself other storage).

(** The persisted fields as the channel reads them. *)
Definition persisted (ch : VASPPairChannel) : Persist := current (db (storage ch)).

(** Modelled from the spec: the storable list and value of [storage.py]
    that hold the persisted fields are not among the sources.  A write
    outside a transaction fails; a list is read by position. *)
Definition write (f : Persist → Persist) : M VASPPairChannel unit :=
  fun ch =>
    match check_write (db (storage ch)) with
    | (Ok _, _) =>
        (Ok tt,
         with_storage (fun st => {| db := update_rows f (db st);
                                    current_transaction := current_transaction st;
                                    levels := levels st |}) ch)
    | (Raise e, _) => (Raise e, ch)
    end.

(** Modelled from the spec: reading a storable list, which is not among
    the sources, at a position outside [0 .. len - 1] signals not-found. *)
Definition storable_index {A} (l : list A) (i : Z) : result A :=
  if (i <? 0)%Z then Raise (mkExn KeyError "")
  else match l !! Z.to_nat i with
       | Some x => Ok x
       | None => Raise (mkExn KeyError "")
       end.

Definition lift_executor {A} (m : M ProtocolExecutor A) : M VASPPairChannel A :=
  fun ch => match m (executor ch) with
            | (r, ex') => (r, with_executor ex' ch)
            end.

Definition my_next_seq (ch : VASPPairChannel) : nat := length (my_requests (persisted ch)).
Definition other_next_seq (ch : VASPPairChannel) : nat := length (other_requests (persisted ch)).
Definition get_my_address (ch : VASPPairChannel) : LibraAddress := myself ch.
Definition get_other_address (ch : VASPPairChannel) : LibraAddress := other ch.

(** [next_final_sequence] *)
Definition next_final_sequence (ch : VASPPairChannel) : nat := next_seq (executor ch).

(** [get_final_sequence] *)
Definition get_final_sequence (ch : VASPPairChannel) : list ProtocolCommand :=
  seq (executor ch).

(** [send_request]; the message carries the request as it is serialized
    for the network. *)
Definition send_request (request : CommandRequestObject) : M VASPPairChannel NetMessage :=
  fun ch =>
    let net_message :=
      {| src := myself ch; dst := other ch; type := RequestType;
         content := JsonRequest request |} in
    (Ok net_message, with_net_queue (fun q => q ++ [net_message]) ch).

(** [send_response] *)
Definition send_response (response : option CommandResponseObject) (encoded : bool)
    : M VASPPairChannel NetMessage :=
  fun ch =>
    match response with
    | None => (Raise (mkExn AttributeError "get_json_data_dict"), ch)
    | Some resp =>
        let net_message :=
          {| src := myself ch; dst := other ch; type := ResponseType;
             content := JsonResponse resp |} in
        (Ok net_message, with_net_queue (fun q => q ++ [net_message]) ch)
    end.

(** The body of [is_client], on the two addresses. *)
Definition client_of (myself_address other_address : LibraAddress) : result bool :=
  let bit := Z.lxor (last_bit myself_address) (last_bit other_address) in
  if (bit =? 0)%Z then Ok (greater_than_or_equal myself_address other_address)
  else if (bit =? 1)%Z
       then Ok (negb (greater_than_or_equal myself_address other_address))
       else Raise (mkExn AssertionError "").

(** [is_client] *)
Definition is_client : M VASPPairChannel bool :=
  fun ch => (client_of (myself ch) (other ch), ch).

(** [is_server] *)
Definition is_server : M VASPPairChannel bool :=
  c <- is_client ;; ret (negb c).

(** [role] *)
Definition role : M VASPPairChannel string :=
  c <- is_client ;; ret (if c then "Client" else "Server").

(** [num_pending_responses] *)
Definition num_pending_responses (ch : VASPPairChannel) : nat :=
  length (filter (fun req => has_response req = false) (my_requests (persisted ch))).

Section WithCommands.
Context `{CommandMethods}.

(** [apply_response_to_executor].  A [command_seq] that is [None] equals
    no [last_confirmed], so the assertion of [set_success] or [set_fail]
    fails on it. *)
Definition apply_response_to_executor (request : CommandRequestObject)
    : M VASPPairChannel unit :=
  assert_ (bool_decide (is_Some (response request))) ;;;
  match response request with
  | None => ret tt
  | Some resp =>
      match resp_command_seq resp with
      | None => throw AssertionError ""
      | Some n =>
          if is_success request
          then lift_executor (set_success n)
          else lift_executor (set_fail n)
      end
  end.

(** [sequence_command_local] *)
Definition sequence_command_local (off_chain_command : ProtocolCommand)
    : M VASPPairChannel NetMessage :=
  me <- gets get_my_address ;;
  let off_chain_command := set_origin off_chain_command me in
  request <- atomic_writes (
    sq <- gets my_next_seq ;;
    server <- is_server ;;
    command_seq <-
      (if server : bool
       then n <- gets next_final_sequence ;;
            (* Raises and exits on error -- does not sequence *)
            lift_executor (sequence_next_command off_chain_command true true) ;;;
            ret (Some (Z.of_nat n))
       else ret None) ;;
    let request :=
      CommandRequestObject_init off_chain_command (Z.of_nat sq) command_seq in
    write (with_my_requests (fun l => l ++ [request])) ;;;
    ret request) ;;
  (* Send the requests outside the locks *)
  send_request request.

(** [_handle_request] *)
Definition _handle_request (request : CommandRequestObject)
    : M VASPPairChannel (option CommandResponseObject) :=
  oth <- gets other ;;
  let request := with_req_command request (set_origin (req_command request) oth) in
  next <- gets other_next_seq ;;
  (* Always answer old requests *)
  if (req_seq request <? Z.of_nat next)%Z then
    reqs <- gets (fun ch => other_requests (persisted ch)) ;;
    previous_request <- lift_result (storable_index reqs (req_seq request)) ;;
    if is_same_command previous_request request
    then ret (response previous_request)
    else
      let response := make_protocol_error request "conflict" in
      ret (Some (with_previous_command response (req_command previous_request)))
  else
  (* Clients are not to suggest sequence numbers. *)
  server <- is_server ;;
  if server && bool_decide (is_Some (req_command_seq request))
  then ret (Some (make_protocol_error request "malformed"))
  else
  server <- is_server ;;
  pending <- gets num_pending_responses ;;
  if server && (0 <? pending)%nat
  then ret (Some (make_protocol_error request "wait"))
  else
  (* Sequence newer requests *)
  next <- gets other_next_seq ;;
  if (req_seq request =? Z.of_nat next)%Z then
    client <- is_client ;;
    final <- gets next_final_sequence ;;
    too_early <-
      (if client : bool
       then match req_command_seq request with
            | Some n => ret (Z.of_nat final <? n)%Z
            | None => throw TypeError "'>' not supported between 'NoneType' and 'int'"
            end
       else ret false) ;;
    if too_early : bool then ret (Some (make_protocol_error request "wait"))
    else
      sq <- gets next_final_sequence ;;
      response <-
        try_except
          (lift_executor (sequence_next_command (req_command request) false true) ;;;
           ret (make_success_response request))
          (fun e => match exn_ty e with
                    | ExecutorException => ret (make_command_error request (exn_msg e))
                    | _ => rethrow e
                    end) ;;
      (* Write back to storage *)
      let response := with_command_seq response (Some (Z.of_nat sq)) in
      let request := with_response request (Some response) in
      write (with_other_requests (fun l => l ++ [request])) ;;;
      apply_response_to_executor request ;;;
      ret (Messages.response request)
  else if (Z.of_nat next <? req_seq request)%Z then
    ret (Some (make_protocol_error request "missing"))
  else throw AssertionError "".

(** [handle_request] *)
Definition handle_request (request : CommandRequestObject)
    : M VASPPairChannel (option CommandResponseObject) :=
  atomic_writes (_handle_request request).

(** The loop of [would_retransmit] over [my_requests] from position
    [next_retransmit] on: answered requests are skipped, the first
    unanswered one stops the loop. *)
Fixpoint scan_retransmit (remaining : list CommandRequestObject)
    (next_retransmit : nat) (do_retransmit : bool)
    : nat * option CommandRequestObject :=
  match remaining with
  | [] => (next_retransmit, None)
  | request :: rest =>
      if has_response request
      then scan_retransmit rest (S next_retransmit) do_retransmit
      else (next_retransmit, if do_retransmit then Some request else None)
  end.

(** [would_retransmit] *)
Definition would_retransmit (do_retransmit : bool)
    : M VASPPairChannel (option NetMessage) :=
  request_to_send <- atomic_writes (
    start <- gets (fun ch => next_retransmit (persisted ch)) ;;
    reqs <- gets (fun ch => my_requests (persisted ch)) ;;
    let '(next, request_to_send) :=
      scan_retransmit (drop start reqs) start do_retransmit in
    write (with_next_retransmit next) ;;;
    ret request_to_send) ;;
  match request_to_send with
  | Some request => m <- send_request request ;; ret (Some m)
  | None => ret None
  end.

(** [retransmit] *)
Definition retransmit : M VASPPairChannel unit :=
  would_retransmit true ;;; ret tt.

(** [has_pending_responses] *)
Definition has_pending_responses : M VASPPairChannel (option NetMessage) :=
  would_retransmit false.

End WithCommands.

(** *** Futures *)

(** [asyncio.Future(loop=loop)] *)
Definition new_future : M VASPPairChannel nat :=
  fun ch => (Ok (length (futures ch)), with_futures (fun l => l ++ [Pending]) ch).

Definition settle (fut : nat) (st : FutureState) : M VASPPairChannel unit :=
  fun ch =>
    match futures ch !! fut with
    | Some Pending => (Ok tt, with_futures (<[fut := st]>) ch)
    | _ => (Raise (mkExn InvalidStateError "invalid state"), ch)
    end.

(** [fut.set_result(v)] *)
Definition set_result (fut : nat) (v : FutureValue) : M VASPPairChannel unit :=
  settle fut (Resolved v).

(** [fut.set_exception(e)] *)
Definition set_exception (fut : nat) (e : exn) : M VASPPairChannel unit :=
  settle fut (Failed e).

(** [fut.result()] *)
Definition future_result (fut : nat) : M VASPPairChannel FutureValue :=
  fun ch =>
    match futures ch !! fut with
    | Some (Resolved v) => (Ok v, ch)
    | Some (Failed e) => (Raise e, ch)
    | _ => (Raise (mkExn InvalidStateError "Result is not set."), ch)
    end.

Definition fresh_or (fut : option nat) : M VASPPairChannel nat :=
  match fut with
  | None => new_future
  | Some f => ret f
  end.

(** *** Attribute lookup *)

(** The attributes of a channel object: those [__init__] sets and the
    names the class defines. *)
Definition instance_attributes : list string :=
  ["myself"; "other"; "processor"; "vasp"; "storage"; "rlock"; "my_requests";
   "other_requests"; "next_retransmit"; "executor"; "response_cache";
   "waiting_requests"; "request_window"; "waiting_response"; "response_window";
   "net_queue"; "peer_base_url"].

Definition class_attributes : list string :=
  ["my_next_seq"; "other_next_seq"; "get_my_address"; "get_other_address";
   "get_vasp"; "tap"; "next_final_sequence"; "get_final_sequence";
   "send_request"; "send_response"; "is_client"; "role"; "is_server";
   "num_pending_responses"; "has_pending_responses";
   "process_pending_requests_response"; "apply_response_to_executor";
   "sequence_command_local"; "parse_handle_request"; "process_waiting_messages";
   "parse_handle_request_to_future"; "handle_request"; "_handle_request";
   "parse_handle_response"; "parse_handle_response_to_future";
   "handle_response"; "_handle_response"; "retransmit"; "would_retransmit"].

(** The exception of a failed attribute lookup. *)
Definition no_attribute (name : string) : exn :=
  mkExn AttributeError ("'VASPPairChannel' object has no attribute '" +:+ name +:+ "'").

(** [self.<name>[key]] where a buffer of request records is expected: the
    name must be an attribute of the object, and only [waiting_requests]
    holds such a buffer (a [defaultdict(list)], so a missing key reads as
    the empty list). *)
Definition request_buffer_item (name : string) (key : Z)
    : M VASPPairChannel (list (Json * bool * nat * Z)) :=
  fun ch =>
    if bool_decide (name = "waiting_requests") then
      match waiting_requests ch !! key with
      | Some l => (Ok l, ch)
      | None => (Ok [], with_waiting_requests (<[key := []]>) ch)
      end
    else if bool_decide (name ∈ instance_attributes ++ class_attributes)
    then (Raise (mkExn TypeError "object is not subscriptable"), ch)
    else (Raise (no_attribute name), ch).

(** *** Handlers that may call each other without bound *)

(** A computation that may run out of fuel ([None]). *)
Definition F (A : Type) : Type :=
  VASPPairChannel → option (result A * VASPPairChannel).

Definition total {A} (m : M VASPPairChannel A) : F A := fun ch => Some (m ch).

Definition fbind {A B} (m : F A) (k : A → F B) : F B :=
  fun ch =>
    match m ch with
    | None => None
    | Some (Ok a, ch') => k a ch'
    | Some (Raise e, ch') => Some (Raise e, ch')
    end.

Definition out_of_fuel {A} : F A := fun _ => None.

(** [try: m except: h] on such computations. *)
Definition ftry_except {A} (m : F A) (h : exn → F A) : F A :=
  fun ch =>
    match m ch with
    | None => None
    | Some (Ok a, ch') => Some (Ok a, ch')
    | Some (Raise e, ch') => h e ch'
    end.

Definition atomic_writes_F {A} (body : F A) : F A :=
  fun ch =>
    match body (with_storage enter ch) with
    | None => None
    | Some (r, ch') => Some (r, with_storage (exit (negb (is_ok r))) ch')
    end.

(** [for x in xs: body x] *)
Fixpoint for_each {A} (xs : list A) (body : A → F unit) : F unit :=
  match xs with
  | [] => total (ret tt)
  | x :: rest => fbind (body x) (fun _ => for_each rest body)
  end.

Notation "x <~ m ;; k" := (fbind m (fun x => k))
  (at level 100, m at next level, right associativity) : py_scope.
Notation "m ;;~ k" := (fbind m (fun _ => k))
  (at level 100, right associativity) : py_scope.

Section Handlers.
Context `{CommandMethods}.

(** [parse_handle_request_to_future]; [now] is the reading of
    [time.time()]. *)
Definition parse_handle_request_to_future (json_command : Json) (encoded : bool)
    (fut : option nat) (nowait : bool) (now : Z) : M VASPPairChannel nat :=
  fut <- fresh_or fut ;;
  (* [Some response]: go on to send it; [None]: the future was returned. *)
  outcome <-
    try_except
      ((* Parse the request whoever necessary *)
       req_dict <- lift_result (if encoded : bool then json_loads json_command
                                else Ok json_command) ;;
       request <- lift_result (request_from_json req_dict) ;;
       next <- gets other_next_seq ;;
       window <- gets request_window ;;
       let in_window :=
         ((Z.of_nat next <? req_seq request)
          && (req_seq request <? req_seq request + window))%Z in
       server_busy <-
         (if negb in_window
          then server <- is_server ;;
               pending <- gets num_pending_responses ;;
               ret (server && (0 <? pending)%nat)
          else ret false) ;;
       if (negb in_window && negb server_busy) || nowait
       then response <- handle_request request ;; ret (Some response)
       else
         buffered <- gets (fun ch => default [] (waiting_requests ch !! req_seq request)) ;;
         modify (with_waiting_requests
                   (<[req_seq request := buffered ++ [(json_command, encoded, fut, now)]]>)) ;;;
         ret None)
      (fun e =>
         match exn_ty e with
         | JSONParsingError =>
             send_response (Some make_parsing_error) false ;;;
             ret (Some (Some make_parsing_error))
         | _ => set_exception fut e ;;; ret None
         end) ;;
  match outcome with
  | None => ret fut
  | Some response =>
      (* Prepare the response. *)
      full_response <- send_response response false ;;
      set_result fut (Sent full_response) ;;;
      ret fut
  end.

(** [parse_handle_request] *)
Definition parse_handle_request (json_command : Json) (encoded : bool) (now : Z)
    : M VASPPairChannel FutureValue :=
  fut <- parse_handle_request_to_future json_command encoded None true now ;;
  future_result fut.

Section Recursive.
(** The handler of responses that the functions below call back. *)
Variable handle_response_rec : CommandResponseObject → F bool.

(** [parse_handle_response_to_future] *)
Definition parse_handle_response_to_future_with (json_response : Json)
    (encoded : bool) (fut : option nat) (nowait : bool) : F nat :=
  fut <~ total (fresh_or fut) ;;
  ftry_except
    (resp_dict <~ total (lift_result (if encoded : bool then json_loads json_response
                                      else Ok json_response)) ;;
     response <~ total (lift_result (response_from_json resp_dict)) ;;
     (* Check if this has to wait *)
     next_response_seq <~ total (gets next_final_sequence) ;;
     window <~ total (gets response_window) ;;
     let command_seq := resp_command_seq response in
     let can_handle :=
       match command_seq with
       | None => true
       | Some n =>
           negb ((Z.of_nat next_response_seq <? n)
                 && (n <? Z.of_nat next_response_seq + window))%Z
       end in
     if can_handle || nowait
     then
       result <~ handle_response_rec response ;;
       total (set_result fut (Handled result)) ;;~
       total (ret fut)
     else
       match command_seq with
       | Some n =>
           total (
             buffered <- gets (fun ch => default [] (waiting_response ch !! n)) ;;
             modify (with_waiting_response
                       (<[n := buffered ++ [(json_response, encoded, fut)]]>)) ;;;
             ret fut)
       | None => total (ret fut)
       end)
    (fun e =>
       match exn_ty e with
       | JSONParsingError => total (set_exception fut e ;;; ret fut)
       | _ => total (rethrow e)
       end).

(** The first loop of [process_waiting_messages]. *)
Fixpoint drain_waiting_response (fuel : nat) : F unit :=
  match fuel with
  | O => out_of_fuel
  | S fuel' =>
      next <~ total (gets next_final_sequence) ;;
      waiting <~ total (gets waiting_response) ;;
      if bool_decide (is_Some (waiting !! Z.of_nat next)) then
        next_cmd_seq <~ total (gets (fun ch => Z.of_nat (last_confirmed (executor ch)))) ;;
        list_of_responses <~ total (
          match waiting !! next_cmd_seq with
          | Some l => ret l
          | None => modify (with_waiting_response (<[next_cmd_seq := []]>)) ;;; ret []
          end) ;;
        for_each list_of_responses (fun resp_record =>
          let '(json_command, encoded, fut) := resp_record in
          parse_handle_response_to_future_with json_command encoded (Some fut) false ;;~
          total (ret tt)) ;;~
        total (
          waiting <- gets waiting_response ;;
          match waiting !! next_cmd_seq with
          | Some _ => modify (with_waiting_response (delete next_cmd_seq))
          | None => throw KeyError ""
          end) ;;~
        drain_waiting_response fuel'
      else total (ret tt)
  end.

(** The second loop of [process_waiting_messages]; the buffer is read
    through the attribute [waiting]. *)
Fixpoint drain_waiting_requests (now : Z) (fuel : nat) : F unit :=
  match fuel with
  | O => out_of_fuel
  | S fuel' =>
      next <~ total (gets other_next_seq) ;;
      waiting <~ total (gets waiting_requests) ;;
      if bool_decide (is_Some (waiting !! Z.of_nat next)) then
        next_seq <~ total (gets (fun ch => Z.of_nat (other_next_seq ch))) ;;
        list_of_requests <~ total (request_buffer_item "waiting" next_seq) ;;
        for_each list_of_requests (fun req_record =>
          let '(json_command, encoded, fut, old_time) := req_record in
          (* Call, and this will update the future and unblocks
             any processes waiting on it. *)
          total (parse_handle_request_to_future json_command encoded (Some fut) false now) ;;~
          total (ret tt)) ;;~
        total (
          waiting <- gets waiting_requests ;;
          match waiting !! next_seq with
          | Some _ => modify (with_waiting_requests (delete next_seq))
          | None => throw KeyError ""
          end) ;;~
        drain_waiting_requests now fuel'
      else total (ret tt)
  end.

(** [process_waiting_messages] *)
Definition process_waiting_messages_with (now : Z) (fuel : nat) : F unit :=
  drain_waiting_response fuel ;;~
  drain_waiting_requests now fuel.

(** [process_pending_requests_response] *)
Definition process_pending_requests_response_with (now : Z) (fuel : nat) : F unit :=
  process_waiting_messages_with now fuel ;;~
  (* No need to make loop -- it will call again upon success *)
  next <~ total (gets next_final_sequence) ;;
  cache <~ total (gets response_cache) ;;
  match cache !! Z.of_nat next with
  | Some response => handle_response_rec response ;;~ total (ret tt)
  | None => total (ret tt)
  end.

(** [self.my_requests[request_seq] = request] *)
Definition store_my_request (request_seq : Z) (request : CommandRequestObject)
    : M VASPPairChannel unit :=
  reqs <- gets (fun ch => my_requests (persisted ch)) ;;
  lift_result (storable_index reqs request_seq) ;;;
  write (with_my_requests (<[Z.to_nat request_seq := request]>)).

(** [_handle_response] *)
Definition _handle_response_with (now : Z) (fuel : nat)
    (response : CommandResponseObject) : F bool :=
  match resp_seq response with
  | None =>
      (* [type(request_seq) is not int] *)
      total (assert_ (bool_decide (status response = failure)) ;;; ret false)
  | Some request_seq =>
      (* Check this is the next expected response *)
      n <~ total (gets my_next_seq) ;;
      if negb (request_seq <? Z.of_nat n)%Z then total (ret false)
      else if not_protocol_failure response then
        (* Optimization *)
        next_expected <~ total (gets (fun ch => next_retransmit (persisted ch))) ;;
        total (if (Z.of_nat next_expected =? request_seq)%Z
               then write (with_next_retransmit (next_expected + 1))
               else ret tt) ;;~
        (* Idenpotent: We have already processed the response *)
        reqs <~ total (gets (fun ch => my_requests (persisted ch))) ;;
        request <~ total (lift_result (storable_index reqs request_seq)) ;;
        if has_response request then total (ret true)
        else
          final <~ total (gets next_final_sequence) ;;
          match resp_command_seq response with
          | None =>
              total (throw TypeError "'<' not supported between 'NoneType' and 'int'")
          | Some command_seq =>
              if (command_seq =? Z.of_nat final)%Z then
                (* Next command to commit -- do commit it. *)
                let request := with_response request (Some response) in
                total (store_my_request request_seq request) ;;~
                total (try_except
                         (lift_executor
                            (sequence_next_command (req_command request) false true) ;;;
                          ret tt)
                         (fun _ => ret tt)) ;;~
                total (apply_response_to_executor request) ;;~
                process_pending_requests_response_with now fuel ;;~
                total (ret true)
              else if (command_seq <? Z.of_nat final)%Z then
                (* Request already in the sequence: happens to the server party. *)
                let request := with_response request (Some response) in
                total (store_my_request request_seq request) ;;~
                total (apply_response_to_executor request) ;;~
                process_pending_requests_response_with now fuel ;;~
                total (ret true)
              else if (Z.of_nat final <? command_seq)%Z then
                (* Store the response for later use. *)
                total (modify (with_response_cache (<[command_seq := response]>)) ;;;
                       ret true)
              else total (throw AssertionError "")
          end
      else
        (* Handle protocol failures. *)
        match error response with
        | None => total (throw AttributeError "'NoneType' object has no attribute 'code'")
        | Some err =>
            if bool_decide (code err = "missing") then total (ret false)
            else if bool_decide (code err = "wait") then total (ret false)
            else if bool_decide (code err = "malformed") then total (ret false)
            else if bool_decide (code err = "conflict") then total (ret false)
            else total (throw AssertionError "")
        end
  end.

End Recursive.

(** [handle_response]: each nested call spends one unit of fuel; [now]
    is the clock reading used when a request is buffered again. *)
Fixpoint handle_response (now : Z) (fuel : nat) (response : CommandResponseObject)
    : F bool :=
  match fuel with
  | O => out_of_fuel
  | S fuel' =>
      atomic_writes_F
        (_handle_response_with (handle_response now fuel') now fuel' response)
  end.

Definition _handle_response (now : Z) (fuel : nat) (response : CommandResponseObject)
    : F bool :=
  _handle_response_with (handle_response now fuel) now fuel response.

Definition process_waiting_messages (now : Z) (fuel : nat) : F unit :=
  process_waiting_messages_with (handle_response now fuel) now fuel.

Definition process_pending_requests_response (now : Z) (fuel : nat) : F unit :=
  process_pending_requests_response_with (handle_response now fuel) now fuel.

Definition parse_handle_response_to_future (now : Z) (fuel : nat)
    (json_response : Json) (encoded : bool) (fut : option nat) (nowait : bool) : F nat :=
  parse_handle_response_to_future_with (handle_response now fuel)
    json_response encoded fut nowait.

(** [parse_handle_response] *)
Definition parse_handle_response (now : Z) (fuel : nat) (json_response : Json)
    (encoded : bool) : F FutureValue :=
  fut <~ parse_handle_response_to_future now fuel json_response encoded None true ;;
  total (future_result fut).

End Handlers.

(** *** Parts and outcomes of the handlers *)

Section Parts.
Context `{CommandMethods}.

(** What [_handle_request] does with a request it sequences: the lines
    from [seq = self.next_final_sequence()] to the [return]. *)
Definition sequence_and_answer (request : CommandRequestObject)
    : M VASPPairChannel (option CommandResponseObject) :=
  sq <- gets next_final_sequence ;;
  response <-
    try_except
      (lift_executor (sequence_next_command (req_command request) false true) ;;;
       ret (make_success_response request))
      (fun e => match exn_ty e with
                | ExecutorException => ret (make_command_error request (exn_msg e))
                | _ => rethrow e
                end) ;;
  (* Write back to storage *)
  let response := with_command_seq response (Some (Z.of_nat sq)) in
  let request := with_response request (Some response) in
  write (with_other_requests (fun l => l ++ [request])) ;;;
  apply_response_to_executor request ;;;
  ret (Messages.response request).

End Parts.

(** *** The request in order, as the spec words it *)

Module SpecRequest.
Section SpecRequest.
Context `{CommandMethods}.

(** Modelled from the spec: the executor module that [protocol.py] imports
    ([from .executor import ProtocolExecutor, ExecutorException,
    CommandProcessor]) is not among the sources.  Its
    [sequence_next_command(cmd, is_local_speculation)] lets
    [liveness_required = potentially_live if is_local_speculation else
    actually_live], requires every version of [cmd.depend_on] to be in
    [object_store] with that flag set, validates the command, and then
    appends it and creates its objects as potentially live.  These are the
    steps of [sequence_next_command] in [executor.py], with its parameter
    [own] as [is_local_speculation]. *)
Definition sequence_next_command (cmd : ProtocolCommand)
    (is_local_speculation do_not_sequence_errors : bool) : M ProtocolExecutor nat :=
  Executor.sequence_next_command cmd do_not_sequence_errors is_local_speculation.

(** Modelled from the spec: the last row of the table of inbound requests.
    Try [executor.sequence_next_command(R.command, speculative=false,
    do_not_sequence_errors=false)]; on success build the success response
    with [command_seq = assigned_index]; on an executor error build the
    failure response that carries the error text; in both cases append to
    [other_requests], apply the outcome to the executor through
    [set_success] or [set_fail], and persist. *)
Definition sequence_and_answer (R : CommandRequestObject)
    : M VASPPairChannel (option CommandResponseObject) :=
  assigned_index <- gets next_final_sequence ;;
  response <-
    try_except
      (lift_executor (sequence_next_command (req_command R) false false) ;;;
       ret (make_success_response R))
      (fun e => match exn_ty e with
                | ExecutorException => ret (make_command_error R (exn_msg e))
                | _ => rethrow e
                end) ;;
  let response := with_command_seq response (Some (Z.of_nat assigned_index)) in
  let R := with_response R (Some response) in
  write (with_other_requests (fun l => l ++ [R])) ;;;
  apply_response_to_executor R ;;;
  ret (Messages.response R).

(** Modelled from the spec: the table of inbound requests, row by row,
    inside the storage transaction that the handler has opened.  A
    [command_seq] that is null is not greater than [executor.next_seq]. *)
Definition handle_request (R : CommandRequestObject)
    : M VASPPairChannel (option CommandResponseObject) :=
  client <- is_client ;;
  let server := negb client in
  known <- gets (fun ch => Z.of_nat (length (other_requests (persisted ch)))) ;;
  if (req_seq R <? known)%Z then
    reqs <- gets (fun ch => other_requests (persisted ch)) ;;
    stored <- lift_result (storable_index reqs (req_seq R)) ;;
    if is_same_command stored R
    then (* Re-send stored response *) ret (response stored)
    else ret (Some (with_previous_command (make_protocol_error R "conflict")
                      (req_command stored)))
  else if server && bool_decide (is_Some (req_command_seq R))
  then ret (Some (make_protocol_error R "malformed"))
  else
  pending <- gets num_pending_responses ;;
  if server && (0 <? pending)%nat
  then ret (Some (make_protocol_error R "wait"))
  else if (known <? req_seq R)%Z
  then ret (Some (make_protocol_error R "missing"))
  else
  next <- gets (fun ch => Z.of_nat (next_seq (executor ch))) ;;
  if client && match req_command_seq R with
               | Some n => (next <? n)%Z
               | None => false
               end
  then ret (Some (make_protocol_error R "wait"))
  else sequence_and_answer R.

End SpecRequest.
End SpecRequest.

(** The channel after [request] was appended to [other_requests]. *)
Definition recorded (request : CommandRequestObject) (ch : VASPPairChannel)
    : VASPPairChannel :=
  with_storage
    (fun st => {| db := update_rows (with_other_requests (fun l => l ++ [request])) (db st);
                  current_transaction := current_transaction st;
                  levels := levels st |}) ch.

(** The channel after a request was appended to [my_requests] in a
    transaction of its own. *)
Definition submitted (request : CommandRequestObject) (ch : VASPPairChannel)
    : VASPPairChannel :=
  with_storage
    (fun st => exit false
                 {| db := update_rows (with_my_requests (fun l => l ++ [request]))
                            (db (enter st));
                    current_transaction := current_transaction (enter st);
                    levels := levels (enter st) |}) ch.

(** Every stored request of the peer sits at the index that is its [seq]
    and carries a response. *)
Definition answered_in_order (l : list CommandRequestObject) : Prop :=
  ∀ i r, l !! i = Some r → req_seq r = Z.of_nat i ∧ has_response r = true.

(** A computation that never returns [False]. *)
Definition never_false (m : F bool) : Prop :=
  ∀ ch ch', m ch ≠ Some (Ok false, ch').

(** *** Comparing channel states *)

(** What a repeated response does to the cursor of retransmission: it
    steps over the answered request when it stands on it. *)
Definition advance_cursor (sq : nat) (p : Persist) : Persist :=
  if Nat.eqb (next_retransmit p) sq then with_next_retransmit (S sq) p else p.

(** [ch'] is [ch] but for the cursor of retransmission, advanced over [sq],
    and for the bookkeeping of the storage transaction. *)
Definition same_but_cursor (sq : nat) (ch ch' : VASPPairChannel) : Prop :=
  persisted ch' = advance_cursor sq (persisted ch)
  ∧ my_requests (persisted ch') = my_requests (persisted ch)
  ∧ other_requests (persisted ch') = other_requests (persisted ch)
  ∧ executor ch' = executor ch
  ∧ response_cache ch' = response_cache ch
  ∧ waiting_requests ch' = waiting_requests ch
  ∧ waiting_response ch' = waiting_response ch
  ∧ net_queue ch' = net_queue ch
  ∧ futures ch' = futures ch.

(** The channel after the cursor of retransmission stepped over [sq]. *)
Definition cursor_moved (sq : nat) (ch : VASPPairChannel) : VASPPairChannel :=
  with_storage
    (fun st => {| db := update_rows (advance_cursor sq) (db st);
                  current_transaction := current_transaction st;
                  levels := levels st |}) ch.

(** The channel after the response was attached to request [sq] and the
    cursor of retransmission stepped over it. *)
Definition answered (sq : nat) (request : CommandRequestObject) (ch : VASPPairChannel)
    : VASPPairChannel :=
  with_storage
    (fun st => {| db := update_rows
                          (fun p => with_my_requests (<[sq := request]>) (advance_cursor sq p))
                          (db st);
                  current_transaction := current_transaction st;
                  levels := levels st |}) ch.

End Protocol.

(** * Sample inputs

    Concrete commands, executors and channels on which the properties below
    are evaluated. *)

Module Samples.
Import Utils Executor Storage Address Messages Protocol.

Definition zeros16 : bytes := replicate 16 Byte.x00.

(** A command class that is not in the sources: it overrides
    [validity_checks] (every command is valid) and builds the object named
    by its own item; any other version goes to the inherited [get_object],
    which is abstract. *)
Definition OwnItemCommand_methods : CommandMethods := {|
  validity_checks := fun _ _ _ _ => Ok tt;
  get_object := fun c v deps =>
    if bool_decide (v = item (command c)) then Ok (command c)
    else @get_object ProtocolCommand_methods c v deps;
  on_success := fun _ => Ok tt;
  on_fail := fun _ => Ok tt;
  command_eq := fun a b => bool_decide (a = b)
|}.

(** A command of that class that declares two new versions. *)
Definition two_versions : ProtocolCommand :=
  {| depend_on := []; creates := ["a"; "b"]; commit_status := None;
     origin := None; command := SampleObject_init "a" zeros16;
     always_happy := true |}.

(** The sample commands of the tests: [SampleCommand('hello')] and
    [SampleCommand('world', deps=['hello'])]. *)
Definition sample_methods : CommandMethods := SampleCommand_methods false.

Definition hello : ProtocolCommand := SampleCommand_init "hello" None zeros16.

Definition world : ProtocolCommand :=
  SampleCommand_init "world" (Some ["hello"]) zeros16.

(** An executor that was told to sequence [world] while nothing provides
    [hello]: the command is sequenced as an error. *)
Definition world_alone : ProtocolExecutor :=
  (@sequence_next_command sample_methods world false true ProtocolExecutor_init).2.

(** An executor that sequenced and confirmed [hello], then sequenced
    [world]. *)
Definition hello_then_world : ProtocolExecutor :=
  let ex1 := (@sequence_next_command sample_methods hello false true
                ProtocolExecutor_init).2 in
  let ex2 := (@set_success sample_methods 0 ex1).2 in
  (@sequence_next_command sample_methods world false true ex2).2.

(** An empty store and the two channels of one pair of addresses: the last
    bits differ and [AAAA] is the smaller address, so [AAAA] is the client
    and [AAAB] the server. *)
Definition empty_storage : StorableFactory Persist :=
  StorableFactory_init
    {| can_write := false;
       committed := {| my_requests := []; other_requests := []; next_retransmit := 0 |};
       current := {| my_requests := []; other_requests := []; next_retransmit := 0 |} |}.

Definition client_channel : VASPPairChannel :=
  initial_attributes "AAAA" "AAAB" empty_storage.

Definition server_channel : VASPPairChannel :=
  initial_attributes "AAAB" "AAAA" empty_storage.

(** The client after it submitted [hello]: one request, not yet answered. *)
Definition client_waiting : VASPPairChannel :=
  (@sequence_command_local sample_methods hello client_channel).2.

(** Two requests of the server, as the client receives them. *)
Definition request0 : CommandRequestObject :=
  CommandRequestObject_init hello 0 (Some 0%Z).

Definition request1 : CommandRequestObject :=
  CommandRequestObject_init world 1 (Some 1%Z).

(** The client received [request1] first and buffered it ... *)
Definition client_buffering : VASPPairChannel :=
  (@parse_handle_request_to_future sample_methods
     (JsonRequest request1) false None false 0 client_channel).2.

(** ... and then handled [request0], so that the buffered request is the
    next one in order. *)
Definition client_gap_filled : VASPPairChannel :=
  (@handle_request sample_methods request0 client_buffering).2.

(** The client submitted [hello] and [again]; the server answered the
    second request first, giving it position 0 of the common sequence, and
    the first request next, with position 1. *)
Definition again : ProtocolCommand := SampleCommand_init "again" None zeros16.

Definition client_two_waiting : VASPPairChannel :=
  (@sequence_command_local sample_methods again client_waiting).2.

Definition answer (sq command_seq : Z) : CommandResponseObject :=
  {| resp_seq := Some sq; resp_command_seq := Some command_seq; status := success;
     error := None; previous_command := None |}.

Definition after_response (fuel : nat) (response : CommandResponseObject)
    (ch : VASPPairChannel) : VASPPairChannel :=
  match @handle_response sample_methods 0 fuel response ch with
  | Some (_, ch') => ch'
  | None => ch
  end.

Definition client_answered_out_of_order : VASPPairChannel :=
  after_response 3 (answer 0 1) (after_response 3 (answer 1 0) client_two_waiting).



(** The server buffered an answer that names position 1 and then
    submitted [hello]: position 1 is now the next one, while no command is
    confirmed yet. *)
Definition server_spinning : VASPPairChannel :=
  let buffered :=
    match @parse_handle_response_to_future sample_methods 0 1
            (JsonResponse (answer 0 1)) false None false server_channel with
    | Some (_, ch) => ch
    | None => server_channel
    end in
  (@sequence_command_local sample_methods hello buffered).2.

(** The answer [wait] to the first request of the client. *)
Definition wait_answer : CommandResponseObject :=
  make_protocol_error (CommandRequestObject_init (set_origin hello "AAAA") 0 None) "wait".

End Samples.

(** Sample inputs for the checked structures: values that are integers or
    strings, and a structure of three fields. *)
Module StructureSamples.
Import Structure.

Inductive PyVal := PyInt (z : Z) | PyStr (s : string).
Inductive PyType := py_int | py_str.

#[global] Instance PyVal_eq_dec : EqDecision PyVal.
Proof. solve_decision. Defined.

#[global] Instance sample_values : PyValues := {|
  value := PyVal;
  ftype := PyType;
  isinstance := fun v t =>
    match v, t with
    | PyInt _, py_int | PyStr _, py_str => true
    | _, _ => false
    end;
  ne := fun a b => negb (bool_decide (a = b))
|}.

Definition sample_fields : list Field :=
  [ mkField "sender" py_str REQUIRED WRITE_ONCE;
    mkField "amount" py_int REQUIRED UPDATABLE;
    mkField "memo" py_str OPTIONAL UPDATABLE ].

(** A fresh instance, and the one that alice's first diff gives. *)
Definition fresh_structure : StructureChecker :=
  {| data := ∅; update_record := [] |}.

Definition first_diff : Diff := [("sender", PyStr "alice"); ("amount", PyInt 10)].

Definition alice_structure : StructureChecker :=
  (update sample_fields no_custom_checks first_diff fresh_structure).2.

End StructureSamples.

(** * Properties *)

Import Utils Executor Storage Address Messages Protocol Samples.

(** ** Version identifiers *)

Lemma hex_digit_is_hex (n : N) : is_hex_digit (hex_digit n) = true.
Proof.
  destruct n as [|p]; [reflexivity|].
  do 4 (destruct p as [p|p|]; try reflexivity).
Qed.

Lemma hex_length (bs : bytes) : String.length (hex bs) = 2 * length bs.
Proof.
  induction bs as [|b r IH]; [reflexivity|].
  cbn [hex String.length length]. rewrite IH. lia.
Qed.

Lemma hex_is_hex (bs : bytes) : is_hex_string (hex bs) = true.
Proof.
  unfold is_hex_string.
  induction bs as [|b r IH]; [reflexivity|].
  cbn [hex String.list_ascii_of_string forallb].
  rewrite !hex_digit_is_hex. exact IH.
Qed.

Lemma b64_char_is_b64 (n : N) : is_b64_char (b64_char n) = true.
Proof.
  unfold b64_char.
  generalize (N.to_nat n) as k. intros k.
  do 64 (destruct k as [|k]; [reflexivity|]).
  reflexivity.
Qed.

Lemma forallb_false_at {A} (f : A → bool) (l : list A) (k : nat) (x : A) :
  l !! k = Some x → f x = false → forallb f l = false.
Proof.
  revert k. induction l as [|y l IH]; intros k Hk Hx; [discriminate|].
  destruct k as [|k]; cbn in Hk.
  - injection Hk as ->. cbn. now rewrite Hx.
  - cbn. rewrite (IH k Hk Hx). apply andb_false_r.
Qed.

Lemma sixteen_bytes (bs : bytes) :
  length bs = 16 →
  ∃ b0 b1 b2 b3 b4 b5 b6 b7 b8 b9 b10 b11 b12 b13 b14 b15,
    bs = [b0; b1; b2; b3; b4; b5; b6; b7; b8; b9; b10; b11; b12; b13; b14; b15].
Proof.
  intros Hlen.
  do 16 (destruct bs as [|? bs]; [discriminate Hlen|]).
  destruct bs; [|discriminate Hlen].
  repeat eexists.
Qed.

(** The executor's unique string on sixteen bytes: 24 characters of the
    base64 alphabet, the last two being padding. *)
Lemma b64_unique_string_shape (urandom16 : bytes) :
  length urandom16 = 16 →
  let v := Executor.get_unique_string urandom16 in
  String.length v = 24
  ∧ forallb is_b64_char (String.list_ascii_of_string v) = true
  ∧ String.substring 22 2 v = "=="
  ∧ is_hex_string v = false.
Proof.
  intros Hlen.
  destruct (sixteen_bytes _ Hlen)
    as (b0&b1&b2&b3&b4&b5&b6&b7&b8&b9&b10&b11&b12&b13&b14&b15&->).
  cbv zeta. unfold Executor.get_unique_string.
  cbn [standard_b64encode].
  repeat split.
  - cbn [String.list_ascii_of_string forallb].
    rewrite !b64_char_is_b64. reflexivity.
  - unfold is_hex_string.
    eapply (forallb_false_at _ _ 22); reflexivity.
Qed.

(** C8, as stated, fails: a shared object built from sixteen zero bytes has
    the version [AAAAAAAAAAAAAAAAAAAAAA==], which has 24 characters and is
    not hexadecimal; the same holds for a revision made by [new_version]
    without an explicit version. *)
Lemma shared_object_version_not_hex :
  let o := SharedObject_init (replicate 16 Byte.x00) in
  let o' := new_version o None (replicate 16 Byte.x00) in
  version o = "AAAAAAAAAAAAAAAAAAAAAA=="
  ∧ version o' = "AAAAAAAAAAAAAAAAAAAAAA=="
  ∧ ¬ (String.length (version o) = 32 ∧ is_hex_string (version o) = true)
  ∧ ¬ (String.length (version o') = 32 ∧ is_hex_string (version o') = true).
Proof.
  cbv zeta. repeat split; try reflexivity; intros [Hlen _]; discriminate Hlen.
Qed.

(** C8 (amended): the version of every newly constructed [SharedObject],
    and of every revision made by [new_version] without an explicit
    version, is the standard base64 rendering of 16 random bytes: 24
    characters of the base64 alphabet ending in the padding [==], hence not
    a hexadecimal string; a revision records the version it extends and is
    born with both liveness flags false.  It is [utils.get_unique_string]
    that renders 16 random bytes as 32 hexadecimal characters. *)
Theorem shared_object_version_base64 (urandom16 : bytes) (self : SharedObject) :
  length urandom16 = 16 →
  let fresh := SharedObject_init urandom16 in
  let revision := new_version self None urandom16 in
  version fresh = standard_b64encode urandom16
  ∧ version revision = standard_b64encode urandom16
  ∧ String.length (version fresh) = 24
  ∧ forallb is_b64_char (String.list_ascii_of_string (version fresh)) = true
  ∧ String.substring 22 2 (version fresh) = "=="
  ∧ is_hex_string (version fresh) = false
  ∧ extends revision = [version self]
  ∧ potentially_live revision = false ∧ actually_live revision = false
  ∧ potentially_live fresh = false ∧ actually_live fresh = false
  ∧ String.length (Utils.get_unique_string urandom16) = 32
  ∧ is_hex_string (Utils.get_unique_string urandom16) = true.
Proof.
  intros Hlen. cbv zeta.
  destruct (b64_unique_string_shape urandom16 Hlen) as (H24 & Hb64 & Hpad & Hnot).
  repeat split; try assumption; try reflexivity.
  - unfold Utils.get_unique_string. rewrite hex_length, Hlen. reflexivity.
  - apply hex_is_hex.
Qed.

Lemma shared_object_version_base64_witness :
  let urandom16 :=
    [Byte.x14; Byte.xfb; Byte.x9c; Byte.x03; Byte.xd9; Byte.x7e; Byte.x00; Byte.xff;
     Byte.x10; Byte.x20; Byte.x30; Byte.x40; Byte.x50; Byte.x60; Byte.x70; Byte.x80] in
  length urandom16 = 16
  ∧ version (SharedObject_init urandom16) = "FPucA9l+AP8QIDBAUGBwgA=="
  ∧ Utils.get_unique_string urandom16 = "14fb9c03d97e00ff1020304050607080".
Proof.
  cbv zeta.
  split; [reflexivity|].
  pose proof (shared_object_version_base64
    [Byte.x14; Byte.xfb; Byte.x9c; Byte.x03; Byte.xd9; Byte.x7e; Byte.x00; Byte.xff;
     Byte.x10; Byte.x20; Byte.x30; Byte.x40; Byte.x50; Byte.x60; Byte.x70; Byte.x80]
    (SharedObject_init []) eq_refl) as Hthm.
  cbv zeta in Hthm.
  destruct Hthm as (Hv & _).
  split; [rewrite Hv; reflexivity | reflexivity].
Defined.

(** ** Storage keys *)

#[local] Arguments String.append !_ _ / : simpl nomatch.

Lemma string_app_assoc (s1 s2 s3 : string) :
  (s1 +:+ s2) +:+ s3 = s1 +:+ (s2 +:+ s3).
Proof.
  induction s1 as [|c s1 IH]; [reflexivity|].
  cbn. now rewrite IH.
Qed.

(** Two strings of the same length that start equal appended texts are equal. *)
Lemma string_app_same_length (s1 s2 t1 t2 : string) :
  String.length s1 = String.length s2 →
  s1 +:+ t1 = s2 +:+ t2 → s1 = s2 ∧ t1 = t2.
Proof.
  revert s2. induction s1 as [|c s1 IH]; intros [|d s2] Hlen Heq;
    try discriminate Hlen.
  - split; [reflexivity | exact Heq].
  - cbn in Hlen, Heq. injection Heq as -> Heq. injection Hlen as Hlen.
    destruct (IH s2 Hlen Heq) as [-> ->]. split; reflexivity.
Qed.

Fixpoint colon_free (s : string) : Prop :=
  match s with
  | EmptyString => True
  | String c r => c ≠ ":"%char ∧ colon_free r
  end.

Lemma decimal_colon_free (d : Decimal.uint) :
  colon_free (DecimalString.NilEmpty.string_of_uint d).
Proof.
  induction d; cbn; (split; [discriminate | assumption]) || exact I.
Qed.

(** The first colon of a text splits it in one way only. *)
Lemma split_at_first_colon (u v x y : string) :
  colon_free u → colon_free v →
  u +:+ String ":" x = v +:+ String ":" y → u = v ∧ x = y.
Proof.
  revert v. induction u as [|c u IH]; intros [|d v] Hu Hv Heq; cbn in *.
  - injection Heq as ->. split; reflexivity.
  - injection Heq as Hc _. destruct Hv as [Hd _]. congruence.
  - injection Heq as Hc _. destruct Hu as [Hc' _]. congruence.
  - injection Heq as -> Heq.
    destruct Hu as [_ Hu], Hv as [_ Hv].
    destruct (IH v Hu Hv Heq) as [-> ->]. split; reflexivity.
Qed.

Lemma string_of_uint_inj (d d' : Decimal.uint) :
  DecimalString.NilEmpty.string_of_uint d = DecimalString.NilEmpty.string_of_uint d' →
  d = d'.
Proof.
  intros Heq.
  pose proof (DecimalString.NilEmpty.usu d) as Hd.
  rewrite Heq, DecimalString.NilEmpty.usu in Hd. congruence.
Qed.

Lemma str_of_nat_inj (n m : nat) : str_of_nat n = str_of_nat m → n = m.
Proof.
  unfold str_of_nat. intros Heq.
  apply DecimalNat.Unsigned.to_uint_inj, string_of_uint_inj, Heq.
Qed.

(** A key part can be read back off the front of any text it starts. *)
Lemma key_part_prefix (s1 s2 r1 r2 : string) :
  key_part s1 +:+ r1 = key_part s2 +:+ r2 → s1 = s2 ∧ r1 = r2.
Proof.
  unfold key_part. intros Heq.
  rewrite !string_app_assoc in Heq. cbn [String.append] in Heq.
  injection Heq as Heq.
  apply split_at_first_colon in Heq; try apply decimal_colon_free.
  destruct Heq as [Hlen Heq].
  apply str_of_nat_inj in Hlen.
  destruct (string_app_same_length _ _ _ _ Hlen Heq) as [-> Hrest].
  injection Hrest as ->. split; reflexivity.
Qed.

(** [key_join] of a non-empty list, one part at a time. *)
Lemma key_join_cons (s : string) (strs : list string) :
  key_join (s :: strs) =
  key_part s +:+ match strs with
                 | [] => ""
                 | _ :: _ => "||" +:+ key_join strs
                 end.
Proof.
  unfold key_join. destruct strs as [|t strs]; cbn [map String.concat].
  - induction (key_part s) as [|c k IH]; [reflexivity|]. cbn. now rewrite <- IH.
  - reflexivity.
Qed.

Lemma key_join_inj (strs1 strs2 : list string) :
  key_join strs1 = key_join strs2 → strs1 = strs2.
Proof.
  revert strs2. induction strs1 as [|s1 l1 IH]; intros [|s2 l2] Heq.
  - reflexivity.
  - rewrite key_join_cons in Heq. discriminate Heq.
  - rewrite key_join_cons in Heq. discriminate Heq.
  - rewrite !key_join_cons in Heq.
    apply key_part_prefix in Heq. destruct Heq as [-> Hrest].
    destruct l1 as [|t1 l1], l2 as [|t2 l2]; try discriminate Hrest.
    + reflexivity.
    + cbn [String.append] in Hrest. injection Hrest as Hrest.
      f_equal. apply IH. exact Hrest.
Qed.

(** C7: [key_join] is injective on lists of strings, whatever characters
    the strings hold, so two storables with different base keys hash
    different joined keys: if their namespaces are equal all the same,
    SHA-256 has given one digest to two different texts. *)
Theorem key_join_injective `{HashLib} (strs1 strs2 : list string) :
  strs1 ≠ strs2 →
  key_join strs1 ≠ key_join strs2
  ∧ ∀ a b : Storable,
      base_key a = strs1 → base_key b = strs2 →
      key_join (base_key a) ≠ key_join (base_key b)
      ∧ (ns a = ns b →
         ∃ x y, x = key_join strs1 ∧ y = key_join strs2
                ∧ x ≠ y ∧ sha256_hex x = sha256_hex y).
Proof.
  intros Hne.
  assert (Hjoin : key_join strs1 ≠ key_join strs2).
  { intros Heq. apply Hne, key_join_inj, Heq. }
  split; [exact Hjoin|].
  intros a b <- <-. split; [exact Hjoin|].
  intros Hns. exists (key_join (base_key a)), (key_join (base_key b)).
  repeat split; assumption.
Qed.

(** Texts that contain the delimiters themselves: one name [a||b] under
    the root against the two names [a] and [b]. *)
Lemma key_join_injective_witness :
  [""; "a||b"] ≠ [""; "a"; "b"]
  ∧ key_join [""; "a||b"] = "[0:]||[4:a||b]"
  ∧ key_join [""; "a"; "b"] = "[0:]||[1:a]||[1:b]"
  ∧ key_join [""; "a||b"] ≠ key_join [""; "a"; "b"].
Proof.
  split; [discriminate|].
  split; [reflexivity|]. split; [reflexivity|].
  exact (proj1 (@key_join_injective {| sha256_hex := fun s => s |}
                  [""; "a||b"] [""; "a"; "b"] ltac:(discriminate))).
Defined.

(** ** Roles *)

Lemma last_bit_binary (a : LibraAddress) : last_bit a = 0%Z ∨ last_bit a = 1%Z.
Proof.
  unfold last_bit. destruct (last_byte a) as [[[] ? ? ? ? ? ? ?]|]; auto.
Qed.

Lemma role_bit_binary (a b : LibraAddress) :
  Z.lxor (last_bit a) (last_bit b) = 0%Z ∨ Z.lxor (last_bit a) (last_bit b) = 1%Z.
Proof.
  destruct (last_bit_binary a) as [-> | ->], (last_bit_binary b) as [-> | ->]; auto.
Qed.

Lemma role_bit_sym (a b : LibraAddress) :
  Z.lxor (last_bit a) (last_bit b) = Z.lxor (last_bit b) (last_bit a).
Proof. apply Z.lxor_comm. Qed.

(** Of two different addresses exactly one is greater than or equal to
    the other. *)
Lemma greater_than_or_equal_flip (a b : LibraAddress) :
  a ≠ b → greater_than_or_equal b a = negb (greater_than_or_equal a b).
Proof.
  intros Hne. unfold greater_than_or_equal.
  rewrite (String.compare_antisym b a).
  destruct (String.compare a b) eqn:Hcmp; try reflexivity.
  apply String.compare_eq_iff in Hcmp. contradiction.
Qed.

(** C2: for two different addresses the role is computed without failure
    and is the one the rule gives: with [b] the exclusive or of the last
    bits, self is client exactly when [b = 0] and [A >= B], or [b = 1] and
    [A < B]; the peer computes the opposite role, so exactly one side is
    client; and a channel from an address to itself is refused with an
    exception. *)
Theorem role_antisymmetric (A B : LibraAddress) :
  A ≠ B →
  let b := Z.lxor (last_bit A) (last_bit B) in
  (∃ c : bool,
     client_of A B = Ok c
     ∧ client_of B A = Ok (negb c)
     ∧ (c = true ↔
        (b = 0%Z ∧ String.compare A B ≠ Lt) ∨ (b = 1%Z ∧ String.compare A B = Lt)))
  ∧ (∀ ch : VASPPairChannel, myself ch = A → other ch = B →
       ∃ c, is_client ch = (Ok c, ch) ∧ is_server ch = (Ok (negb c), ch))
  ∧ (∀ st, raises (VASPPairChannel_init A A st) Exception_)
  ∧ (∀ st, is_ok (VASPPairChannel_init A B st) = true).
Proof.
  intros Hne b.
  assert (Hrole : ∃ c : bool,
     client_of A B = Ok c ∧ client_of B A = Ok (negb c)
     ∧ (c = true ↔
        (b = 0%Z ∧ String.compare A B ≠ Lt) ∨ (b = 1%Z ∧ String.compare A B = Lt))).
  { unfold client_of. rewrite (role_bit_sym B A). fold b.
    rewrite (greater_than_or_equal_flip A B Hne).
    unfold greater_than_or_equal.
    destruct (role_bit_binary A B) as [Hb | Hb]; fold b in Hb; rewrite Hb; cbn.
    - eexists. split; [reflexivity|]. split; [reflexivity|].
      destruct (String.compare A B); intuition (discriminate || congruence).
    - eexists. split; [reflexivity|]. split; [now rewrite negb_involutive|].
      destruct (String.compare A B); intuition (discriminate || congruence). }
  split; [exact Hrole|].
  split.
  { intros ch <- <-. destruct Hrole as (c & Hc & _).
    exists c. unfold is_server, is_client, bind, ret. rewrite Hc. split; reflexivity. }
  split.
  - intros st. unfold VASPPairChannel_init.
    rewrite bool_decide_eq_true_2; [reflexivity | reflexivity].
  - intros st. unfold VASPPairChannel_init, as_str.
    rewrite bool_decide_eq_false_2; [reflexivity | exact Hne].
Qed.

(** Two addresses whose last bits differ: the smaller one is the client. *)
Lemma role_antisymmetric_witness :
  "AAAA" ≠ "AAAB"
  ∧ client_of "AAAA" "AAAB" = Ok true
  ∧ client_of "AAAB" "AAAA" = Ok false.
Proof.
  split; [discriminate|].
  destruct (role_antisymmetric "AAAA" "AAAB" ltac:(discriminate))
    as [(c & Hab & Hba & _) _].
  split; [reflexivity | reflexivity].
Defined.

(** ** The executor *)

Section ExecutorFacts.
Context `{CommandMethods}.

Lemma all_true_spec (store : gmap string SharedObject) (versions : list string)
    (predicate : SharedObject → bool) :
  all_true store versions predicate = true ↔
  ∀ v, v ∈ versions → ∃ obj, store !! v = Some obj ∧ predicate obj = true.
Proof.
  induction versions as [|v vs IH]; cbn.
  - split; [intros _ v Hv; inversion Hv | reflexivity].
  - destruct (store !! v) as [obj|] eqn:Hv.
    + destruct (predicate obj) eqn:Hp.
      * rewrite IH. split.
        -- intros Hall w Hw. apply elem_of_cons in Hw as [-> | Hw]; eauto.
        -- intros Hall w Hw. apply Hall. now right.
      * split; [discriminate|]. intros Hall.
        destruct (Hall v) as (o & Ho & Hpo); [now left|]. congruence.
    + split; [discriminate|]. intros Hall.
      destruct (Hall v) as (o & Ho & _); [now left|]. congruence.
Qed.

(** The creation loop touches the object store only. *)
Lemma create_objects_frame (cmd : ProtocolCommand) (versions : list string)
    (ex : ProtocolExecutor) :
  let ex' := (create_objects cmd versions ex).2 in
  seq ex' = seq ex ∧ last_confirmed ex' = last_confirmed ex
  ∧ context ex' = context ex ∧ hooks ex' = hooks ex.
Proof.
  revert ex. induction versions as [|v vs IH]; intros ex; cbn.
  - auto.
  - unfold bind, gets, lift_result, modify.
    destruct (get_object cmd v (object_store ex)) as [obj|e]; cbn; [|auto].
    exact (IH (with_store <[v:=set_potentially_live obj true]> ex)).
Qed.

(** An object that is potentially live stays so through the creation loop. *)
Lemma create_objects_keeps_live (cmd : ProtocolCommand) (versions : list string)
    (ex : ProtocolExecutor) (v : string) :
  (∃ obj, object_store ex !! v = Some obj ∧ potentially_live obj = true) →
  ∃ obj, object_store (create_objects cmd versions ex).2 !! v = Some obj
         ∧ potentially_live obj = true.
Proof.
  revert ex. induction versions as [|w vs IH]; intros ex Hlive; cbn.
  - exact Hlive.
  - unfold bind, gets, lift_result, modify.
    destruct (get_object cmd w (object_store ex)) as [obj|e]; cbn; [|exact Hlive].
    apply IH. cbn.
    destruct (decide (w = v)) as [->|Hne].
    + rewrite lookup_insert_eq. eauto.
    + rewrite lookup_insert_ne by exact Hne. exact Hlive.
Qed.

(** When the creation loop completes, every version it was given is in the
    store and potentially live. *)
Lemma create_objects_ok (cmd : ProtocolCommand) (versions : list string)
    (ex : ProtocolExecutor) :
  is_ok (create_objects cmd versions ex).1 = true →
  ∀ v, v ∈ versions →
    ∃ obj, object_store (create_objects cmd versions ex).2 !! v = Some obj
           ∧ potentially_live obj = true.
Proof.
  revert ex. induction versions as [|w vs IH]; intros ex Hok v Hv.
  - inversion Hv.
  - cbn in *. unfold bind, gets, lift_result, modify in *.
    destruct (get_object cmd w (object_store ex)) as [obj|e]; cbn in *;
      [|discriminate].
    apply elem_of_cons in Hv as [-> | Hv].
    + apply create_objects_keeps_live. cbn. rewrite lookup_insert_eq. eauto.
    + apply IH; assumption.
Qed.

(** The three ways the [try] block of [sequence_next_command] can go. *)
Lemma sequence_try_cases (cmd : ProtocolCommand) (own : bool) (ex : ProtocolExecutor) :
  let predicate := if own then get_potentially_live else get_actually_live in
  sequence_try cmd own ex =
  if all_true (object_store ex) (get_dependencies cmd) predicate
  then match validity_checks cmd (context ex) (object_store ex) own with
       | Ok _ => create_objects cmd (new_object_versions cmd) ex
       | Raise e => (Raise e, ex)
       end
  else (Raise (mkExn ExecutorException "Required objects do not exist"), ex).
Proof.
  unfold sequence_try, bind, gets, lift_result, throw, ret. cbn.
  destruct own; cbn;
    destruct (all_true _ _ _); cbn; try reflexivity;
    destruct (validity_checks _ _ _ _); reflexivity.
Qed.

End ExecutorFacts.

(** C3, as stated, fails: a valid command without dependencies whose
    second object cannot be built is rejected, and the object store keeps
    the first object. *)
Lemma sequence_next_command_partial_store :
  let ex := ProtocolExecutor_init in
  let r := @sequence_next_command OwnItemCommand_methods two_versions true true ex in
  all_true (object_store ex) (get_dependencies two_versions) get_potentially_live = true
  ∧ @validity_checks OwnItemCommand_methods two_versions (context ex) (object_store ex) true
    = Ok tt
  ∧ raises r.1 ExecutorException
  ∧ seq r.2 = seq ex
  ∧ object_store r.2 !! "a" = Some (set_potentially_live (command two_versions) true)
  ∧ object_store r.2 ≠ object_store ex.
Proof.
  cbv zeta. repeat split.
  intros Heq.
  assert (Ha : object_store
                 (@sequence_next_command OwnItemCommand_methods two_versions true true
                    ProtocolExecutor_init).2 !! "a" = None).
  { rewrite Heq. reflexivity. }
  discriminate Ha.
Qed.

(** C3 (amended): with [do_not_sequence_errors] set, [sequence_next_command]
    either succeeds, and then it has appended the command, returned its
    position and put every created version into the store as potentially
    live, or raises an [ExecutorException] and leaves the command sequence
    as it was.  It succeeds exactly when every dependency is in the store
    and passes the liveness predicate, the validity check does not raise,
    and [get_object] raises for none of the created versions.  When the
    dependency check or the validity check is what fails, the whole executor,
    the object store included, is left as it was. *)
Theorem sequence_next_command_do_not_sequence_errors `{CommandMethods}
    (ex : ProtocolExecutor) (cmd : ProtocolCommand) (own : bool) :
  let predicate := if own then get_potentially_live else get_actually_live in
  let dependencies_met :=
    ∀ v, v ∈ depend_on cmd →
         ∃ obj, object_store ex !! v = Some obj ∧ predicate obj = true in
  let valid := is_ok (validity_checks cmd (context ex) (object_store ex) own) = true in
  let built := is_ok (create_objects cmd (new_object_versions cmd) ex).1 = true in
  match sequence_next_command cmd true own ex with
  | (Ok pos, ex') =>
      dependencies_met ∧ valid ∧ built
      ∧ pos = length (seq ex)
      ∧ seq ex' = seq ex ++ [cmd]
      ∧ last_confirmed ex' = last_confirmed ex
      ∧ ∀ v, v ∈ creates cmd →
             ∃ obj, object_store ex' !! v = Some obj ∧ potentially_live obj = true
  | (Raise e, ex') =>
      exn_ty e = ExecutorException
      ∧ seq ex' = seq ex
      ∧ ¬ (dependencies_met ∧ valid ∧ built)
      ∧ (¬ (dependencies_met ∧ valid) → ex' = ex)
  end.
Proof.
  cbv zeta.
  assert (Hdeps : all_true (object_store ex) (get_dependencies cmd)
                    (if own then get_potentially_live else get_actually_live) = true
                  ↔ ∀ v, v ∈ depend_on cmd →
                      ∃ obj, object_store ex !! v = Some obj
                             ∧ (if own then get_potentially_live else get_actually_live) obj
                               = true).
  { rewrite all_true_spec. unfold get_dependencies.
    split; intros Hall v Hv; apply Hall.
    - rewrite elem_of_remove_dups. exact Hv.
    - rewrite elem_of_remove_dups in Hv. exact Hv. }
  unfold sequence_next_command. rewrite sequence_try_cases.
  destruct (all_true _ _ _) eqn:Hall.
  - destruct (validity_checks cmd (context ex) (object_store ex) own) as [[]|e] eqn:Hvalid.
    + pose proof (create_objects_frame cmd (new_object_versions cmd) ex) as Hframe.
      pose proof (create_objects_ok cmd (new_object_versions cmd) ex) as Hlive.
      destruct (create_objects cmd (new_object_versions cmd) ex) as [[[]|e] ex1];
        cbn in Hframe, Hlive |- *; destruct Hframe as (Hseq & Hlc & _).
      * rewrite Hseq. repeat split; try assumption; try reflexivity.
        -- now apply Hdeps.
        -- intros v Hv. apply Hlive; [reflexivity|].
           unfold new_object_versions. rewrite elem_of_remove_dups. exact Hv.
      * repeat split; try assumption.
        -- intros (_ & _ & Hbuilt). discriminate Hbuilt.
        -- intros Hnot. exfalso. apply Hnot. split; [now apply Hdeps | reflexivity].
    + cbn. repeat split.
      * intros (_ & Hv & _). discriminate Hv.
  - cbn. repeat split.
    intros (Hd & _). apply Hdeps in Hd. congruence.
Qed.

Section CommitFacts.
Context `{CommandMethods}.

(** Consuming versions that are all in the store removes exactly them. *)
Lemma consume_objects_ok (versions : list string) (ex : ProtocolExecutor) :
  NoDup versions →
  (∀ v, v ∈ versions → is_Some (object_store ex !! v)) →
  ∃ ex', consume_objects versions ex = (Ok tt, ex')
         ∧ seq ex' = seq ex ∧ last_confirmed ex' = last_confirmed ex
         ∧ context ex' = context ex ∧ hooks ex' = hooks ex
         ∧ ∀ k, object_store ex' !! k =
                if decide (k ∈ versions) then None else object_store ex !! k.
Proof.
  revert ex. induction versions as [|v vs IH]; intros ex Hnd Hin.
  - exists ex. do 5 (split; [reflexivity|]).
    intros k. destruct (decide (k ∈ [])) as [Hk|]; [inversion Hk | reflexivity].
  - apply NoDup_cons in Hnd as [Hv Hnd].
    destruct (Hin v) as [obj Hobj]; [now left|].
    cbn. unfold bind, gets, modify. rewrite Hobj. cbn.
    destruct (IH (with_store (delete v) ex) Hnd) as (ex' & Hrun & Hs & Hl & Hc & Hh & Hst).
    { intros w Hw. cbn. rewrite lookup_delete_ne; [apply Hin; now right|].
      intros ->. contradiction. }
    exists ex'. rewrite Hrun. repeat split; try assumption.
    intros k. rewrite Hst. cbn.
    destruct (decide (k ∈ vs)) as [Hk|Hk].
    + rewrite decide_True; [reflexivity | now right].
    + destruct (decide (k = v)) as [->|Hne].
      * rewrite decide_True by now left. apply lookup_delete_eq.
      * rewrite decide_False; [now apply lookup_delete_ne|].
        intros Hk'. apply elem_of_cons in Hk' as [? | ?]; contradiction.
Qed.

(** Committing versions that are all in the store sets their flag and
    nothing else. *)
Lemma commit_objects_ok (versions : list string) (ex : ProtocolExecutor) :
  NoDup versions →
  (∀ v, v ∈ versions → is_Some (object_store ex !! v)) →
  ∃ ex', commit_objects versions ex = (Ok tt, ex')
         ∧ seq ex' = seq ex ∧ last_confirmed ex' = last_confirmed ex
         ∧ context ex' = context ex ∧ hooks ex' = hooks ex
         ∧ ∀ k, object_store ex' !! k =
                if decide (k ∈ versions)
                then (fun obj => set_actually_live obj true) <$> object_store ex !! k
                else object_store ex !! k.
Proof.
  revert ex. induction versions as [|v vs IH]; intros ex Hnd Hin.
  - exists ex. do 5 (split; [reflexivity|]).
    intros k. destruct (decide (k ∈ [])) as [Hk|]; [inversion Hk | reflexivity].
  - apply NoDup_cons in Hnd as [Hv Hnd].
    destruct (Hin v) as [obj Hobj]; [now left|].
    cbn. unfold bind, gets, modify. rewrite Hobj. cbn.
    destruct (IH (with_store (<[v := set_actually_live obj true]>) ex) Hnd)
      as (ex' & Hrun & Hs & Hl & Hc & Hh & Hst).
    { intros w Hw. cbn. rewrite lookup_insert_ne; [apply Hin; now right|].
      intros ->. contradiction. }
    exists ex'. rewrite Hrun. repeat split; try assumption.
    intros k. rewrite Hst. cbn.
    destruct (decide (k ∈ vs)) as [Hk|Hk].
    + rewrite decide_True by now right.
      rewrite lookup_insert_ne; [reflexivity|]. intros ->. contradiction.
    + destruct (decide (k = v)) as [->|Hne].
      * rewrite decide_True by now left. rewrite lookup_insert_eq, Hobj. reflexivity.
      * rewrite decide_False; [now apply lookup_insert_ne|].
        intros Hk'. apply elem_of_cons in Hk' as [? | ?]; contradiction.
Qed.

Lemma py_position_in_range {A} (l : list A) (i : nat) :
  i < length l → py_position l (Z.of_nat i) = Some i.
Proof.
  intros Hi. unfold py_position.
  replace ((0 <=? Z.of_nat i)%Z) with true by (symmetry; apply Z.leb_le; lia).
  replace ((Z.of_nat i <? Z.of_nat (length l))%Z) with true
    by (symmetry; apply Z.ltb_lt; lia).
  cbn. now rewrite Nat2Z.id.
Qed.

(** [set_success] and [set_fail] give up at once, changing nothing, when
    the position is not [last_confirmed]. *)
Lemma set_success_requires (ex : ProtocolExecutor) (seq_no : Z) :
  seq_no ≠ Z.of_nat (last_confirmed ex) →
  set_success seq_no ex = (Raise (mkExn AssertionError ""), ex).
Proof.
  intros Hne. unfold set_success, bind, gets, assert_.
  apply Z.eqb_neq in Hne. rewrite Hne. reflexivity.
Qed.

End CommitFacts.

(** C4, as stated, fails: [world] is a sequenced command at position
    [last_confirmed], yet [set_success] raises [KeyError] on its missing
    dependency, after it has moved [last_confirmed] and marked the command,
    and the success hook is never called. *)
Lemma set_success_missing_dependency :
  let r := @set_success sample_methods 0 world_alone in
  last_confirmed world_alone = 0
  ∧ seq world_alone !! 0 = Some world
  ∧ raises r.1 KeyError
  ∧ last_confirmed r.2 = 1
  ∧ seq r.2 !! 0 = Some (set_commit_status world (Some true))
  ∧ hooks r.2 = [].
Proof. cbv zeta. repeat split. Qed.

(** C4 (amended): when [seq_no] is [last_confirmed], the command at that
    position has all its dependencies in the object store, and all the
    versions it creates are in the store and are none of its dependencies,
    then [set_success seq_no] deletes every dependency from the store, sets
    [actually_live] on every created version, leaves the other objects
    alone, increments [last_confirmed], marks the command as success and
    calls its [on_success] hook.  When [seq_no] is not [last_confirmed] it
    fails its assertion and changes nothing. *)
Theorem set_success_effects `{CommandMethods} (ex : ProtocolExecutor)
    (seq_no : nat) (cmd : ProtocolCommand) :
  seq_no = last_confirmed ex →
  seq ex !! seq_no = Some cmd →
  (∀ v, v ∈ depend_on cmd → is_Some (object_store ex !! v)) →
  (∀ v, v ∈ creates cmd → is_Some (object_store ex !! v) ∧ v ∉ depend_on cmd) →
  let done := set_commit_status cmd (Some true) in
  let r := set_success (Z.of_nat seq_no) ex in
  r.1 = on_success done
  ∧ hooks r.2 = hooks ex ++ [OnSuccess done]
  ∧ last_confirmed r.2 = S (last_confirmed ex)
  ∧ seq r.2 = <[seq_no := done]> (seq ex)
  ∧ commit_status done = Some true
  ∧ (∀ v, v ∈ depend_on cmd → object_store r.2 !! v = None)
  ∧ (∀ v, v ∈ creates cmd →
       ∃ obj, object_store ex !! v = Some obj
              ∧ object_store r.2 !! v = Some (set_actually_live obj true))
  ∧ (∀ v, v ∉ depend_on cmd → v ∉ creates cmd →
       object_store r.2 !! v = object_store ex !! v)
  ∧ (∀ other_no, other_no ≠ Z.of_nat (last_confirmed ex) →
       set_success other_no ex = (Raise (mkExn AssertionError ""), ex)).
Proof.
  intros Hlc Hcmd Hdeps Hnew. cbv zeta. subst seq_no.
  set (seq_no := last_confirmed ex) in *.
  assert (Hlt : seq_no < length (seq ex)) by (eapply lookup_lt_Some; eassumption).
  set (done := set_commit_status cmd (Some true)).
  set (ex1 := with_seq (alter (fun c => set_commit_status c (Some true)) seq_no)
                (with_last_confirmed (S (last_confirmed ex)) ex)).
  assert (Hdone : seq ex1 !! seq_no = Some done).
  { cbn. rewrite list_lookup_alter_eq, Hcmd. reflexivity. }
  destruct (consume_objects_ok (get_dependencies done) ex1) as
    (ex2 & Hrun2 & Hs2 & Hl2 & Hc2 & Hh2 & Hst2).
  { apply NoDup_remove_dups. }
  { intros v Hv. unfold get_dependencies in Hv. rewrite elem_of_remove_dups in Hv.
    apply Hdeps, Hv. }
  destruct (commit_objects_ok (new_object_versions done) ex2) as
    (ex3 & Hrun3 & Hs3 & Hl3 & Hc3 & Hh3 & Hst3).
  { apply NoDup_remove_dups. }
  { intros v Hv. unfold new_object_versions in Hv. rewrite elem_of_remove_dups in Hv.
    destruct (Hnew v Hv) as [Hsome Hnot].
    rewrite Hst2, decide_False; [exact Hsome|].
    unfold get_dependencies. rewrite elem_of_remove_dups. exact Hnot. }
  assert (Hrun : set_success (Z.of_nat seq_no) ex =
                 (on_success done, with_hook (OnSuccess done) ex3)).
  { unfold set_success, bind, gets, assert_, seq_position, modify, lift_result, ret.
    rewrite Z.eqb_refl. cbn.
    rewrite (py_position_in_range _ _ Hlt). cbn.
    rewrite list_lookup_alter_eq, Hcmd. cbn.
    change (set_commit_status cmd (Some true)) with done.
    change (with_seq _ _) with ex1. cbv beta.
    change (get_dependencies done) with (remove_dups (depend_on cmd)) in Hrun2.
    change (new_object_versions done) with (remove_dups (creates cmd)) in Hrun3.
    rewrite Hrun2, Hrun3. reflexivity. }
  rewrite Hrun. cbn.
  split; [reflexivity|].
  split; [now rewrite Hh3, Hh2|].
  split; [now rewrite Hl3, Hl2|].
  split.
  { rewrite Hs3, Hs2. cbn. apply list_eq. intros i.
    destruct (decide (i = seq_no)) as [->|Hne].
    - rewrite list_lookup_alter_eq, list_lookup_insert_eq by exact Hlt.
      rewrite Hcmd. reflexivity.
    - rewrite list_lookup_alter_ne, list_lookup_insert_ne by congruence. reflexivity. }
  split; [reflexivity|].
  assert (Hfinal : ∀ k, object_store ex3 !! k =
            if decide (k ∈ creates cmd)
            then (fun obj => set_actually_live obj true)
                   <$> (if decide (k ∈ depend_on cmd) then None else object_store ex !! k)
            else if decide (k ∈ depend_on cmd) then None else object_store ex !! k).
  { intros k. rewrite Hst3, Hst2. unfold new_object_versions, get_dependencies. cbn.
    repeat case_decide;
      repeat match goal with
             | Hx : context [remove_dups _] |- _ => rewrite elem_of_remove_dups in Hx
             end;
      first [reflexivity | contradiction]. }
  split.
  { intros v Hv. rewrite Hfinal.
    destruct (decide (v ∈ creates cmd)) as [Hc|Hc].
    - destruct (Hnew v Hc) as [_ Hnot]. contradiction.
    - now rewrite decide_True. }
  split.
  { intros v Hv. destruct (Hnew v Hv) as [[obj Hobj] Hnot].
    exists obj. split; [exact Hobj|].
    rewrite Hfinal, decide_True, decide_False, Hobj by assumption. reflexivity. }
  split.
  { intros v Hd Hc. rewrite Hfinal. now rewrite !decide_False. }
  intros other_no Hne. apply set_success_requires, Hne.
Qed.

(** [world] at position 1 of [hello_then_world]: its dependency [hello] is
    in the store, committed, and its own object is in the store. *)
Lemma set_success_effects_witness :
  let r := @set_success sample_methods 1 hello_then_world in
  1 = last_confirmed hello_then_world
  ∧ seq hello_then_world !! 1 = Some world
  ∧ object_store r.2 !! "hello" = None
  ∧ (actually_live <$> object_store r.2 !! "world") = Some true
  ∧ last_confirmed r.2 = 2.
Proof.
  cbv zeta.
  split; [reflexivity|]. split; [reflexivity|].
  assert (Hdeps : ∀ v, v ∈ depend_on world → is_Some (object_store hello_then_world !! v)).
  { intros v Hv. apply list_elem_of_singleton in Hv as ->. eexists. reflexivity. }
  assert (Hnew : ∀ v, v ∈ creates world →
            is_Some (object_store hello_then_world !! v) ∧ v ∉ depend_on world).
  { intros v Hv. apply list_elem_of_singleton in Hv as ->.
    split; [eexists; reflexivity|].
    intros Hin. apply list_elem_of_singleton in Hin. discriminate Hin. }
  destruct (@set_success_effects sample_methods hello_then_world 1 world
              eq_refl eq_refl Hdeps Hnew)
    as (_ & _ & Hlc & _ & _ & Hgone & Hlive & _).
  change (Z.of_nat 1) with 1%Z in Hlc, Hgone, Hlive.
  split; [apply Hgone; now left|].
  split; [|exact Hlc].
  destruct (Hlive "world") as (obj & _ & ->); [now left|]. reflexivity.
Defined.

(** ** Storage transactions *)

Lemma enter_can_write (st : StorableFactory Persist) :
  consistent st → can_write (db (enter st)) = true.
Proof.
  unfold consistent, enter. destruct (Nat.eqb (levels st) 0); cbn; [reflexivity|].
  intros Hw. exact Hw.
Qed.

(** Leaving a transaction that changed nothing and raised puts the storage
    back as it was before the transaction was entered. *)
Lemma exit_enter_rollback (st : StorableFactory Persist) :
  consistent st → exit true (enter st) = st.
Proof.
  unfold consistent, enter, exit. destruct st as [[w c cur] tx lv]. cbn.
  destruct lv as [|lv]; cbn.
  - intros (-> & -> & ->). cbn. reflexivity.
  - intros ->. replace (lv + 1 - 0) with (S lv) by lia. cbn.
    replace (lv + 1) with (S lv) by lia. reflexivity.
Qed.

(** ** Local submission *)

Lemma sequence_next_command_raises `{CommandMethods} (cmd : ProtocolCommand)
    (do_not_sequence_errors own : bool) (ex : ProtocolExecutor) :
  is_ok (sequence_next_command cmd do_not_sequence_errors own ex).1 = false →
  raises (sequence_next_command cmd do_not_sequence_errors own ex).1 ExecutorException.
Proof.
  unfold sequence_next_command.
  destruct (sequence_try cmd own ex) as [[[]|e] ex1]; cbn; [discriminate | reflexivity].
Qed.

(** C5: when the local VASP is the server and the executor rejects the
    command, [sequence_command_local] ends with the executor's
    [ExecutorException]; the storage is as before the call (the
    transaction is rolled back, nothing is persisted, [my_requests] is
    unchanged) and no request is put on the wire. *)
Theorem sequence_command_local_aborts `{CommandMethods} (ch : VASPPairChannel)
    (cmd : ProtocolCommand) :
  consistent (storage ch) →
  client_of (myself ch) (other ch) = Ok false →
  let local := set_origin cmd (get_my_address ch) in
  is_ok (sequence_next_command local true true (executor ch)).1 = false →
  let r := sequence_command_local cmd ch in
  r.1 = Raise (mkExn ExecutorException
                 (match (sequence_next_command local true true (executor ch)).1 with
                  | Raise e => exn_msg e
                  | Ok _ => ""
                  end))
  ∧ raises r.1 ExecutorException
  ∧ storage r.2 = storage ch
  ∧ my_requests (persisted r.2) = my_requests (persisted ch)
  ∧ committed (db (storage r.2)) = committed (db (storage ch))
  ∧ net_queue r.2 = net_queue ch.
Proof.
  intros Hst Hserver local Hfail. cbv zeta.
  pose proof (sequence_next_command_raises local true true (executor ch) Hfail) as Hexn.
  unfold sequence_command_local, atomic_writes, is_server, is_client,
    lift_executor, bind, gets, ret.
  cbn. rewrite Hserver. cbn. fold local.
  destruct (sequence_next_command local true true (executor ch)) as [[pos|[ty msg]] ex1];
    cbn in Hfail, Hexn |- *; [discriminate|].
  subst ty. unfold persisted. cbn.
  rewrite (exit_enter_rollback _ Hst).
  repeat split.
Qed.

(** The server of the sample pair is asked to sequence [world] while
    nothing provides [hello]. *)
Lemma sequence_command_local_aborts_witness :
  let r := @sequence_command_local sample_methods world server_channel in
  consistent (storage server_channel)
  ∧ client_of (myself server_channel) (other server_channel) = Ok false
  ∧ raises r.1 ExecutorException
  ∧ my_requests (persisted r.2) = []
  ∧ net_queue r.2 = [].
Proof.
  cbv zeta.
  assert (Hst : consistent (storage server_channel)) by (repeat split).
  destruct (@sequence_command_local_aborts sample_methods server_channel world
              Hst eq_refl eq_refl) as (_ & Hraise & _ & Hmine & _ & Hnet).
  repeat split; assumption.
Defined.

(** ** Retransmission *)

(** Without [do_retransmit] the loop of [would_retransmit] never picks a
    request. *)
Lemma scan_retransmit_picks_none (remaining : list CommandRequestObject) (next : nat) :
  (scan_retransmit remaining next false).2 = None.
Proof.
  revert next. induction remaining as [|request rest IH]; intros next; cbn.
  - reflexivity.
  - destruct (has_response request); [apply IH | reflexivity].
Qed.

(** C9: [would_retransmit] called without [do_retransmit] returns [None]
    in every channel state, also when a request has no response yet, and
    sends nothing; [has_pending_responses] returns that value, so it never
    reports that responses are pending. *)
Theorem would_retransmit_returns_none (ch : VASPPairChannel) :
  consistent (storage ch) →
  (would_retransmit false ch).1 = Ok None
  ∧ has_pending_responses ch = would_retransmit false ch
  ∧ (has_pending_responses ch).1 = Ok None
  ∧ net_queue (would_retransmit false ch).2 = net_queue ch
  ∧ my_requests (persisted (would_retransmit false ch).2) = my_requests (persisted ch).
Proof.
  intros Hst.
  assert (Hrun : (would_retransmit false ch).1 = Ok None
                 ∧ net_queue (would_retransmit false ch).2 = net_queue ch
                 ∧ my_requests (persisted (would_retransmit false ch).2)
                   = my_requests (persisted ch)).
  { unfold would_retransmit, atomic_writes, bind, gets, persisted.
    cbn -[enter exit scan_retransmit].
    pose proof (scan_retransmit_picks_none
                  (drop (next_retransmit (current (db (enter (storage ch)))))
                        (my_requests (current (db (enter (storage ch))))))
                  (next_retransmit (current (db (enter (storage ch)))))) as Hnone.
    destruct (scan_retransmit _ _ false) as [next picked]. cbn in Hnone. subst picked.
    unfold write, check_write. cbn -[enter exit].
    rewrite (enter_can_write _ Hst). cbn -[enter exit].
    repeat split.
    unfold exit, enter. cbn.
    destruct (Nat.eqb (levels (storage ch)) 0); cbn;
      destruct (Nat.eqb _ 0); reflexivity. }
  destruct Hrun as (Hnone & Hnet & Hmine).
  unfold has_pending_responses. repeat split; assumption.
Qed.

(** The client has one request without a response, and the answer is
    still [None]. *)
Lemma would_retransmit_returns_none_witness :
  consistent (storage client_waiting)
  ∧ num_pending_responses client_waiting = 1
  ∧ (would_retransmit false client_waiting).1 = Ok None
  ∧ (has_pending_responses client_waiting).1 = Ok None.
Proof.
  assert (Hst : consistent (storage client_waiting)) by (repeat split).
  destruct (would_retransmit_returns_none client_waiting Hst) as (Hnone & _ & Hpend & _).
  repeat split; assumption.
Defined.

(** ** Buffered requests *)

(** A channel has no attribute [waiting]. *)
Lemma waiting_is_no_attribute (key : Z) (ch : VASPPairChannel) :
  request_buffer_item "waiting" key ch = (Raise (no_attribute "waiting"), ch).
Proof. reflexivity. Qed.

Section DrainFacts.
Context `{CommandMethods}.

(** The second loop of [process_waiting_messages] never gets to a buffered
    request: it stops at once without any change, normally when nothing is
    buffered for the next position, and with [AttributeError] otherwise. *)
Lemma drain_waiting_requests_cases (now : Z) (fuel : nat) (ch : VASPPairChannel) :
  drain_waiting_requests now (S fuel) ch =
  if bool_decide (is_Some (waiting_requests ch !! Z.of_nat (other_next_seq ch)))
  then Some (Raise (no_attribute "waiting"), ch)
  else Some (Ok tt, ch).
Proof.
  cbn [drain_waiting_requests]. unfold fbind, total, gets.
  destruct (bool_decide (is_Some (waiting_requests ch !! Z.of_nat (other_next_seq ch))));
    [|reflexivity].
  rewrite waiting_is_no_attribute. reflexivity.
Qed.

End DrainFacts.

(** C10: once the first loop of [process_waiting_messages] is through, a
    buffered request whose [seq] has become current makes the second loop,
    and with it [process_waiting_messages], raise [AttributeError] for the
    attribute [waiting]; the channel is left as the first loop left it, the
    request still in the buffer and [other_requests] no longer: the
    buffered request is not processed. *)
Theorem process_waiting_messages_attribute_error `{CommandMethods}
    (now : Z) (fuel : nat) (ch ch1 : VASPPairChannel) :
  drain_waiting_response (handle_response now (S fuel)) (S fuel) ch = Some (Ok tt, ch1) →
  is_Some (waiting_requests ch1 !! Z.of_nat (other_next_seq ch1)) →
  process_waiting_messages now (S fuel) ch = Some (Raise (no_attribute "waiting"), ch1)
  ∧ drain_waiting_requests now (S fuel) ch1 = Some (Raise (no_attribute "waiting"), ch1)
  ∧ exn_ty (no_attribute "waiting") = AttributeError
  ∧ ∀ fuel' r ch2,
      drain_waiting_requests now fuel' ch1 = Some (r, ch2) →
      raises r AttributeError ∧ ch2 = ch1.
Proof.
  intros Hfirst Hbuffered.
  assert (Hsecond : ∀ fuel', drain_waiting_requests now (S fuel') ch1
                             = Some (Raise (no_attribute "waiting"), ch1)).
  { intros fuel'. rewrite drain_waiting_requests_cases.
    rewrite bool_decide_eq_true_2 by exact Hbuffered. reflexivity. }
  split.
  { unfold process_waiting_messages, process_waiting_messages_with, fbind.
    rewrite Hfirst. apply Hsecond. }
  split; [apply Hsecond|].
  split; [reflexivity|].
  intros [|fuel'] r ch2 Hrun.
  - discriminate Hrun.
  - rewrite Hsecond in Hrun. injection Hrun as <- <-. split; reflexivity.
Qed.

(** The client holds [request1] in its buffer and has just handled
    [request0]. *)
Lemma process_waiting_messages_attribute_error_witness :
  other_next_seq client_gap_filled = 1
  ∧ waiting_requests client_gap_filled !! 1%Z
    = Some [(JsonRequest request1, false, 0, 0%Z)]
  ∧ @process_waiting_messages sample_methods 0 1 client_gap_filled
    = Some (Raise (no_attribute "waiting"), client_gap_filled).
Proof.
  split; [reflexivity|]. split; [reflexivity|].
  refine (proj1 (@process_waiting_messages_attribute_error sample_methods
                   0 0 client_gap_filled client_gap_filled _ _)).
  - reflexivity.
  - eexists. reflexivity.
Defined.

(** ** Responses delivered again *)

Lemma storable_index_lookup {A} (l : list A) (i : nat) (x : A) :
  l !! i = Some x → storable_index l (Z.of_nat i) = Ok x.
Proof.
  intros Hl. unfold storable_index.
  replace ((Z.of_nat i <? 0)%Z) with false by (symmetry; apply Z.ltb_ge; lia).
  now rewrite Nat2Z.id, Hl.
Qed.

Lemma enter_current (st : StorableFactory Persist) :
  current (db (enter st)) = current (db st).
Proof. unfold enter. destruct (Nat.eqb (levels st) 0); reflexivity. Qed.

Lemma exit_commit_current (st : StorableFactory Persist) :
  current (db (exit false st)) = current (db st).
Proof. unfold exit. destruct (Nat.eqb (levels st - 1) 0); reflexivity. Qed.

Section ResponseFacts.
Context `{CommandMethods}.

(** Inside a transaction, a response that is no protocol failure and
    answers a request that has a response already is accepted, and only the
    cursor of retransmission may move. *)
Lemma _handle_response_again (rec : CommandResponseObject → F bool) (now : Z)
    (fuel : nat) (response : CommandResponseObject) (ch : VASPPairChannel)
    (sq : nat) (request : CommandRequestObject) :
  can_write (db (storage ch)) = true →
  resp_seq response = Some (Z.of_nat sq) →
  my_requests (persisted ch) !! sq = Some request →
  has_response request = true →
  not_protocol_failure response = true →
  _handle_response_with rec now fuel response ch =
  Some (Ok true,
        with_storage (fun st => {| db := update_rows (advance_cursor sq) (db st);
                                   current_transaction := current_transaction st;
                                   levels := levels st |}) ch).
Proof.
  intros Hw Hseq Hreq Hhas Hok.
  assert (Hlt : sq < length (my_requests (persisted ch)))
    by (eapply lookup_lt_Some; eassumption).
  unfold _handle_response_with. rewrite Hseq.
  unfold fbind at 1. unfold total at 1, gets at 1, my_next_seq.
  replace ((Z.of_nat sq <? Z.of_nat (length (my_requests (persisted ch))))%Z) with true
    by (symmetry; apply Z.ltb_lt; lia).
  cbn [negb]. rewrite Hok.
  unfold fbind at 1. unfold total at 1, gets at 1.
  unfold advance_cursor, persisted in *.
  destruct (Nat.eqb_spec (next_retransmit (current (db (storage ch)))) sq) as [Heq|Hne].
  - rewrite Heq, Z.eqb_refl.
    unfold fbind, total, write, check_write, gets, lift_result, ret.
    rewrite Hw. cbn.
    rewrite (storable_index_lookup _ _ _ Hreq), Hhas.
    replace (sq + 1) with (S sq) by lia.
    destruct ch as [? ? [[? ? ?] ? ?] ? ? ? ? ? ? ? ?].
    unfold with_storage, update_rows. cbn in *.
    rewrite Heq, Nat.eqb_refl. reflexivity.
  - replace ((Z.of_nat (next_retransmit (current (db (storage ch)))) =? Z.of_nat sq)%Z)
      with false by (symmetry; apply Z.eqb_neq; lia).
    unfold fbind, total, gets, lift_result, ret. cbn.
    rewrite (storable_index_lookup _ _ _ Hreq), Hhas.
    apply Nat.eqb_neq in Hne.
    destruct ch as [? ? [[? ? ?] ? ?] ? ? ? ? ? ? ? ?].
    unfold with_storage, update_rows. cbn in *.
    rewrite Hne. reflexivity.
Qed.

End ResponseFacts.

Lemma advance_cursor_requests (sq : nat) (p : Persist) :
  my_requests (advance_cursor sq p) = my_requests p
  ∧ other_requests (advance_cursor sq p) = other_requests p.
Proof. unfold advance_cursor. destruct (Nat.eqb _ _); split; reflexivity. Qed.

(** C6, as stated, fails: both requests of the client have a response and
    the cursor of retransmission stands on the second; delivering the
    response to the second request again is accepted and moves the cursor
    from 1 to 2. *)
Lemma response_again_moves_cursor :
  let ch := client_answered_out_of_order in
  let r := @handle_response sample_methods 0 1 (answer 1 0) ch in
  (has_response <$> my_requests (persisted ch) !! 1) = Some true
  ∧ not_protocol_failure (answer 1 0) = true
  ∧ next_retransmit (persisted ch) = 1
  ∧ (fst <$> r) = Some (Ok true)
  ∧ (next_retransmit ∘ persisted ∘ snd <$> r) = Some 2.
Proof. cbv zeta. repeat split. Qed.

(** C6 (amended): a response that is not a protocol failure and answers a
    request that already has a response is accepted, [_handle_response]
    returns [True], and [my_requests], [other_requests], the executor, the
    response cache and the buffers are left as they were; [next_retransmit]
    is left as it was too unless it equals the [seq] of the response, in
    which case it advances by one. *)
Theorem handle_response_idempotent `{CommandMethods} (now : Z) (fuel : nat)
    (response : CommandResponseObject) (ch : VASPPairChannel)
    (sq : nat) (request : CommandRequestObject) :
  resp_seq response = Some (Z.of_nat sq) →
  my_requests (persisted ch) !! sq = Some request →
  has_response request = true →
  not_protocol_failure response = true →
  (can_write (db (storage ch)) = true →
   ∃ ch', _handle_response now fuel response ch = Some (Ok true, ch')
          ∧ same_but_cursor sq ch ch' ∧ storage ch' = 
              {| db := update_rows (advance_cursor sq) (db (storage ch));
                 current_transaction := current_transaction (storage ch);
                 levels := levels (storage ch) |})
  ∧ (consistent (storage ch) →
     ∃ ch', handle_response now (S fuel) response ch = Some (Ok true, ch')
            ∧ same_but_cursor sq ch ch'
            ∧ (next_retransmit (persisted ch) ≠ sq → ch' = ch)).
Proof.
  intros Hseq Hreq Hhas Hok. split.
  - intros Hw. eexists. split.
    + unfold _handle_response. eapply _handle_response_again; eassumption.
    + unfold same_but_cursor, persisted. cbn.
      destruct (advance_cursor_requests sq (current (db (storage ch)))) as [Hm Ho].
      repeat split; assumption.
  - intros Hst.
    assert (Hrun : handle_response now (S fuel) response ch =
              Some (Ok true,
                    with_storage (exit false)
                      (with_storage
                         (fun st => {| db := update_rows (advance_cursor sq) (db st);
                                       current_transaction := current_transaction st;
                                       levels := levels st |})
                         (with_storage enter ch)))).
    { cbn [handle_response]. unfold atomic_writes_F.
      rewrite (_handle_response_again _ now fuel response (with_storage enter ch)
                 sq request); try assumption.
      - reflexivity.
      - cbn -[enter]. apply enter_can_write, Hst.
      - unfold persisted. cbn -[enter]. rewrite enter_current. exact Hreq. }
    eexists. split; [exact Hrun|].
    destruct (advance_cursor_requests sq (current (db (storage ch)))) as [Hm Ho].
    split.
    + unfold same_but_cursor, persisted. cbn -[enter exit].
      rewrite exit_commit_current. cbn -[enter exit]. rewrite enter_current.
      repeat split; assumption.
    + intros Hne. apply Nat.eqb_neq in Hne.
      unfold persisted, with_storage, exit, enter, update_rows, advance_cursor,
        consistent in *.
      destruct ch as [? ? [[w c cur] tx lv] ? ? ? ? ? ? ? ?]. cbn in *.
      destruct lv as [|lv]; cbn in *.
      * destruct Hst as (-> & -> & ->). rewrite Hne. reflexivity.
      * replace (lv + 1 - 0) with (S lv) by lia. cbn.
        replace (lv + 1) with (S lv) by lia. rewrite Hne. reflexivity.
Qed.

(** The response to the first request of [client_answered_out_of_order],
    delivered again: the cursor stands behind it and nothing changes. *)
Lemma handle_response_idempotent_witness :
  let ch := client_answered_out_of_order in
  my_requests (persisted ch) !! 0
  = Some {| req_seq := 0; req_command_seq := None;
            req_command := set_origin hello "AAAA";
            response := Some (answer 0 1) |}
  ∧ not_protocol_failure (answer 0 1) = true
  ∧ consistent (storage ch)
  ∧ @handle_response sample_methods 0 1 (answer 0 1) ch = Some (Ok true, ch).
Proof.
  cbv zeta.
  assert (Hreq : my_requests (persisted client_answered_out_of_order) !! 0
                 = Some {| req_seq := 0; req_command_seq := None;
                           req_command := set_origin hello "AAAA";
                           response := Some (answer 0 1) |})
    by (vm_compute; reflexivity).
  assert (Hst : consistent (storage client_answered_out_of_order))
    by (vm_compute; repeat split).
  assert (Hcursor : next_retransmit (persisted client_answered_out_of_order) ≠ 0)
    by (vm_compute; discriminate).
  split; [exact Hreq|]. split; [reflexivity|]. split; [exact Hst|].
  destruct (@handle_response_idempotent sample_methods 0 0 (answer 0 1)
              client_answered_out_of_order 0 _ eq_refl Hreq eq_refl eq_refl)
    as [_ Hpublic].
  destruct (Hpublic Hst) as (ch' & Hrun & _ & Hsame).
  rewrite Hrun, (Hsame Hcursor). reflexivity.
Defined.

(** ** Requests of the peer *)

Section SpecFacts.
Context `{CommandMethods}.




End SpecFacts.


(** ** Further properties *)

(** X1: the scopes of [atomic_writes] nest.  Leaving the outermost scope
    commits what was written when the block ended normally and rolls it
    back when the block raised; entering and leaving an inner scope changes
    nothing, whatever the outcome of the block. *)
Theorem atomic_writes_scopes (st : StorableFactory Persist) (wrote : Persist → Persist) :
  let written (s : StorableFactory Persist) :=
    {| db := update_rows wrote (db s);
       current_transaction := current_transaction s; levels := levels s |} in
  (levels st = 0 →
     let kept := exit false (written (enter st)) in
     let dropped := exit true (written (enter st)) in
     committed (db kept) = wrote (current (db st))
     ∧ current (db kept) = wrote (current (db st))
     ∧ committed (db dropped) = committed (db st)
     ∧ current (db dropped) = committed (db st)
     ∧ levels kept = 0 ∧ levels dropped = 0
     ∧ can_write (db kept) = false ∧ can_write (db dropped) = false
     ∧ can_write (db (enter st)) = true)
  ∧ (levels st ≠ 0 → ∀ exc, exit exc (written (enter st)) = written st).
Proof.
  cbv zeta. split.
  - intros Hlv. unfold enter, exit. rewrite Hlv. cbn. repeat split.
  - intros Hlv exc. unfold enter, exit.
    destruct st as [d tx [|lv]]; [contradiction|]. cbn.
    replace (lv + 1 - 0) with (S lv) by lia. cbn.
    replace (lv + 1) with (S lv) by lia. reflexivity.
Qed.

(** The role of a pair of addresses is always defined. *)
Lemma client_of_defined (a b : LibraAddress) : ∃ c : bool, client_of a b = Ok c.
Proof.
  unfold client_of.
  destruct (role_bit_binary a b) as [-> | ->]; cbn; eexists; reflexivity.
Qed.

(** X2: the role computation never fails: the exclusive or of two last
    bits is 0 or 1, so the final assertion of [is_client] is never reached. *)
Theorem is_client_total (ch : VASPPairChannel) :
  ∃ c : bool, is_client ch = (Ok c, ch) ∧ is_server ch = (Ok (negb c), ch)
              ∧ role ch = (Ok (if c then "Client" else "Server"), ch).
Proof.
  unfold role, is_server, is_client, bind, ret.
  destruct (client_of_defined (myself ch) (other ch)) as [c ->].
  exists c. repeat split.
Qed.

Section FailFacts.
Context `{CommandMethods}.

(** Discarding versions never fails: those in the store are removed, the
    others are skipped. *)
Lemma discard_objects_ok (versions : list string) (ex : ProtocolExecutor) :
  ∃ ex', discard_objects versions ex = (Ok tt, ex')
         ∧ seq ex' = seq ex ∧ last_confirmed ex' = last_confirmed ex
         ∧ context ex' = context ex ∧ hooks ex' = hooks ex
         ∧ ∀ k, object_store ex' !! k =
                if decide (k ∈ versions) then None else object_store ex !! k.
Proof.
  revert ex. induction versions as [|v vs IH]; intros ex.
  - exists ex. do 5 (split; [reflexivity|]).
    intros k. destruct (decide (k ∈ [])) as [Hk|]; [inversion Hk | reflexivity].
  - cbn. unfold bind, gets, modify, ret.
    destruct (bool_decide_reflect (is_Some (object_store ex !! v))) as [Hv|Hv].
    + destruct (IH (with_store (delete v) ex)) as (ex' & Hrun & Hs & Hl & Hc & Hh & Hst).
      exists ex'. rewrite Hrun. repeat split; try assumption.
      intros k. rewrite Hst. cbn.
      destruct (decide (k ∈ vs)) as [Hk|Hk].
      * rewrite decide_True; [reflexivity | now right].
      * destruct (decide (k = v)) as [->|Hne].
        -- rewrite decide_True by now left. apply lookup_delete_eq.
        -- rewrite decide_False; [now apply lookup_delete_ne|].
           intros Hk'. apply elem_of_cons in Hk' as [? | ?]; contradiction.
    + destruct (IH ex) as (ex' & Hrun & Hs & Hl & Hc & Hh & Hst).
      exists ex'. rewrite Hrun. repeat split; try assumption.
      intros k. rewrite Hst.
      destruct (decide (k ∈ vs)) as [Hk|Hk].
      * rewrite decide_True; [reflexivity | now right].
      * destruct (decide (k = v)) as [->|Hne].
        -- rewrite decide_True by now left.
           destruct (object_store ex !! v) eqn:Hl'; [|reflexivity].
           exfalso. apply Hv. eauto.
        -- rewrite decide_False; [reflexivity|].
           intros Hk'. apply elem_of_cons in Hk' as [? | ?]; contradiction.
Qed.

End FailFacts.

(** X3: [set_fail] at position [last_confirmed] never fails on its own:
    it removes from the store the versions the command creates, those that
    are there, leaves the other objects alone, increments [last_confirmed],
    marks the command as failed and calls its [on_fail] hook. *)
Theorem set_fail_effects `{CommandMethods} (ex : ProtocolExecutor)
    (seq_no : nat) (cmd : ProtocolCommand) :
  seq_no = last_confirmed ex →
  seq ex !! seq_no = Some cmd →
  let failed := set_commit_status cmd (Some false) in
  let r := set_fail (Z.of_nat seq_no) ex in
  r.1 = on_fail failed
  ∧ hooks r.2 = hooks ex ++ [OnFail failed]
  ∧ last_confirmed r.2 = S (last_confirmed ex)
  ∧ seq r.2 = <[seq_no := failed]> (seq ex)
  ∧ (∀ v, v ∈ creates cmd → object_store r.2 !! v = None)
  ∧ (∀ v, v ∉ creates cmd → object_store r.2 !! v = object_store ex !! v).
Proof.
  intros Hlc Hcmd. cbv zeta. subst seq_no.
  set (seq_no := last_confirmed ex) in *.
  assert (Hlt : seq_no < length (seq ex)) by (eapply lookup_lt_Some; eassumption).
  set (failed := set_commit_status cmd (Some false)).
  set (ex1 := with_seq (alter (fun c => set_commit_status c (Some false)) seq_no)
                (with_last_confirmed (S (last_confirmed ex)) ex)).
  destruct (discard_objects_ok (remove_dups (creates cmd)) ex1) as
    (ex2 & Hrun2 & Hs2 & Hl2 & Hc2 & Hh2 & Hst2).
  assert (Hrun : set_fail (Z.of_nat seq_no) ex =
                 (on_fail failed, with_hook (OnFail failed) ex2)).
  { unfold set_fail, bind, gets, assert_, seq_position, modify, lift_result, ret.
    rewrite Z.eqb_refl. cbn.
    rewrite (py_position_in_range _ _ Hlt). cbn.
    rewrite list_lookup_alter_eq, Hcmd. cbn.
    change (set_commit_status cmd (Some false)) with failed.
    change (with_seq _ _) with ex1. cbv beta.
    rewrite Hrun2. reflexivity. }
  rewrite Hrun. cbn.
  split; [reflexivity|].
  split; [now rewrite Hh2|].
  split; [now rewrite Hl2|].
  split.
  { rewrite Hs2. cbn. apply list_eq. intros i.
    destruct (decide (i = seq_no)) as [->|Hne].
    - rewrite list_lookup_alter_eq, list_lookup_insert_eq by exact Hlt.
      rewrite Hcmd. reflexivity.
    - rewrite list_lookup_alter_ne, list_lookup_insert_ne by congruence. reflexivity. }
  split.
  - intros v Hv. rewrite Hst2, decide_True; [reflexivity|].
    rewrite elem_of_remove_dups. exact Hv.
  - intros v Hv. rewrite Hst2, decide_False; [reflexivity|].
    rewrite elem_of_remove_dups. exact Hv.
Qed.

(** [world] was sequenced as an error in [world_alone]; failing it removes
    nothing and moves [last_confirmed]. *)
Lemma set_fail_effects_witness :
  let r := @set_fail sample_methods 0 world_alone in
  0 = last_confirmed world_alone
  ∧ seq world_alone !! 0 = Some world
  ∧ r.1 = Ok tt
  ∧ last_confirmed r.2 = 1
  ∧ (commit_status <$> seq r.2 !! 0) = Some (Some false).
Proof.
  cbv zeta. split; [reflexivity|]. split; [reflexivity|].
  destruct (@set_fail_effects sample_methods world_alone 0 world eq_refl eq_refl)
    as (Hr & _ & Hlc & Hseq & _).
  change (Z.of_nat 0) with 0%Z in Hr, Hlc, Hseq.
  split; [exact Hr|]. split; [exact Hlc|]. rewrite Hseq. reflexivity.
Defined.

(** X4: a request whose [seq] was seen before is answered from what is
    stored and changes nothing: the stored response is sent again when the
    command is the same, and a [conflict] error that carries the command
    seen before otherwise. *)
Theorem handle_request_seen_before `{CommandMethods} (ch : VASPPairChannel)
    (request previous : CommandRequestObject) (i : nat) :
  req_seq request = Z.of_nat i →
  other_requests (persisted ch) !! i = Some previous →
  let arrived :=
    with_req_command request (set_origin (req_command request) (other ch)) in
  _handle_request request ch =
  (Ok (if is_same_command previous arrived
       then response previous
       else Some (with_previous_command (make_protocol_error arrived "conflict")
                    (req_command previous))),
   ch).
Proof.
  intros Hseq Hprev. cbv zeta.
  assert (Hlt : i < length (other_requests (persisted ch)))
    by (eapply lookup_lt_Some; eassumption).
  unfold _handle_request, bind, gets, lift_result, ret, other_next_seq. cbn.
  rewrite Hseq.
  replace ((Z.of_nat i <? Z.of_nat (length (other_requests (persisted ch))))%Z)
    with true by (symmetry; apply Z.ltb_lt; lia).
  rewrite (storable_index_lookup _ _ _ Hprev).
  destruct (is_same_command previous _); reflexivity.
Qed.

(** The client handled [request0]; the same request arrives again and is
    answered with the stored response. *)
Lemma handle_request_seen_before_witness :
  let ch := client_gap_filled in
  req_seq request0 = Z.of_nat 0
  ∧ ∃ previous,
      other_requests (persisted ch) !! 0 = Some previous
      ∧ (status <$> response previous) = Some success
      ∧ @_handle_request sample_methods request0 ch = (Ok (response previous), ch).
Proof.
  cbv zeta. split; [reflexivity|].
  destruct (other_requests (persisted client_gap_filled) !! 0) as [previous|] eqn:Hprev;
    [|vm_compute in Hprev; discriminate Hprev].
  exists previous. split; [reflexivity|].
  rewrite (@handle_request_seen_before sample_methods client_gap_filled
             request0 previous 0 eq_refl Hprev).
  vm_compute in Hprev. injection Hprev as <-.
  split; reflexivity.
Defined.

(** X5: a local submission that goes through stores one more request, whose
    [seq] is its position in [my_requests] and which has no response yet,
    and puts exactly that request on the wire. *)
Theorem sequence_command_local_seq `{CommandMethods} (ch : VASPPairChannel)
    (cmd : ProtocolCommand) (m : NetMessage) :
  consistent (storage ch) →
  (sequence_command_local cmd ch).1 = Ok m →
  let ch' := (sequence_command_local cmd ch).2 in
  ∃ request,
    content m = JsonRequest request
    ∧ req_seq request = Z.of_nat (length (my_requests (persisted ch)))
    ∧ req_command request = set_origin cmd (myself ch)
    ∧ response request = None
    ∧ my_requests (persisted ch') = my_requests (persisted ch) ++ [request]
    ∧ other_requests (persisted ch') = other_requests (persisted ch)
    ∧ net_queue ch' = net_queue ch ++ [m].
Proof.
  intros Hst. cbv zeta.
  destruct (client_of_defined (myself ch) (other ch)) as [c Hclient].
  destruct ch as [me oth [[w cm cur] tx lv] ex rc wr rw ws sw nq fu].
  unfold consistent in Hst. cbn in Hst, Hclient.
  unfold sequence_command_local, atomic_writes, is_server, is_client,
    lift_executor, bind, gets, ret, write, check_write, send_request, persisted,
    get_my_address, my_next_seq, next_final_sequence, with_storage, enter, exit.
  cbn [myself other storage executor db levels can_write current committed net_queue].
  rewrite Hclient.
  destruct c; cbn [negb].
  - destruct lv as [|lv]; cbn in Hst.
    + destruct Hst as (-> & -> & ->). cbn.
      intros Hm. injection Hm as <-. eexists. repeat split.
    + subst w. cbn. replace (lv + 1 - 0) with (S lv) by lia. cbn.
      intros Hm. injection Hm as <-. eexists. repeat split.
  - destruct lv as [|lv]; cbn -[sequence_next_command];
      destruct (sequence_next_command (set_origin cmd me) true true ex)
        as [[pos|e] ex1] eqn:Hrun.
    + cbn in Hst. destruct Hst as (-> & -> & ->). cbn.
      intros Hm. injection Hm as <-. eexists. repeat split.
    + cbn. discriminate.
    + cbn in Hst. subst w. cbn. replace (lv + 1 - 0) with (S lv) by lia. cbn.
      intros Hm. injection Hm as <-. eexists. repeat split.
    + cbn. discriminate.
Qed.

(** The client submits [hello] on a fresh channel: request number 0. *)
Lemma sequence_command_local_seq_witness :
  let r := @sequence_command_local sample_methods hello client_channel in
  consistent (storage client_channel)
  ∧ is_ok r.1 = true
  ∧ (req_seq <$> my_requests (persisted r.2)) = [0%Z]
  ∧ length (net_queue r.2) = 1.
Proof.
  cbv zeta.
  assert (Hst : consistent (storage client_channel)) by (repeat split).
  split; [exact Hst|]. split; [reflexivity|].
  destruct (@sequence_command_local_seq sample_methods client_channel hello _ Hst eq_refl)
    as (request & _ & Hseq & _ & _ & Hmine & _ & Hnet).
  rewrite Hmine, Hnet. cbn. rewrite Hseq. split; reflexivity.
Defined.

(** ** The executor, further *)

Section StoreFacts.
Context `{CommandMethods}.

Lemma create_objects_store (cmd : ProtocolCommand) (versions : list string)
    (ex : ProtocolExecutor) :
  let ex' := (create_objects cmd versions ex).2 in
  (∀ k, k ∉ versions → object_store ex' !! k = object_store ex !! k)
  ∧ (all_potentially_live (object_store ex) → all_potentially_live (object_store ex')).
Proof.
  revert ex. induction versions as [|v vs IH]; intros ex; cbn.
  - auto.
  - unfold bind, gets, lift_result, modify.
    destruct (get_object cmd v (object_store ex)) as [obj|e]; cbn; [|auto].
    destruct (IH (with_store <[v:=set_potentially_live obj true]> ex)) as [Hframe Hlive].
    split.
    + intros k Hk. rewrite Hframe by (intros Hin; apply Hk; now right).
      cbn. apply lookup_insert_ne. intros ->. apply Hk. now left.
    + intros Hall. apply Hlive. cbn. apply map_Forall_insert_2; [reflexivity | exact Hall].
Qed.

Lemma sequence_try_frame (cmd : ProtocolCommand) (own : bool) (ex : ProtocolExecutor) :
  let ex' := (sequence_try cmd own ex).2 in
  seq ex' = seq ex ∧ last_confirmed ex' = last_confirmed ex
  ∧ context ex' = context ex ∧ hooks ex' = hooks ex
  ∧ (∀ k, k ∉ creates cmd → object_store ex' !! k = object_store ex !! k)
  ∧ (all_potentially_live (object_store ex) → all_potentially_live (object_store ex')).
Proof.
  cbv zeta. rewrite sequence_try_cases.
  destruct (all_true _ _ _); [|cbn; auto 10].
  destruct (validity_checks _ _ _ _); [|cbn; auto 10].
  destruct (create_objects_frame cmd (new_object_versions cmd) ex) as (Hs & Hl & Hc & Hh).
  destruct (create_objects_store cmd (new_object_versions cmd) ex) as (Hframe & Hlive).
  repeat split; try assumption.
  intros k Hk. apply Hframe. unfold new_object_versions.
  rewrite elem_of_remove_dups. exact Hk.
Qed.

Lemma consume_objects_frame (versions : list string) (ex : ProtocolExecutor) :
  let ex' := (consume_objects versions ex).2 in
  seq ex' = seq ex ∧ last_confirmed ex' = last_confirmed ex
  ∧ context ex' = context ex ∧ hooks ex' = hooks ex
  ∧ (all_potentially_live (object_store ex) → all_potentially_live (object_store ex')).
Proof.
  revert ex. induction versions as [|v vs IH]; intros ex; cbn.
  - auto 10.
  - unfold bind, gets, modify, throw.
    destruct (object_store ex !! v) as [obj|]; cbn; [|auto 10].
    destruct (IH (with_store (delete v) ex)) as (Hs & Hl & Hc & Hh & Hlive).
    repeat split; try assumption.
    intros Hall. apply Hlive. cbn. now apply map_Forall_delete.
Qed.

Lemma commit_objects_frame (versions : list string) (ex : ProtocolExecutor) :
  let ex' := (commit_objects versions ex).2 in
  seq ex' = seq ex ∧ last_confirmed ex' = last_confirmed ex
  ∧ context ex' = context ex ∧ hooks ex' = hooks ex
  ∧ (all_potentially_live (object_store ex) → all_potentially_live (object_store ex')).
Proof.
  revert ex. induction versions as [|v vs IH]; intros ex; cbn.
  - auto 10.
  - unfold bind, gets, modify, throw.
    destruct (object_store ex !! v) as [obj|] eqn:Hv; cbn; [|auto 10].
    destruct (IH (with_store (<[v := set_actually_live obj true]>) ex))
      as (Hs & Hl & Hc & Hh & Hlive).
    repeat split; try assumption.
    intros Hall. apply Hlive. cbn. apply map_Forall_insert_2; [|exact Hall].
    exact (Hall v obj Hv).
Qed.

Lemma discard_objects_frame (versions : list string) (ex : ProtocolExecutor) :
  all_potentially_live (object_store ex) →
  all_potentially_live (object_store (discard_objects versions ex).2).
Proof.
  intros Hall.
  destruct (discard_objects_ok versions ex) as (ex' & Hrun & _ & _ & _ & _ & Hst).
  rewrite Hrun. cbn. intros k obj Hk. rewrite Hst in Hk.
  destruct (decide (k ∈ versions)); [discriminate|]. exact (Hall k obj Hk).
Qed.

Lemma sequence_next_command_live (cmd : ProtocolCommand) (b own : bool)
    (ex : ProtocolExecutor) :
  all_potentially_live (object_store ex) →
  all_potentially_live (object_store (sequence_next_command cmd b own ex).2).
Proof.
  intros Hall. unfold sequence_next_command.
  destruct (sequence_try_frame cmd own ex) as (_ & _ & _ & _ & _ & Hlive).
  destruct (sequence_try cmd own ex) as [[[]|e] ex1]; cbn in *.
  - now apply Hlive.
  - destruct b; cbn; now apply Hlive.
Qed.

Lemma set_success_live (seq_no : Z) (ex : ProtocolExecutor) :
  all_potentially_live (object_store ex) →
  all_potentially_live (object_store (set_success seq_no ex).2).
Proof.
  intros Hall.
  unfold set_success, bind, gets, assert_, seq_position, modify, lift_result, ret, throw.
  destruct (seq_no =? Z.of_nat (last_confirmed ex))%Z; cbn; [|exact Hall].
  destruct (py_position (seq ex) seq_no) as [i|]; cbn; [|exact Hall].
  destruct (alter _ i (seq ex) !! i) as [cmd|]; cbn; [|exact Hall].
  set (ex1 := with_seq _ _).
  destruct (consume_objects_frame (get_dependencies cmd) ex1) as (_ & _ & _ & _ & Hl1).
  destruct (consume_objects (get_dependencies cmd) ex1) as [[[]|e] ex2]; cbn in *;
    [|now apply Hl1].
  destruct (commit_objects_frame (new_object_versions cmd) ex2) as (_ & _ & _ & _ & Hl2).
  destruct (commit_objects (new_object_versions cmd) ex2) as [[[]|e] ex3]; cbn in *;
    apply Hl2, Hl1, Hall.
Qed.

Lemma set_fail_live (seq_no : Z) (ex : ProtocolExecutor) :
  all_potentially_live (object_store ex) →
  all_potentially_live (object_store (set_fail seq_no ex).2).
Proof.
  intros Hall.
  unfold set_fail, bind, gets, assert_, seq_position, modify, lift_result, ret, throw.
  destruct (seq_no =? Z.of_nat (last_confirmed ex))%Z; cbn; [|exact Hall].
  destruct (py_position (seq ex) seq_no) as [i|]; cbn; [|exact Hall].
  destruct (alter _ i (seq ex) !! i) as [cmd|]; cbn; [|exact Hall].
  set (ex1 := with_seq _ _).
  pose proof (discard_objects_frame (new_object_versions cmd) ex1 Hall) as Hl1.
  destruct (discard_objects (new_object_versions cmd) ex1) as [[[]|e] ex2]; cbn in *;
    exact Hl1.
Qed.

End StoreFacts.

(** X6: unless [do_not_sequence_errors] is set, [sequence_next_command]
    gives the command a place in the sequence in every case, also when it
    rejects it: the sequence grows by exactly the command, [last_confirmed]
    stays, a normal return gives the former length, and the only exception
    that leaves the function is [ExecutorException]. *)
Theorem sequence_next_command_sequences_errors `{CommandMethods}
    (ex : ProtocolExecutor) (cmd : ProtocolCommand) (own : bool) :
  let r := sequence_next_command cmd false own ex in
  seq r.2 = seq ex ++ [cmd]
  ∧ last_confirmed r.2 = last_confirmed ex
  ∧ match r.1 with
    | Ok pos => pos = length (seq ex)
    | Raise e => exn_ty e = ExecutorException
    end.
Proof.
  cbv zeta. unfold sequence_next_command.
  destruct (sequence_try_frame cmd own ex) as (Hs & Hl & _).
  destruct (sequence_try cmd own ex) as [[[]|e] ex1]; cbn in *;
    rewrite Hs; repeat split; assumption.
Qed.

(** X8: every object the executor stores is potentially live, and the
    three operations that touch the store keep it so, whatever their
    outcome; [count_potentially_live] then counts all stored objects, and
    [count_actually_live] never exceeds it. *)
Theorem stored_objects_potentially_live `{CommandMethods} (ex : ProtocolExecutor)
    (cmd : ProtocolCommand) (do_not_sequence_errors own : bool) (seq_no : Z) :
  all_potentially_live (object_store ex) →
  all_potentially_live
    (object_store (sequence_next_command cmd do_not_sequence_errors own ex).2)
  ∧ all_potentially_live (object_store (set_success seq_no ex).2)
  ∧ all_potentially_live (object_store (set_fail seq_no ex).2)
  ∧ count_potentially_live ex = size (object_store ex)
  ∧ count_actually_live ex ≤ count_potentially_live ex.
Proof.
  intros Hall.
  split; [now apply sequence_next_command_live|].
  split; [now apply set_success_live|].
  split; [now apply set_fail_live|].
  assert (Hcount : count_potentially_live ex = size (object_store ex)).
  { unfold count_potentially_live. f_equal. apply map_filter_id.
    intros k obj Hk. exact (Hall k obj Hk). }
  split; [exact Hcount|].
  rewrite Hcount. unfold count_actually_live.
  apply map_subseteq_size, map_filter_subseteq.
Qed.

(** The fresh executor stores nothing; after [hello] is sequenced its
    object is stored, potentially live. *)
Lemma stored_objects_potentially_live_witness :
  let ex := (@sequence_next_command sample_methods hello false true
               ProtocolExecutor_init).2 in
  all_potentially_live (object_store ProtocolExecutor_init)
  ∧ all_potentially_live (object_store ex)
  ∧ (potentially_live <$> object_store ex !! "hello") = Some true.
Proof.
  cbv zeta.
  assert (Hinit : all_potentially_live (object_store ProtocolExecutor_init))
    by apply map_Forall_empty.
  split; [exact Hinit|].
  destruct (@stored_objects_potentially_live sample_methods ProtocolExecutor_init
              hello false true 0%Z Hinit) as (Hlive & _).
  split; [exact Hlive|]. reflexivity.
Defined.

Section ConfirmFacts.
Context `{CommandMethods}.

Lemma py_position_past_end {A} (l : list A) (i : nat) :
  length l ≤ i → py_position l (Z.of_nat i) = None.
Proof.
  intros Hi. unfold py_position.
  replace ((Z.of_nat i <? Z.of_nat (length l))%Z) with false
    by (symmetry; apply Z.ltb_ge; lia).
  replace ((Z.of_nat i <? 0)%Z) with false by (symmetry; apply Z.ltb_ge; lia).
  now rewrite !andb_false_r.
Qed.

Lemma set_fail_requires (ex : ProtocolExecutor) (seq_no : Z) :
  seq_no ≠ Z.of_nat (last_confirmed ex) →
  set_fail seq_no ex = (Raise (mkExn AssertionError ""), ex).
Proof.
  intros Hne. unfold set_fail, bind, gets, assert_.
  apply Z.eqb_neq in Hne. rewrite Hne. reflexivity.
Qed.

(** What [set_fail] does at position [last_confirmed]. *)
Lemma set_fail_run (ex : ProtocolExecutor) (cmd : ProtocolCommand) :
  seq ex !! last_confirmed ex = Some cmd →
  let failed := set_commit_status cmd (Some false) in
  let r := set_fail (Z.of_nat (last_confirmed ex)) ex in
  r.1 = on_fail failed
  ∧ hooks r.2 = hooks ex ++ [OnFail failed]
  ∧ last_confirmed r.2 = S (last_confirmed ex)
  ∧ seq r.2 = <[last_confirmed ex := failed]> (seq ex)
  ∧ context r.2 = context ex
  ∧ (∀ v, v ∈ creates cmd → object_store r.2 !! v = None)
  ∧ (∀ v, v ∉ creates cmd → object_store r.2 !! v = object_store ex !! v).
Proof.
  intros Hcmd. cbv zeta.
  set (seq_no := last_confirmed ex) in *.
  assert (Hlt : seq_no < length (seq ex)) by (eapply lookup_lt_Some; eassumption).
  set (failed := set_commit_status cmd (Some false)).
  set (ex1 := with_seq (alter (fun c => set_commit_status c (Some false)) seq_no)
                (with_last_confirmed (S (last_confirmed ex)) ex)).
  destruct (discard_objects_ok (remove_dups (creates cmd)) ex1) as
    (ex2 & Hrun2 & Hs2 & Hl2 & Hc2 & Hh2 & Hst2).
  assert (Hrun : set_fail (Z.of_nat seq_no) ex =
                 (on_fail failed, with_hook (OnFail failed) ex2)).
  { unfold set_fail, bind, gets, assert_, seq_position, modify, lift_result, ret.
    rewrite Z.eqb_refl. cbn.
    rewrite (py_position_in_range _ _ Hlt). cbn.
    rewrite list_lookup_alter_eq, Hcmd. cbn.
    change (set_commit_status cmd (Some false)) with failed.
    change (with_seq _ _) with ex1. cbv beta.
    rewrite Hrun2. reflexivity. }
  rewrite Hrun. cbn.
  split; [reflexivity|].
  split; [now rewrite Hh2|].
  split; [now rewrite Hl2|].
  split.
  { rewrite Hs2. cbn. apply list_eq. intros i.
    destruct (decide (i = seq_no)) as [->|Hne].
    - rewrite list_lookup_alter_eq, list_lookup_insert_eq by exact Hlt.
      rewrite Hcmd. reflexivity.
    - rewrite list_lookup_alter_ne, list_lookup_insert_ne by congruence. reflexivity. }
  split; [now rewrite Hc2|].
  split.
  - intros v Hv. rewrite Hst2, decide_True; [reflexivity|].
    rewrite elem_of_remove_dups. exact Hv.
  - intros v Hv. rewrite Hst2, decide_False; [reflexivity|].
    rewrite elem_of_remove_dups. exact Hv.
Qed.

End ConfirmFacts.

(** X7: confirming the position [last_confirmed] when no command has been
    sequenced there yet raises [IndexError], from [set_success] and from
    [set_fail] alike, after [last_confirmed] has been incremented: the
    position is skipped, and confirming it once more fails the assertion.
    [set_fail] at any position other than [last_confirmed] fails its
    assertion and changes nothing. *)
Theorem confirm_unsequenced_position `{CommandMethods} (ex : ProtocolExecutor) :
  length (seq ex) ≤ last_confirmed ex →
  let seq_no := Z.of_nat (last_confirmed ex) in
  let moved := with_last_confirmed (S (last_confirmed ex)) ex in
  set_success seq_no ex = (Raise (mkExn IndexError "list index out of range"), moved)
  ∧ set_fail seq_no ex = (Raise (mkExn IndexError "list index out of range"), moved)
  ∧ set_success seq_no moved = (Raise (mkExn AssertionError ""), moved)
  ∧ set_fail seq_no moved = (Raise (mkExn AssertionError ""), moved)
  ∧ ∀ other_no, other_no ≠ seq_no →
      set_fail other_no ex = (Raise (mkExn AssertionError ""), ex).
Proof.
  intros Hlen. cbv zeta.
  split.
  { unfold set_success, bind, gets, assert_, seq_position, modify, throw, ret.
    rewrite Z.eqb_refl. cbn. now rewrite (py_position_past_end _ _ Hlen). }
  split.
  { unfold set_fail, bind, gets, assert_, seq_position, modify, throw, ret.
    rewrite Z.eqb_refl. cbn. now rewrite (py_position_past_end _ _ Hlen). }
  split; [apply set_success_requires; cbn; lia|].
  split; [apply set_fail_requires; cbn; lia|].
  intros other_no Hne. now apply set_fail_requires.
Qed.

(** [set_success(0)] on the fresh executor. *)
Lemma confirm_unsequenced_position_witness :
  let r := @set_success sample_methods 0 ProtocolExecutor_init in
  raises r.1 IndexError
  ∧ last_confirmed r.2 = 1
  ∧ raises (@set_success sample_methods 0 r.2).1 AssertionError.
Proof.
  cbv zeta.
  destruct (@confirm_unsequenced_position sample_methods ProtocolExecutor_init
              (le_n 0)) as (Hs & _ & Ha & _).
  change (Z.of_nat (last_confirmed ProtocolExecutor_init)) with 0%Z in Hs, Ha.
  rewrite Hs. cbn [fst snd]. rewrite Ha. repeat split.
Defined.

(** X9: a command that is sequenced, with errors sequenced too, and then
    failed leaves the object store exactly as it was before, whether it was
    accepted or rejected and however far the creation of its objects got,
    provided none of the versions it creates was in the store; the command
    stays in the sequence, marked as failed, and [last_confirmed] has caught
    up with the sequence. *)
Theorem rejected_command_leaves_store `{CommandMethods} (ex : ProtocolExecutor)
    (cmd : ProtocolCommand) (own : bool) :
  last_confirmed ex = length (seq ex) →
  (∀ v, v ∈ creates cmd → object_store ex !! v = None) →
  let ex1 := (sequence_next_command cmd false own ex).2 in
  let failed := set_commit_status cmd (Some false) in
  let r := set_fail (Z.of_nat (length (seq ex))) ex1 in
  r.1 = on_fail failed
  ∧ object_store r.2 = object_store ex
  ∧ seq r.2 = seq ex ++ [failed]
  ∧ last_confirmed r.2 = length (seq r.2)
  ∧ hooks r.2 = hooks ex ++ [OnFail failed].
Proof.
  intros Hlc Hfresh. cbv zeta.
  set (ex1 := (sequence_next_command cmd false own ex).2).
  assert (Hex1 : seq ex1 = seq ex ++ [cmd] ∧ last_confirmed ex1 = last_confirmed ex
                 ∧ hooks ex1 = hooks ex
                 ∧ ∀ k, k ∉ creates cmd → object_store ex1 !! k = object_store ex !! k).
  { subst ex1. unfold sequence_next_command.
    destruct (sequence_try_frame cmd own ex) as (Hs & Hl & _ & Hh & Hframe & _).
    destruct (sequence_try cmd own ex) as [[[]|e] ex']; cbn in *;
      rewrite Hs; repeat split; assumption. }
  destruct Hex1 as (Hs1 & Hl1 & Hh1 & Hframe).
  assert (Hcmd : seq ex1 !! last_confirmed ex1 = Some cmd).
  { rewrite Hs1, Hl1, Hlc. rewrite lookup_app_r by lia.
    now rewrite Nat.sub_diag. }
  destruct (set_fail_run ex1 cmd Hcmd) as (Hr & Hh & Hl & Hs & _ & Hgone & Hkept).
  rewrite Hl1, Hlc in Hr, Hh, Hl, Hs, Hgone, Hkept.
  split; [exact Hr|].
  split.
  { apply map_eq. intros k. destruct (decide (k ∈ creates cmd)) as [Hk|Hk].
    - rewrite Hgone by exact Hk. symmetry. now apply Hfresh.
    - rewrite Hkept by exact Hk. now apply Hframe. }
  split.
  { rewrite Hs, Hs1. rewrite insert_app_r_alt by lia.
    now rewrite Nat.sub_diag. }
  split.
  { rewrite Hl, Hs, length_insert, Hs1, length_app. cbn. lia. }
  now rewrite Hh, Hh1.
Qed.

(** [two_versions] is rejected after its first object was stored; failing
    it removes that object again. *)
Lemma rejected_command_leaves_store_witness :
  let ex1 := (@sequence_next_command OwnItemCommand_methods two_versions false true
                ProtocolExecutor_init).2 in
  let r := @set_fail OwnItemCommand_methods 0 ex1 in
  is_Some (object_store ex1 !! "a")
  ∧ r.1 = Ok tt
  ∧ object_store r.2 = ∅
  ∧ last_confirmed r.2 = 1.
Proof.
  cbv zeta. split; [eexists; reflexivity|].
  destruct (@rejected_command_leaves_store OwnItemCommand_methods
              ProtocolExecutor_init two_versions true eq_refl
              (fun v _ => lookup_empty v))
    as (Hr & Hst & Hs & Hl & _).
  change (Z.of_nat (length (seq ProtocolExecutor_init))) with 0%Z in Hr, Hst, Hs, Hl.
  split; [exact Hr|]. split; [exact Hst|]. rewrite Hl, Hs. reflexivity.
Defined.

(** ** The key-value store *)

Lemma elem_of_rows_of (nsp : string) (rows : Rows) (row : string * string * string) :
  row ∈ rows_of nsp rows ↔ rows !! row.1 = Some row.2 ∧ row.1.1 = nsp.
Proof.
  unfold rows_of. rewrite list_elem_of_filter.
  destruct row as [[n k] v]. rewrite elem_of_map_to_list. cbn. tauto.
Qed.

Lemma rows_of_insert_fresh (nsp key val : string) (rows : Rows) :
  rows !! (nsp, key) = None →
  rows_of nsp (<[(nsp, key) := val]> rows) ≡ₚ (nsp, key, val) :: rows_of nsp rows.
Proof.
  intros Hnone. unfold rows_of.
  rewrite (map_to_list_insert rows (nsp, key) val Hnone).
  rewrite filter_cons_True by reflexivity. reflexivity.
Qed.

Lemma rows_of_insert_other (nsp nsp' key val : string) (rows : Rows) :
  nsp' ≠ nsp →
  rows_of nsp (<[(nsp', key) := val]> rows) ≡ₚ rows_of nsp rows.
Proof.
  intros Hne. unfold rows_of.
  destruct (rows !! (nsp', key)) as [old|] eqn:Hold.
  - rewrite <- (insert_delete_eq rows (nsp', key) val) at 1.
    rewrite map_to_list_insert by apply lookup_delete_eq.
    rewrite filter_cons_False by (cbn; congruence).
    rewrite <- (map_to_list_delete rows (nsp', key) old Hold).
    rewrite filter_cons_False by (cbn; congruence). reflexivity.
  - rewrite (map_to_list_insert rows (nsp', key) val Hold).
    rewrite filter_cons_False by (cbn; congruence). reflexivity.
Qed.

Lemma rows_of_delete (nsp key val : string) (rows : Rows) :
  rows !! (nsp, key) = Some val →
  (nsp, key, val) :: rows_of nsp (delete (nsp, key) rows) ≡ₚ rows_of nsp rows.
Proof.
  intros Hsome. unfold rows_of.
  rewrite <- (map_to_list_delete rows (nsp, key) val Hsome).
  rewrite filter_cons_True by reflexivity. reflexivity.
Qed.

Lemma isin_spec (nsp key : string) (db : BasicStore Rows) :
  isin nsp key db = (Ok (bool_decide (is_Some (current db !! (nsp, key)))), db).
Proof.
  unfold isin, try_except, bind, get, ret.
  destruct (current db !! (nsp, key)) as [val|]; reflexivity.
Qed.

(** X10: inside a transaction [put] stores the value: [get] returns it,
    [isin] is true, every other row reads as before, nothing is committed
    yet, and [count] of the namespace grows by one exactly when the key is
    new.  Outside a transaction [put] raises [RuntimeError] and changes
    nothing. *)
Theorem put_then_get (db : BasicStore Rows) (nsp key val : string) :
  let r := put nsp key val db in
  if can_write db then
    r.1 = Ok tt
    ∧ get nsp key r.2 = (Ok val, r.2)
    ∧ isin nsp key r.2 = (Ok true, r.2)
    ∧ (∀ nsp' key', (nsp', key') ≠ (nsp, key) →
         (get nsp' key' r.2).1 = (get nsp' key' db).1)
    ∧ committed r.2 = committed db
    ∧ can_write r.2 = true
    ∧ (count nsp r.2).1
      = Ok (if bool_decide (is_Some (current db !! (nsp, key)))
            then length (rows_of nsp (current db))
            else S (length (rows_of nsp (current db))))
    ∧ (∀ nsp', nsp' ≠ nsp → (count nsp' r.2).1 = (count nsp' db).1)
  else
    r = (Raise (mkExn RuntimeError
                  "Store cannot be used for writing outside a transaction."), db).
Proof.
  cbv zeta. unfold put, check_write, bind, modify.
  destruct (can_write db) eqn:Hw; [|reflexivity]. cbn.
  split; [reflexivity|].
  split; [unfold get; cbn; now rewrite lookup_insert_eq|].
  split; [rewrite isin_spec; cbn; now rewrite lookup_insert_eq|].
  split.
  { intros nsp' key' Hne. unfold get. cbn.
    rewrite lookup_insert_ne by congruence.
    destruct (current db !! (nsp', key')); reflexivity. }
  split; [reflexivity|]. split; [exact Hw|].
  split.
  - unfold count, gets. cbn. f_equal.
    destruct (current db !! (nsp, key)) as [old|] eqn:Hold; cbn.
    + rewrite <- (insert_delete_eq (current db) (nsp, key) val).
      rewrite rows_of_insert_fresh by apply lookup_delete_eq.
      rewrite <- (rows_of_delete nsp key old (current db) Hold). reflexivity.
    + now rewrite rows_of_insert_fresh.
  - intros nsp' Hne. unfold count, gets. cbn. f_equal.
    now rewrite rows_of_insert_other.
Qed.

(** X11: inside a transaction [delete] removes the row of a stored key:
    [get] and a second [delete] raise [KeyError], [isin] is false, every
    other row reads as before and [count] of the namespace drops by one.
    For a key that is not stored it raises [KeyError], outside a
    transaction [RuntimeError]; both change nothing. *)
Theorem delete_then_get (db : BasicStore Rows) (nsp key : string) :
  let r := delete_ nsp key db in
  if can_write db then
    match current db !! (nsp, key) with
    | Some val =>
        r.1 = Ok tt
        ∧ get nsp key r.2 = (Raise (mkExn KeyError key), r.2)
        ∧ isin nsp key r.2 = (Ok false, r.2)
        ∧ delete_ nsp key r.2 = (Raise (mkExn KeyError key), r.2)
        ∧ (∀ nsp' key', (nsp', key') ≠ (nsp, key) →
             (get nsp' key' r.2).1 = (get nsp' key' db).1)
        ∧ committed r.2 = committed db
        ∧ (count nsp db).1 = Ok (S (length (rows_of nsp (current r.2))))
    | None => r = (Raise (mkExn KeyError key), db)
    end
  else
    r = (Raise (mkExn RuntimeError
                  "Store cannot be used for writing outside a transaction."), db).
Proof.
  cbv zeta. unfold delete_, check_write, bind, gets, modify, throw.
  destruct (can_write db) eqn:Hw; [|reflexivity]. cbn.
  destruct (current db !! (nsp, key)) as [val|] eqn:Hval; [|reflexivity]. cbn.
  split; [reflexivity|].
  split; [unfold get; cbn; now rewrite lookup_delete_eq|].
  split; [rewrite isin_spec; cbn; now rewrite lookup_delete_eq|].
  split; [rewrite Hw; cbn; now rewrite lookup_delete_eq|].
  split.
  { intros nsp' key' Hne. unfold get. cbn.
    rewrite lookup_delete_ne by congruence.
    destruct (current db !! (nsp', key')); reflexivity. }
  split; [reflexivity|].
  unfold count, gets. cbn. f_equal.
  now rewrite <- (rows_of_delete nsp key val (current db) Hval).
Qed.

(** X12: [getkeys] lists each stored key of the namespace once, and no
    other key; [count] is their number; and the list is empty exactly when
    [get] raises [KeyError] for every key of the namespace. *)
Theorem getkeys_lists_stored_keys (db : BasicStore Rows) (nsp : string) :
  ∃ keys,
    getkeys nsp db = (Ok keys, db)
    ∧ NoDup keys
    ∧ (∀ key, key ∈ keys ↔ isin nsp key db = (Ok true, db))
    ∧ count nsp db = (Ok (length keys), db)
    ∧ (keys = [] ↔ ∀ key, get nsp key db = (Raise (mkExn KeyError key), db)).
Proof.
  exists ((λ row : string * string * string, row.1.2) <$> rows_of nsp (current db)).
  split; [reflexivity|].
  assert (Hin : ∀ key, key ∈ (λ row : string * string * string, row.1.2)
                               <$> rows_of nsp (current db)
                       ↔ is_Some (current db !! (nsp, key))).
  { intros key. rewrite list_elem_of_fmap. split.
    - intros ([[n k] v] & -> & Hrow). apply elem_of_rows_of in Hrow as [Hl Hn].
      cbn in *. subst n. eauto.
    - intros [v Hv]. exists (nsp, key, v). split; [reflexivity|].
      apply elem_of_rows_of. auto. }
  split.
  { apply NoDup_fmap_2_strong.
    - intros [[n k] v] [[n' k'] v'] Hx Hy Hk.
      apply elem_of_rows_of in Hx as [Hx Hn], Hy as [Hy Hn']. cbn in *. subst.
      rewrite Hx in Hy. congruence.
    - unfold rows_of. apply NoDup_filter, NoDup_map_to_list. }
  split.
  { intros key. rewrite isin_spec. split.
    - intros Hs. apply Hin in Hs. now rewrite bool_decide_eq_true_2.
    - intros Heq. injection Heq as Heq. apply Hin.
      now apply bool_decide_eq_true_1 in Heq. }
  split; [unfold count, gets; now rewrite length_fmap|].
  split.
  - intros Hnil key. unfold get.
    destruct (current db !! (nsp, key)) as [v|] eqn:Hv; [|reflexivity].
    assert (Hk : key ∈ (λ row : string * string * string, row.1.2)
                         <$> rows_of nsp (current db)) by (apply Hin; eauto).
    rewrite Hnil in Hk. inversion Hk.
  - intros Hall.
    destruct ((λ row : string * string * string, row.1.2) <$> rows_of nsp (current db))
      as [|k rest] eqn:Hkeys; [reflexivity|].
    assert (Hk : is_Some (current db !! (nsp, k))).
    { apply Hin. now left. }
    destruct Hk as [v Hv]. specialize (Hall k). unfold get in Hall.
    rewrite Hv in Hall. discriminate Hall.
Qed.

Lemma put_run (db : BasicStore Rows) (nsp key val : string) :
  can_write db = true →
  put nsp key val db = (Ok tt, update_rows (<[(nsp, key) := val]>) db).
Proof. intros Hw. unfold put, check_write, bind, modify. now rewrite Hw. Qed.

Lemma rows_of_nonempty (nsp key val : string) (rows : Rows) :
  rows !! (nsp, key) = Some val → rows_of nsp rows ≠ [].
Proof.
  intros Hl Hnil.
  assert (Hin : (nsp, key, val) ∈ rows_of nsp rows) by (apply elem_of_rows_of; auto).
  rewrite Hnil in Hin. inversion Hin.
Qed.

Import StorableDict.

(** X13: [d[key] = value] on a [StorableDict].  When the value cannot be
    serialized that exception is raised, before the store is asked whether
    it can be written.  Outside a transaction the store raises
    [RuntimeError] and is left as it was.  Inside one, [d[key]] then reads
    back what was stored, parsed again, [key in d] is true, [is_empty] is
    false, and entries under another key or in a dictionary with another
    namespace read as before; [len(d)] raises [TypeError]. *)
Theorem storable_dict_set_get `{HashLib} {V J : Type} `{Xtype V J}
    (d : Storable) (db : BasicStore Rows) (key : string) (value : V) :
  let r := __setitem__ d key value db in
  let stored (data : string) : result V :=
    match loads data with Ok j => post_proc j | Raise e => Raise e end in
  match (match pre_proc value with Ok j => dumps j | Raise e => Raise e end) with
  | Raise e => r = (Raise e, db)
  | Ok data =>
      if can_write db then
        r.1 = Ok tt
        ∧ __getitem__ d key r.2 = (stored data, r.2)
        ∧ __contains__ d key r.2 = (Ok true, r.2)
        ∧ is_empty d r.2 = (Ok false, r.2)
        ∧ raises (__len__ d r.2).1 TypeError
        ∧ (∀ (d' : Storable) key', ns d' ≠ ns d ∨ key' ≠ key →
             (__getitem__ d' key' r.2).1 = (__getitem__ d' key' db).1
             ∧ (__contains__ d' key' r.2).1 = (__contains__ d' key' db).1)
      else
        raises r.1 RuntimeError ∧ r.2 = db
  end.
Proof.
  cbv zeta. unfold __setitem__, bind, lift_result.
  destruct (pre_proc value) as [j|e]; [|reflexivity].
  destruct (dumps j) as [data|e]; [|reflexivity].
  destruct (can_write db) eqn:Hw.
  2:{ unfold put, check_write, bind. rewrite Hw. split; reflexivity. }
  rewrite (put_run _ _ _ _ Hw). cbn [fst snd].
  set (db' := update_rows _ db).
  assert (Hnew : current db' !! (ns d, key) = Some data) by apply lookup_insert_eq.
  split; [reflexivity|].
  split.
  { unfold __getitem__, bind, lift_result, get. rewrite Hnew.
    destruct (loads data) as [j'|e]; [|reflexivity].
    destruct (post_proc j'); reflexivity. }
  split; [unfold __contains__; rewrite isin_spec, Hnew; reflexivity|].
  split.
  { unfold is_empty, bind, ret, count, gets.
    pose proof (rows_of_nonempty _ _ _ _ Hnew) as Hne.
    destruct (rows_of (ns d) (current db')); [contradiction | reflexivity]. }
  split; [reflexivity|].
  intros d' key' Hne.
  assert (Hold : current db' !! (ns d', key') = current db !! (ns d', key')).
  { apply lookup_insert_ne. intros [= Hn Hk]. destruct Hne; congruence. }
  split.
  - unfold __getitem__, bind, lift_result, get. rewrite Hold.
    destruct (current db !! (ns d', key')) as [old|]; [|reflexivity].
    destruct (loads old) as [j'|]; [|reflexivity]. destruct (post_proc j'); reflexivity.
  - unfold __contains__. rewrite !isin_spec, Hold. reflexivity.
Qed.

(** ** The channel, further *)

Section RequestParts.
Context `{CommandMethods}.

Lemma _handle_request_cases (request : CommandRequestObject) (ch : VASPPairChannel)
    (c : bool) :
  client_of (myself ch) (other ch) = Ok c →
  let arrived :=
    with_req_command request (set_origin (req_command request) (other ch)) in
  let next := Z.of_nat (other_next_seq ch) in
  _handle_request request ch =
  if (req_seq request <? next)%Z then
    match storable_index (other_requests (persisted ch)) (req_seq request) with
    | Ok previous =>
        (Ok (if is_same_command previous arrived
             then response previous
             else Some (with_previous_command (make_protocol_error arrived "conflict")
                          (req_command previous))), ch)
    | Raise e => (Raise e, ch)
    end
  else if negb c && bool_decide (is_Some (req_command_seq request))
  then (Ok (Some (make_protocol_error arrived "malformed")), ch)
  else if negb c && (0 <? num_pending_responses ch)%nat
  then (Ok (Some (make_protocol_error arrived "wait")), ch)
  else if (req_seq request =? next)%Z then
    if c then
      match req_command_seq request with
      | Some n =>
          if (Z.of_nat (next_final_sequence ch) <? n)%Z
          then (Ok (Some (make_protocol_error arrived "wait")), ch)
          else sequence_and_answer arrived ch
      | None =>
          (Raise (mkExn TypeError "'>' not supported between 'NoneType' and 'int'"), ch)
      end
    else sequence_and_answer arrived ch
  else (Ok (Some (make_protocol_error arrived "missing")), ch).
Proof.
  intros Hc. cbv zeta.
  unfold _handle_request, sequence_and_answer, is_server, is_client, bind, gets,
    lift_result, ret, throw.
  cbn [req_seq with_req_command req_command_seq req_command]. cbv beta.
  destruct (req_seq request <? Z.of_nat (other_next_seq ch))%Z eqn:Hlt.
  { cbv beta iota. destruct (storable_index _ _) as [previous|e]; [|reflexivity].
    destruct (is_same_command _ _); reflexivity. }
  cbv beta iota. rewrite Hc. cbv beta iota.
  destruct (negb c && bool_decide (is_Some (req_command_seq request))) eqn:Hmal;
    [reflexivity|].
  cbv beta iota. rewrite Hc. cbv beta iota.
  destruct (negb c && (0 <? num_pending_responses ch)%nat) eqn:Hwait; [reflexivity|].
  cbv beta iota.
  destruct (req_seq request =? Z.of_nat (other_next_seq ch))%Z eqn:Heq.
  - cbv beta iota. rewrite Hc. destruct c.
    + destruct (req_command_seq request) as [n|]; [|reflexivity].
      cbv beta iota.
      destruct (Z.of_nat (next_final_sequence ch) <? n)%Z; reflexivity.
    + reflexivity.
  - replace (Z.of_nat (other_next_seq ch) <? req_seq request)%Z with true; [reflexivity|].
    symmetry. apply Z.ltb_lt. apply Z.ltb_ge in Hlt. apply Z.eqb_neq in Heq. lia.
Qed.

Lemma sequence_and_answer_run (arrived : CommandRequestObject) (ch : VASPPairChannel) :
  let sq := Z.of_nat (length (seq (executor ch))) in
  let r := sequence_next_command (req_command arrived) false true (executor ch) in
  let resp :=
    with_command_seq
      (match r.1 with
       | Ok _ => make_success_response arrived
       | Raise e => make_command_error arrived (exn_msg e)
       end) (Some sq) in
  let stored := with_response arrived (Some resp) in
  let applied := (if is_ok r.1 then set_success sq else set_fail sq) r.2 in
  sequence_and_answer arrived ch =
  if can_write (db (storage ch)) then
    (match applied.1 with Ok _ => Ok (Some resp) | Raise e => Raise e end,
     with_executor applied.2 (recorded stored (with_executor r.2 ch)))
  else
    (Raise (mkExn RuntimeError "Store cannot be used for writing outside a transaction."),
     with_executor r.2 ch).
Proof.
  cbv zeta.
  pose proof (sequence_next_command_raises (req_command arrived) false true (executor ch))
    as Hexn.
  unfold sequence_and_answer, bind, gets, try_except, lift_executor, ret,
    next_final_sequence, next_seq.
  destruct (sequence_next_command (req_command arrived) false true (executor ch))
    as [[pos|e] ex1]; cbn [fst snd is_ok] in *.
  - unfold write, check_write. cbn [storage with_executor].
    destruct (can_write (db (storage ch))); [|reflexivity].
    unfold apply_response_to_executor, bind, assert_, ret, lift_executor, is_success.
    cbn -[set_success set_fail bool_decide].
    rewrite (bool_decide_eq_true_2 (success = success) eq_refl).
    cbn -[set_success set_fail].
    destruct (set_success _ ex1) as [[[]|e] ex2]; reflexivity.
  - specialize (Hexn eq_refl). cbn in Hexn. rewrite Hexn.
    unfold write, check_write. cbn [storage with_executor].
    destruct (can_write (db (storage ch))); [|reflexivity].
    unfold apply_response_to_executor, bind, assert_, ret, lift_executor, is_success.
    cbn -[set_success set_fail bool_decide].
    rewrite (bool_decide_eq_false_2 (failure = success)) by discriminate.
    cbn -[set_success set_fail].
    destruct (set_fail _ ex1) as [[[]|e'] ex2]; reflexivity.
Qed.

(** What [set_success] leaves behind at position [last_confirmed], however
    it ends. *)
Lemma set_success_frame (ex : ProtocolExecutor) (cmd : ProtocolCommand) :
  seq ex !! last_confirmed ex = Some cmd →
  let r := set_success (Z.of_nat (last_confirmed ex)) ex in
  seq r.2 = <[last_confirmed ex := set_commit_status cmd (Some true)]> (seq ex)
  ∧ last_confirmed r.2 = S (last_confirmed ex).
Proof.
  intros Hcmd. cbv zeta.
  assert (Hlt : last_confirmed ex < length (seq ex))
    by (eapply lookup_lt_Some; eassumption).
  unfold set_success, bind, gets, assert_, seq_position, modify, lift_result, ret.
  rewrite Z.eqb_refl. cbn.
  rewrite (py_position_in_range _ _ Hlt). cbn.
  rewrite list_lookup_alter_eq, Hcmd. cbn.
  set (done := set_commit_status cmd (Some true)).
  set (ex1 := with_seq _ _).
  assert (Hseq1 : seq ex1 = <[last_confirmed ex := done]> (seq ex)).
  { subst ex1. cbn. apply list_eq. intros i.
    destruct (decide (i = last_confirmed ex)) as [->|Hne].
    - rewrite list_lookup_alter_eq, list_lookup_insert_eq by exact Hlt.
      rewrite Hcmd. reflexivity.
    - rewrite list_lookup_alter_ne, list_lookup_insert_ne by congruence. reflexivity. }
  destruct (consume_objects_frame (remove_dups (depend_on cmd)) ex1) as (Hs2 & Hl2 & _).
  destruct (consume_objects (remove_dups (depend_on cmd)) ex1) as [[[]|e] ex2];
    cbn [fst snd] in Hs2, Hl2; cbn -[commit_objects];
    [|rewrite Hs2, Hl2; split; [exact Hseq1 | reflexivity]].
  destruct (commit_objects_frame (remove_dups (creates cmd)) ex2) as (Hs3 & Hl3 & _).
  destruct (commit_objects (remove_dups (creates cmd)) ex2) as [[[]|e] ex3];
    cbn [fst snd] in Hs3, Hl3; cbn;
    [|rewrite Hs3, Hl3, Hs2, Hl2; split; [exact Hseq1 | reflexivity]].
  destruct (on_success done); cbn; rewrite Hs3, Hl3, Hs2, Hl2;
    (split; [exact Hseq1 | reflexivity]).
Qed.

End RequestParts.

Lemma exit_enter_commit (st : StorableFactory Persist) :
  consistent st → exit false (enter st) = st.
Proof.
  unfold consistent, enter, exit. destruct st as [[w c cur] tx lv]. cbn.
  destruct lv as [|lv]; cbn.
  - intros (-> & -> & ->). cbn. reflexivity.
  - intros ->. replace (lv + 1 - 0) with (S lv) by lia. cbn.
    replace (lv + 1) with (S lv) by lia. reflexivity.
Qed.

Lemma with_storage_exit_enter (ch : VASPPairChannel) (exc : bool) :
  consistent (storage ch) →
  with_storage (exit exc) (with_storage enter ch) = ch.
Proof.
  intros Hst. destruct ch. unfold with_storage. cbn in *. f_equal.
  destruct exc; [now apply exit_enter_rollback | now apply exit_enter_commit].
Qed.

Section RequestFacts.
Context `{CommandMethods}.

(** The answer [sequence_and_answer] gives is never a protocol failure. *)
Lemma sequence_and_answer_answer (arrived : CommandRequestObject) (ch : VASPPairChannel) :
  match (sequence_and_answer arrived ch).1 with
  | Ok (Some resp) => not_protocol_failure resp = true
  | Ok None => False
  | Raise _ => True
  end.
Proof.
  rewrite sequence_and_answer_run. cbv zeta.
  destruct (can_write (db (storage ch))); [|exact I]. cbn [fst].
  destruct (sequence_next_command _ _ _ _) as [[pos|e] ex1]; cbn [fst snd is_ok].
  - destruct (set_success _ ex1) as [[[]|e] ex2]; [reflexivity | exact I].
  - destruct (set_fail _ ex1) as [[[]|e'] ex2]; [reflexivity | exact I].
Qed.

(** X14: an answer that is a protocol error ([conflict], [malformed],
    [wait], [missing]) is given without any change to the channel:
    [_handle_request] returns the channel as it got it, and so does
    [handle_request] when no transaction was left half-way. *)
Theorem protocol_errors_change_nothing (request : CommandRequestObject)
    (ch : VASPPairChannel) :
  match _handle_request request ch with
  | (Ok (Some resp), ch') => if not_protocol_failure resp then True else ch' = ch
  | _ => True
  end
  ∧ (consistent (storage ch) →
     match handle_request request ch with
     | (Ok (Some resp), ch') => if not_protocol_failure resp then True else ch' = ch
     | _ => True
     end).
Proof.
  assert (Hbody : ∀ ch0, match _handle_request request ch0 with
            | (Ok (Some resp), ch') =>
                if not_protocol_failure resp then True else ch' = ch0
            | _ => True
            end).
  { intros ch0.
    destruct (client_of_defined (myself ch0) (other ch0)) as [c Hc].
    rewrite (_handle_request_cases request ch0 c Hc). cbv zeta.
    pose proof (sequence_and_answer_answer
                  (with_req_command request (set_origin (req_command request) (other ch0)))
                  ch0) as Hseq.
    assert (Hsame : ∀ resp, if not_protocol_failure resp then True else ch0 = ch0)
      by (intros resp; destruct (not_protocol_failure resp); auto).
    destruct (req_seq request <? Z.of_nat (other_next_seq ch0))%Z.
    { destruct (storable_index _ _) as [previous|e]; [|exact I].
      destruct (is_same_command _ _); [|apply Hsame].
      destruct (response previous); [apply Hsame | exact I]. }
    destruct (negb c && bool_decide _); [apply Hsame|].
    destruct (negb c && (0 <? _)%nat); [apply Hsame|].
    destruct (req_seq request =? _)%Z; [|apply Hsame].
    assert (Hgo : match sequence_and_answer
                          (with_req_command request
                             (set_origin (req_command request) (other ch0))) ch0 with
                  | (Ok (Some resp), ch') =>
                      if not_protocol_failure resp then True else ch' = ch0
                  | _ => True
                  end).
    { destruct (sequence_and_answer _ ch0) as [[[resp|]|e] ch1]; cbn [fst] in Hseq;
        try exact I. now rewrite Hseq. }
    destruct c; [|exact Hgo].
    destruct (req_command_seq request) as [n|]; [|exact I].
    destruct (Z.of_nat (next_final_sequence ch0) <? n)%Z; [apply Hsame | exact Hgo]. }
  split; [apply Hbody|].
  intros Hst. unfold handle_request, atomic_writes.
  specialize (Hbody (with_storage enter ch)).
  destruct (_handle_request request (with_storage enter ch)) as [[[resp|]|e] ch1];
    try exact I.
  cbn [is_ok negb].
  destruct (not_protocol_failure resp); [exact I|].
  subst ch1. now apply with_storage_exit_enter.
Qed.

End RequestFacts.

(** The server receives a request that suggests a sequence number. *)
Lemma protocol_errors_change_nothing_witness :
  consistent (storage server_channel)
  ∧ match @handle_request sample_methods request0 server_channel with
    | (Ok (Some resp), ch') =>
        (code <$> error resp) = Some "malformed" ∧ ch' = server_channel
    | _ => False
    end.
Proof.
  assert (Hst : consistent (storage server_channel)) by (repeat split).
  split; [exact Hst|].
  pose proof (proj2 (@protocol_errors_change_nothing sample_methods request0
                       server_channel) Hst) as Hw.
  destruct (@handle_request sample_methods request0 server_channel)
    as [out ch'] eqn:Hrun.
  vm_compute in Hrun. injection Hrun as <- Hch.
  cbn in Hw. split; [reflexivity | exact Hw].
Defined.

Section RequestFacts2.
Context `{CommandMethods}.

Lemma sequence_next_command_appends (cmd : ProtocolCommand) (own : bool)
    (ex : ProtocolExecutor) :
  let r := sequence_next_command cmd false own ex in
  seq r.2 = seq ex ++ [cmd] ∧ last_confirmed r.2 = last_confirmed ex.
Proof.
  cbv zeta. unfold sequence_next_command.
  destruct (sequence_try_frame cmd own ex) as (Hs & Hl & _).
  destruct (sequence_try cmd own ex) as [[[]|e] ex1]; cbn in *;
    rewrite Hs; split; auto.
Qed.

(** X15: a request of the peer that is the next in order and passes the
    checks of its role is sequenced and recorded.  The request is appended
    to [other_requests] with its response; the response echoes the [seq],
    carries the former length of the command sequence as [command_seq],
    and reports success exactly when the executor accepted the command;
    the command takes the next place in the sequence, marked with that
    outcome, and [last_confirmed] has caught up with the sequence.  The
    response is what is returned, unless confirming the command raised. *)
Theorem handle_request_in_order (request : CommandRequestObject)
    (ch : VASPPairChannel) (c : bool) :
  client_of (myself ch) (other ch) = Ok c →
  can_write (db (storage ch)) = true →
  req_seq request = Z.of_nat (other_next_seq ch) →
  (if c
   then ∃ n, req_command_seq request = Some n
             ∧ (n ≤ Z.of_nat (next_final_sequence ch))%Z
   else req_command_seq request = None ∧ num_pending_responses ch = 0) →
  last_confirmed (executor ch) = length (seq (executor ch)) →
  let arrived :=
    with_req_command request (set_origin (req_command request) (other ch)) in
  let accepted :=
    is_ok (sequence_next_command (req_command arrived) false true (executor ch)).1 in
  let out := _handle_request request ch in
  ∃ resp,
    other_requests (persisted out.2)
    = other_requests (persisted ch) ++ [with_response arrived (Some resp)]
    ∧ my_requests (persisted out.2) = my_requests (persisted ch)
    ∧ resp_seq resp = Some (req_seq request)
    ∧ resp_command_seq resp = Some (Z.of_nat (length (seq (executor ch))))
    ∧ status resp = (if accepted then success else failure)
    ∧ not_protocol_failure resp = true
    ∧ seq (executor out.2)
      = seq (executor ch) ++ [set_commit_status (req_command arrived) (Some accepted)]
    ∧ last_confirmed (executor out.2) = length (seq (executor out.2))
    ∧ match out.1 with
      | Ok answer => answer = Some resp
      | Raise _ => True
      end.
Proof.
  intros Hc Hw Hseq Hturn Hlc. cbv zeta.
  set (arrived := with_req_command request (set_origin (req_command request) (other ch))).
  assert (Hrun : _handle_request request ch = sequence_and_answer arrived ch).
  { rewrite (_handle_request_cases request ch c Hc). cbv zeta. fold arrived.
    rewrite Hseq, Z.ltb_irrefl, Z.eqb_refl.
    destruct c; cbn [negb andb].
    - destruct Hturn as (n & -> & Hn).
      replace ((Z.of_nat (next_final_sequence ch) <? n)%Z) with false
        by (symmetry; apply Z.ltb_ge; lia).
      reflexivity.
    - destruct Hturn as (-> & ->). reflexivity. }
  rewrite Hrun, sequence_and_answer_run. cbv zeta. rewrite Hw.
  destruct (sequence_next_command_appends (req_command arrived) true (executor ch))
    as (Hs1 & Hl1).
  set (r := sequence_next_command (req_command arrived) false true (executor ch)) in *.
  assert (Hcmd : seq r.2 !! last_confirmed r.2 = Some (req_command arrived)).
  { rewrite Hs1, Hl1, Hlc. rewrite lookup_app_r by lia. now rewrite Nat.sub_diag. }
  assert (Hsq : Z.of_nat (length (seq (executor ch))) = Z.of_nat (last_confirmed r.2))
    by (rewrite Hl1, Hlc; reflexivity).
  rewrite Hsq.
  eexists. cbn [fst snd].
  split; [reflexivity|]. split; [reflexivity|].
  split; [destruct r.1; reflexivity|].
  split; [reflexivity|].
  split; [destruct r.1; reflexivity|].
  split; [destruct r.1; reflexivity|].
  destruct (is_ok r.1) eqn:Hok.
  - destruct (set_success_frame r.2 (req_command arrived) Hcmd) as (Hs2 & Hl2).
    cbn [executor with_executor]. rewrite Hs2, Hl2, Hs1, Hl1, Hlc.
    rewrite insert_app_r_alt by lia. rewrite Nat.sub_diag. cbn [insert list_insert].
    split; [reflexivity|].
    split; [rewrite length_app; cbn; lia|].
    destruct (set_success _ _).1; [|exact I].
    destruct r.1; [reflexivity | discriminate Hok].
  - destruct (set_fail_run r.2 (req_command arrived) Hcmd) as (_ & _ & Hl2 & Hs2 & _).
    cbn [executor with_executor]. rewrite Hs2, Hl2, Hs1, Hl1, Hlc.
    rewrite insert_app_r_alt by lia. rewrite Nat.sub_diag. cbn [insert list_insert].
    split; [reflexivity|].
    split; [rewrite length_app; cbn; lia|].
    destruct (set_fail _ _).1; [|exact I].
    destruct r.1; [discriminate Hok | reflexivity].
Qed.

End RequestFacts2.

(** The client handles the first request of the server. *)
Lemma handle_request_in_order_witness :
  let ch := with_storage enter client_channel in
  let out := @_handle_request sample_methods request0 ch in
  client_of (myself ch) (other ch) = Ok true
  ∧ (req_seq <$> other_requests (persisted out.2)) = [0%Z]
  ∧ (commit_status <$> seq (executor out.2)) = [Some true]
  ∧ last_confirmed (executor out.2) = 1.
Proof.
  cbv zeta. split; [reflexivity|].
  destruct (@handle_request_in_order sample_methods request0
              (with_storage enter client_channel) true eq_refl eq_refl eq_refl
              (ex_intro _ 0%Z (conj eq_refl (Z.le_refl 0))) eq_refl)
    as (resp & Hother & _ & _ & _ & _ & _ & Hseq & Hlc & _).
  rewrite Hother, Hlc, Hseq. repeat split.
Defined.

Section RequestFacts3.
Context `{CommandMethods}.

Lemma _handle_request_state (request : CommandRequestObject) (ch : VASPPairChannel) :
  let ch' := (_handle_request request ch).2 in
  ch' = ch
  ∨ (∃ ex', ch' = with_executor ex' ch)
  ∨ (∃ stored ex',
       ch' = with_executor ex' (recorded stored ch)
       ∧ req_seq stored = Z.of_nat (other_next_seq ch)
       ∧ has_response stored = true).
Proof.
  cbv zeta.
  destruct (client_of_defined (myself ch) (other ch)) as [c Hc].
  rewrite (_handle_request_cases request ch c Hc). cbv zeta.
  set (arrived := with_req_command request (set_origin (req_command request) (other ch))).
  destruct (req_seq request <? Z.of_nat (other_next_seq ch))%Z.
  { destruct (storable_index _ _) as [previous|e]; now left. }
  destruct (negb c && bool_decide _); [now left|].
  destruct (negb c && (0 <? _)%nat); [now left|].
  destruct (req_seq request =? _)%Z eqn:Heq; [|now left].
  apply Z.eqb_eq in Heq.
  assert (Hgo : (sequence_and_answer arrived ch).2 = ch
                ∨ (∃ ex', (sequence_and_answer arrived ch).2 = with_executor ex' ch)
                ∨ (∃ stored ex',
                     (sequence_and_answer arrived ch).2
                     = with_executor ex' (recorded stored ch)
                     ∧ req_seq stored = Z.of_nat (other_next_seq ch)
                     ∧ has_response stored = true)).
  { rewrite sequence_and_answer_run. cbv zeta.
    destruct (can_write (db (storage ch))); cbn [snd].
    - right. right. eexists _, _.
      split; [unfold recorded, with_storage, with_executor; cbn; reflexivity|].
      split; [exact Heq | reflexivity].
    - right. left. eexists. reflexivity. }
  destruct c; [|exact Hgo].
  destruct (req_command_seq request) as [n|]; [|now left].
  destruct (Z.of_nat (next_final_sequence ch) <? n)%Z; [now left | exact Hgo].
Qed.

Lemma answered_in_order_snoc (l : list CommandRequestObject) (r : CommandRequestObject) :
  answered_in_order l → req_seq r = Z.of_nat (length l) → has_response r = true →
  answered_in_order (l ++ [r]).
Proof.
  intros Hl Hseq Hhas i r' Hi.
  apply lookup_app_Some in Hi as [Hi | [Hge Hi]]; [now apply Hl|].
  apply list_lookup_singleton_Some in Hi as [Hi <-].
  split; [|exact Hhas]. rewrite Hseq. f_equal. lia.
Qed.

Lemma _handle_request_answered (request : CommandRequestObject) (ch : VASPPairChannel) :
  answered_in_order (other_requests (persisted ch)) →
  answered_in_order (other_requests (persisted (_handle_request request ch).2))
  ∧ committed (db (storage (_handle_request request ch).2)) = committed (db (storage ch))
  ∧ levels (storage (_handle_request request ch).2) = levels (storage ch).
Proof.
  intros Hinv.
  destruct (_handle_request_state request ch)
    as [-> | [(ex' & ->) | (stored & ex' & -> & Hseq & Hhas)]].
  - auto.
  - destruct ch; auto.
  - split; [|destruct ch; split; reflexivity].
    unfold persisted, recorded. cbn.
    now apply answered_in_order_snoc.
Qed.

(** X16: every stored request of the peer sits at the index that is its
    [seq] and carries a response, and handling any request keeps it so,
    whatever its outcome; a request is then never answered by [None]. *)
Theorem other_requests_stay_answered (request : CommandRequestObject)
    (ch : VASPPairChannel) :
  answered_in_order (other_requests (persisted ch)) →
  answered_in_order (other_requests (persisted (_handle_request request ch).2))
  ∧ (_handle_request request ch).1 ≠ Ok None
  ∧ (consistent (storage ch) →
     answered_in_order (other_requests (persisted (handle_request request ch).2))
     ∧ (handle_request request ch).1 ≠ Ok None).
Proof.
  intros Hinv.
  assert (Hanswer : ∀ ch0, answered_in_order (other_requests (persisted ch0)) →
                           (_handle_request request ch0).1 ≠ Ok None).
  { intros ch0 Hinv0.
    destruct (client_of_defined (myself ch0) (other ch0)) as [c Hc].
    rewrite (_handle_request_cases request ch0 c Hc). cbv zeta.
    pose proof (sequence_and_answer_answer
                  (with_req_command request (set_origin (req_command request) (other ch0)))
                  ch0) as Hseq.
    assert (Hgo : (sequence_and_answer
                     (with_req_command request
                        (set_origin (req_command request) (other ch0))) ch0).1 ≠ Ok None).
    { destruct (sequence_and_answer _ ch0).1 as [[resp|]|e]; [discriminate | | discriminate].
      contradiction. }
    destruct (req_seq request <? Z.of_nat (other_next_seq ch0))%Z.
    { unfold storable_index.
      destruct (req_seq request <? 0)%Z; [discriminate|].
      destruct (other_requests (persisted ch0) !! Z.to_nat (req_seq request))
        as [previous|] eqn:Hprev; [|discriminate].
      destruct (Hinv0 _ _ Hprev) as [_ Hhas]. cbn [fst].
      destruct (is_same_command _ _); [|discriminate].
      unfold has_response in Hhas. apply bool_decide_eq_true_1 in Hhas as [resp ->].
      discriminate. }
    destruct (negb c && bool_decide _); [discriminate|].
    destruct (negb c && (0 <? _)%nat); [discriminate|].
    destruct (req_seq request =? _)%Z; [|discriminate].
    destruct c; [|exact Hgo].
    destruct (req_command_seq request) as [n|]; [|discriminate].
    destruct (Z.of_nat (next_final_sequence ch0) <? n)%Z; [discriminate | exact Hgo]. }
  split; [now apply _handle_request_answered|].
  split; [now apply Hanswer|].
  intros Hst.
  assert (Hinv0 : answered_in_order (other_requests (persisted (with_storage enter ch)))).
  { unfold persisted. cbn -[enter]. now rewrite enter_current. }
  destruct (_handle_request_answered request (with_storage enter ch) Hinv0)
    as (Hbody & Hcommitted & Hlevels).
  specialize (Hanswer _ Hinv0).
  unfold handle_request, atomic_writes.
  destruct (_handle_request request (with_storage enter ch)) as [r ch1].
  cbn [fst snd] in *. split; [|exact Hanswer].
  unfold persisted in *. cbn -[enter exit] in *.
  destruct (is_ok r); cbn [negb].
  - now rewrite exit_commit_current.
  - unfold exit. rewrite Hlevels.
    unfold consistent in Hst. unfold enter in Hcommitted |- *.
    destruct (Nat.eqb_spec (levels (storage ch)) 0) as [Hz|Hnz]; cbn in Hcommitted |- *.
    + rewrite Hz. cbn. rewrite Hcommitted.
      destruct Hst as (_ & Hcur & _). now rewrite <- Hcur.
    + replace (levels (storage ch) + 1 - 1) with (levels (storage ch)) by lia.
      apply Nat.eqb_neq in Hnz. rewrite Hnz. exact Hbody.
Qed.

End RequestFacts3.

(** The fresh client, and the client after the first request. *)
Lemma other_requests_stay_answered_witness :
  let ch' := (@handle_request sample_methods request0 client_channel).2 in
  answered_in_order (other_requests (persisted client_channel))
  ∧ length (other_requests (persisted ch')) = 1
  ∧ answered_in_order (other_requests (persisted ch')).
Proof.
  cbv zeta.
  assert (Hinit : answered_in_order (other_requests (persisted client_channel))).
  { intros i r Hi. discriminate Hi. }
  assert (Hst : consistent (storage client_channel)) by (repeat split).
  split; [exact Hinit|]. split; [reflexivity|].
  exact (proj1 (proj2 (proj2 (@other_requests_stay_answered sample_methods request0
                                client_channel Hinit)) Hst)).
Defined.

Lemma scan_retransmit_spec (remaining : list CommandRequestObject) (next : nat)
    (do_retransmit : bool) :
  ∃ k, (scan_retransmit remaining next do_retransmit).1 = next + k
       ∧ (∀ i r, i < k → remaining !! i = Some r → has_response r = true)
       ∧ match remaining !! k with
         | Some r =>
             has_response r = false
             ∧ (scan_retransmit remaining next do_retransmit).2
               = (if do_retransmit then Some r else None)
         | None => (scan_retransmit remaining next do_retransmit).2 = None
         end.
Proof.
  revert next. induction remaining as [|request rest IH]; intros next; cbn.
  - exists 0. split; [lia|]. split; [intros i r Hi; lia | reflexivity].
  - destruct (has_response request) eqn:Hhas.
    + destruct (IH (S next)) as (k & Hnext & Hbefore & Hat).
      exists (S k). split; [rewrite Hnext; lia|]. split.
      * intros [|i] r Hi Hr; cbn in Hr; [congruence|]. apply (Hbefore i); [lia | exact Hr].
      * exact Hat.
    + exists 0. cbn. split; [lia|]. split; [intros i r Hi; lia|]. auto.
Qed.

(** X17: [would_retransmit(do_retransmit=True)] moves the cursor
    [next_retransmit] forward over requests that have a response, never
    back, and stops at the first request without one: that request is put
    on the wire again, and nothing is sent when there is none.  Stored
    requests and the executor are left as they were. *)
Theorem retransmit_sends_earliest_unanswered (ch : VASPPairChannel) :
  consistent (storage ch) →
  let start := next_retransmit (persisted ch) in
  let reqs := my_requests (persisted ch) in
  let r := would_retransmit true ch in
  let next := next_retransmit (persisted r.2) in
  my_requests (persisted r.2) = reqs
  ∧ other_requests (persisted r.2) = other_requests (persisted ch)
  ∧ executor r.2 = executor ch
  ∧ start ≤ next
  ∧ (∀ i request, start ≤ i < next → reqs !! i = Some request →
       has_response request = true)
  ∧ match reqs !! next with
    | Some request =>
        let m := {| src := myself ch; dst := other ch; type := RequestType;
                    content := JsonRequest request |} in
        has_response request = false
        ∧ r.1 = Ok (Some m)
        ∧ net_queue r.2 = net_queue ch ++ [m]
    | None => r.1 = Ok None ∧ net_queue r.2 = net_queue ch
    end.
Proof.
  intros Hst. cbv zeta.
  unfold would_retransmit, atomic_writes, bind, gets, persisted.
  cbn -[enter exit scan_retransmit].
  rewrite !enter_current.
  set (start := next_retransmit (current (db (storage ch)))).
  set (reqs := my_requests (current (db (storage ch)))).
  destruct (scan_retransmit_spec (drop start reqs) start true) as (k & Hnext & Hbefore & Hat).
  destruct (scan_retransmit (drop start reqs) start true) as [next picked].
  cbn [fst snd] in Hnext, Hat. subst next.
  unfold write, check_write. cbn -[enter exit].
  rewrite (enter_can_write _ Hst). cbn -[enter exit].
  rewrite lookup_drop in Hat.
  assert (Hrange : ∀ i request, start ≤ i < start + k → reqs !! i = Some request →
                                has_response request = true).
  { intros i request Hi Hr. apply (Hbefore (i - start)); [lia|].
    rewrite lookup_drop. replace (start + (i - start)) with i by lia. exact Hr. }
  destruct (reqs !! (start + k)) as [request|] eqn:Hreq.
  - destruct Hat as [Hhas ->]. cbn -[enter exit].
    unfold send_request. cbn -[enter exit].
    rewrite !exit_commit_current. cbn -[enter exit]. rewrite Hreq.
    repeat split; try assumption; try lia; now rewrite enter_current.
  - subst picked. cbn -[enter exit].
    rewrite !exit_commit_current. cbn -[enter exit]. rewrite Hreq.
    repeat split; try assumption; try lia; now rewrite enter_current.
Qed.

(** The client has two requests without a response; the first is sent
    again. *)
Lemma retransmit_sends_earliest_unanswered_witness :
  let r := @would_retransmit true client_two_waiting in
  consistent (storage client_two_waiting)
  ∧ next_retransmit (persisted client_two_waiting) = 0
  ∧ (req_seq <$> my_requests (persisted client_two_waiting)) = [0%Z; 1%Z]
  ∧ match r.1 with
    | Ok (Some m) =>
        content m = JsonRequest (CommandRequestObject_init (set_origin hello "AAAA") 0 None)
    | _ => False
    end
  ∧ length (net_queue r.2) = 3.
Proof.
  cbv zeta.
  assert (Hst : consistent (storage client_two_waiting)) by (repeat split).
  split; [exact Hst|]. split; [reflexivity|]. split; [reflexivity|].
  destruct (retransmit_sends_earliest_unanswered client_two_waiting Hst)
    as (_ & _ & _ & _ & _ & Hat).
  assert (Hnext : next_retransmit (persisted (would_retransmit true client_two_waiting).2)
                  = 0) by (vm_compute; reflexivity).
  rewrite Hnext in Hat.
  change (my_requests (persisted client_two_waiting) !! 0)
    with (Some (CommandRequestObject_init (set_origin hello "AAAA") 0 None)) in Hat.
  cbv zeta in Hat. destruct Hat as (_ & Hr & Hq).
  rewrite Hr, Hq. split; reflexivity.
Defined.

Section ResponseFacts2.
Context `{CommandMethods}.

Lemma drain_nothing_waiting (rec : CommandResponseObject → F bool) (now : Z) (fuel : nat)
    (ch : VASPPairChannel) :
  waiting_response ch = ∅ → waiting_requests ch = ∅ → response_cache ch = ∅ →
  process_pending_requests_response_with rec now (S fuel) ch = Some (Ok tt, ch).
Proof.
  intros Hresp Hreq Hcache.
  unfold process_pending_requests_response_with, process_waiting_messages_with.
  cbn [drain_waiting_response drain_waiting_requests].
  unfold fbind, total, gets, ret.
  rewrite Hresp, lookup_empty. cbn. rewrite Hreq, lookup_empty. cbn.
  rewrite Hcache, lookup_empty. reflexivity.
Qed.

Lemma _handle_response_run (rec : CommandResponseObject → F bool) (now : Z)
    (fuel : nat) (response : CommandResponseObject) (ch : VASPPairChannel)
    (sq : nat) (request : CommandRequestObject) (cs : Z) :
  can_write (db (storage ch)) = true →
  resp_seq response = Some (Z.of_nat sq) →
  my_requests (persisted ch) !! sq = Some request →
  has_response request = false →
  not_protocol_failure response = true →
  resp_command_seq response = Some cs →
  ((cs ≤ Z.of_nat (next_final_sequence ch))%Z →
   waiting_response ch = ∅ ∧ waiting_requests ch = ∅ ∧ response_cache ch = ∅) →
  let final := Z.of_nat (next_final_sequence ch) in
  let confirm :=
    if bool_decide (status response = success) then set_success cs else set_fail cs in
  let sequenced :=
    (sequence_next_command (req_command request) false true (executor ch)).2 in
  let done (applied : result unit * ProtocolExecutor) :=
    Some (match applied.1 with Ok _ => Ok true | Raise e => Raise e end,
          with_executor applied.2
            (answered sq (with_response request (Some response)) ch)) in
  _handle_response_with rec now (S fuel) response ch =
  if (cs =? final)%Z then done (confirm sequenced)
  else if (cs <? final)%Z then done (confirm (executor ch))
  else Some (Ok true, with_response_cache (<[cs := response]>) (cursor_moved sq ch)).
Proof.
  intros Hw Hseq Hreq Hhas Hok Hcs Hidle. cbv zeta.
  assert (Hlt : sq < length (my_requests (persisted ch)))
    by (eapply lookup_lt_Some; eassumption).
  destruct ch as [me oth [[w cm cur] tx lv] ex rc wr rw ws sw nq fu].
  unfold persisted, next_final_sequence, next_seq in *.
  cbn [storage db current can_write executor waiting_response waiting_requests
       response_cache] in *.
  subst w.
  unfold _handle_response_with. rewrite Hseq.
  unfold fbind at 1. unfold total at 1, gets at 1, my_next_seq, persisted.
  cbn [storage db current].
  replace ((Z.of_nat sq <? Z.of_nat (length (my_requests cur)))%Z) with true
    by (symmetry; apply Z.ltb_lt; lia).
  cbn [negb]. rewrite Hok.
  unfold answered, cursor_moved, advance_cursor, with_storage, update_rows.
  cbn [storage db current can_write executor current_transaction levels committed].
  unfold fbind at 1. unfold total at 1, gets at 1, persisted.
  cbn [storage db current].
  assert (Hgo : ∀ (m : M ProtocolExecutor unit) ch0,
            waiting_response ch0 = ∅ → waiting_requests ch0 = ∅ →
            response_cache ch0 = ∅ →
            (let (r1, ch'1) := lift_executor m ch0 in
             match r1 with
             | Ok _ =>
                 match process_pending_requests_response_with rec now (S fuel) ch'1 with
                 | Some (Ok _, ch'2) => Some (Ok true, ch'2)
                 | Some (Raise e, ch'2) => Some (Raise e, ch'2)
                 | None => None
                 end
             | Raise e => Some (Raise e, ch'1)
             end)
            = Some (match (m (executor ch0)).1 with Ok _ => Ok true | Raise e => Raise e end,
                    with_executor (m (executor ch0)).2 ch0)).
  { intros m ch0 H1 H2 H3. unfold lift_executor.
    destruct (m (executor ch0)) as [[[]|e] ex2]; cbn [fst snd]; [|reflexivity].
    rewrite drain_nothing_waiting; [reflexivity | | |]; destruct ch0; assumption. }
  destruct (Nat.eqb_spec (next_retransmit cur) sq) as [Heq|Hne];
    [rewrite Heq, Z.eqb_refl; replace (sq + 1) with (S sq) by lia
    |replace ((Z.of_nat (next_retransmit cur) =? Z.of_nat sq)%Z) with false
       by (symmetry; apply Z.eqb_neq; lia)].
  all: unfold fbind, total, gets, lift_result, ret, store_my_request, write, check_write,
      bind, try_except, lift_executor, apply_response_to_executor, assert_, modify,
      is_success, throw, persisted, next_final_sequence, next_seq.
  all: cbn -[sequence_next_command set_success set_fail
          process_pending_requests_response_with storable_index Z.eqb Z.ltb Z.of_nat].
  all: rewrite (storable_index_lookup _ _ _ Hreq), Hhas, Hcs.
  all: cbn -[sequence_next_command set_success set_fail
          process_pending_requests_response_with storable_index Z.eqb Z.ltb Z.of_nat].
  all: destruct (cs =? Z.of_nat (length (seq ex)))%Z eqn:Hcmp;
      [apply Z.eqb_eq in Hcmp; destruct Hidle as (-> & -> & ->); [lia|]
      |destruct (cs <? Z.of_nat (length (seq ex)))%Z eqn:Hbelow;
        [apply Z.ltb_lt in Hbelow; destruct Hidle as (-> & -> & ->); [lia|]
        |replace ((Z.of_nat (length (seq ex)) <? cs)%Z) with true
            by (symmetry; apply Z.ltb_lt; apply Z.ltb_ge in Hbelow;
                apply Z.eqb_neq in Hcmp; lia)]].
  all: cbn -[sequence_next_command set_success set_fail
          process_pending_requests_response_with storable_index Z.eqb Z.ltb Z.of_nat].
  all: try (rewrite (storable_index_lookup _ _ _ Hreq), Nat2Z.id).
  all: cbn -[sequence_next_command set_success set_fail
          process_pending_requests_response_with].
  all: try reflexivity.
  all: try (destruct (sequence_next_command (req_command request) false true ex)
              as [[pos|e] ex1];
            cbn -[set_success set_fail process_pending_requests_response_with]).
  all: destruct (bool_decide (status response = success));
       rewrite Hgo by reflexivity; reflexivity.
Qed.

End ResponseFacts2.

Lemma never_false_bind {A} (m : F A) (k : A → F bool) :
  (∀ a, never_false (k a)) → never_false (fbind m k).
Proof.
  intros Hk ch ch'. unfold fbind.
  destruct (m ch) as [[[a|e] ch1]|]; [apply Hk | discriminate | discriminate].
Qed.

Lemma never_false_true : never_false (total (ret true)).
Proof. intros ch ch'. discriminate. Qed.

Lemma never_false_throw (t : exn_type) (msg : string) : never_false (total (throw t msg)).
Proof. intros ch ch'. discriminate. Qed.

Section ResponseFacts3.
Context `{CommandMethods}.

Lemma _handle_response_refusal (rec : CommandResponseObject → F bool) (now : Z)
    (fuel : nat) (response : CommandResponseObject) (ch : VASPPairChannel) :
  match _handle_response_with rec now fuel response ch with
  | Some (Ok false, ch') => ch' = ch
  | _ => True
  end.
Proof.
  unfold _handle_response_with.
  destruct (resp_seq response) as [request_seq|].
  2:{ unfold total, bind, assert_, ret.
      destruct (bool_decide (status response = failure)); cbn; auto. }
  unfold fbind at 1. unfold total at 1, gets at 1.
  destruct (negb (request_seq <? Z.of_nat (my_next_seq ch))%Z); [reflexivity|].
  destruct (not_protocol_failure response).
  - match goal with
    | |- match ?m ch with _ => _ end =>
        assert (Hnever : never_false m);
          [|specialize (Hnever ch); destruct (m ch) as [[[[]|e] ch1]|]; try exact I;
            exfalso; exact (Hnever ch1 eq_refl)]
    end.
    { apply never_false_bind. intros next_expected.
      apply never_false_bind. intros _.
      apply never_false_bind. intros reqs.
      apply never_false_bind. intros request.
      destruct (has_response request); [apply never_false_true|].
      apply never_false_bind. intros final.
      destruct (resp_command_seq response) as [command_seq|];
        [|apply never_false_throw].
      destruct (command_seq =? Z.of_nat final)%Z.
      { repeat (apply never_false_bind; intros _). apply never_false_true. }
      destruct (command_seq <? Z.of_nat final)%Z.
      { repeat (apply never_false_bind; intros _). apply never_false_true. }
      destruct (Z.of_nat final <? command_seq)%Z; [|apply never_false_throw].
      intros ch0 ch1. unfold total, bind, modify, ret. cbn. discriminate. }
  - destruct (error response) as [err|]; [|exact I].
    repeat (destruct (bool_decide _); [reflexivity|]). exact I.
Qed.

(** X18: whenever [_handle_response] returns [False] the channel is as it
    was, and so for [handle_response].  It returns [False] for a response
    to a request that was never made, and for a protocol failure with one
    of the codes [missing], [wait], [malformed], [conflict]. *)
Theorem refused_response_changes_nothing (now : Z) (fuel : nat)
    (response : CommandResponseObject) (ch : VASPPairChannel) :
  match _handle_response now fuel response ch with
  | Some (Ok false, ch') => ch' = ch
  | _ => True
  end
  ∧ (consistent (storage ch) →
     match handle_response now fuel response ch with
     | Some (Ok false, ch') => ch' = ch
     | _ => True
     end)
  ∧ (∀ n, resp_seq response = Some n → (Z.of_nat (my_next_seq ch) ≤ n)%Z →
       _handle_response now fuel response ch = Some (Ok false, ch))
  ∧ (∀ n err, resp_seq response = Some n → (n < Z.of_nat (my_next_seq ch))%Z →
       not_protocol_failure response = false → error response = Some err →
       code err ∈ ["missing"; "wait"; "malformed"; "conflict"] →
       _handle_response now fuel response ch = Some (Ok false, ch)).
Proof.
  split; [apply _handle_response_refusal|].
  split.
  { intros Hst. destruct fuel as [|fuel]; [exact I|].
    cbn [handle_response]. unfold atomic_writes_F.
    pose proof (_handle_response_refusal (handle_response now fuel) now fuel response
                  (with_storage enter ch)) as Hbody.
    destruct (_handle_response_with _ now fuel response (with_storage enter ch))
      as [[[[]|e] ch1]|]; try exact I.
    subst ch1. cbn [is_ok negb]. now apply with_storage_exit_enter. }
  split.
  { intros n Hn Hge. unfold _handle_response, _handle_response_with. rewrite Hn.
    unfold fbind, total, gets, ret.
    replace ((n <? Z.of_nat (my_next_seq ch))%Z) with false
      by (symmetry; apply Z.ltb_ge; lia).
    reflexivity. }
  intros n err Hn Hlt Hfail Herr Hcode.
  unfold _handle_response, _handle_response_with. rewrite Hn.
  unfold fbind, total, gets, ret.
  replace ((n <? Z.of_nat (my_next_seq ch))%Z) with true
    by (symmetry; apply Z.ltb_lt; lia).
  cbn [negb]. rewrite Hfail, Herr.
  repeat (apply elem_of_cons in Hcode as [-> | Hcode]; [reflexivity|]).
  inversion Hcode.
Qed.

End ResponseFacts3.

(** The client is told to wait. *)
Lemma refused_response_changes_nothing_witness :
  consistent (storage client_waiting)
  ∧ not_protocol_failure wait_answer = false
  ∧ @handle_response sample_methods 0 1 wait_answer client_waiting
    = Some (Ok false, client_waiting).
Proof.
  assert (Hst : consistent (storage client_waiting)) by (repeat split).
  split; [exact Hst|]. split; [reflexivity|].
  pose proof (proj1 (proj2 (@refused_response_changes_nothing sample_methods 0 1
                              wait_answer client_waiting)) Hst) as Hw.
  destruct (@handle_response sample_methods 0 1 wait_answer client_waiting)
    as [[out ch']|] eqn:Hrun; [|vm_compute in Hrun; discriminate Hrun].
  assert (Hout : out = Ok false).
  { vm_compute in Hrun. injection Hrun as <- _. reflexivity. }
  subst out. now rewrite Hw.
Defined.

Section Agreement.
Context `{CommandMethods}.

Lemma _handle_request_sequences (request : CommandRequestObject)
    (ch : VASPPairChannel) (c : bool) :
  client_of (myself ch) (other ch) = Ok c →
  req_seq request = Z.of_nat (other_next_seq ch) →
  (if c
   then ∃ n, req_command_seq request = Some n
             ∧ (n ≤ Z.of_nat (next_final_sequence ch))%Z
   else req_command_seq request = None ∧ num_pending_responses ch = 0) →
  _handle_request request ch =
  sequence_and_answer
    (with_req_command request (set_origin (req_command request) (other ch))) ch.
Proof.
  intros Hc Hseq Hturn.
  rewrite (_handle_request_cases request ch c Hc). cbv zeta.
  rewrite Hseq, Z.ltb_irrefl, Z.eqb_refl.
  destruct c; cbn [negb andb].
  - destruct Hturn as (n & -> & Hn).
    replace ((Z.of_nat (next_final_sequence ch) <? n)%Z) with false
      by (symmetry; apply Z.ltb_ge; lia).
    reflexivity.
  - destruct Hturn as (-> & ->). reflexivity.
Qed.

Lemma set_origin_same (cmd : ProtocolCommand) (addr : string) :
  origin cmd = Some addr → set_origin cmd addr = cmd.
Proof. destruct cmd. cbn. intros ->. reflexivity. Qed.

(** X23: one round started by the client.  Client and server hold the
    same executor state; the server handles the client's pending request
    and answers it; the client handles that answer.  Then the client
    accepts the answer, both have recorded the request with this answer,
    and both hold the same executor state again. *)
Theorem request_response_agreement (client server : VASPPairChannel)
    (request : CommandRequestObject) (sq : nat) (now : Z) (fuel : nat)
    (resp : CommandResponseObject) (server' : VASPPairChannel) :
  other server = myself client →
  client_of (myself server) (other server) = Ok false →
  consistent (storage client) → consistent (storage server) →
  executor server = executor client →
  my_requests (persisted client) !! sq = Some request →
  req_seq request = Z.of_nat sq →
  req_command_seq request = None →
  response request = None →
  origin (req_command request) = Some (myself client) →
  other_next_seq server = sq →
  num_pending_responses server = 0 →
  waiting_response client = ∅ → waiting_requests client = ∅ →
  response_cache client = ∅ →
  handle_request request server = (Ok (Some resp), server') →
  ∃ client',
    handle_response now (S (S fuel)) resp client = Some (Ok true, client')
    ∧ executor client' = executor server'
    ∧ my_requests (persisted client')
      = <[sq := with_response request (Some resp)]> (my_requests (persisted client))
    ∧ other_requests (persisted server')
      = other_requests (persisted server) ++ [with_response request (Some resp)]
    ∧ resp_command_seq resp = Some (Z.of_nat (length (seq (executor client)))).
Proof.
  intros Hother Hrole Hstc Hsts Hex Hreq Hseq Hcs Hnone Horigin Hnext Hpending
    Hwresp Hwreq Hcache Hserver.
  (* the server *)
  unfold handle_request, atomic_writes in Hserver.
  set (server0 := with_storage enter server) in *.
  assert (Harrived : with_req_command request
                       (set_origin (req_command request) (other server0)) = request).
  { subst server0. cbn -[enter]. rewrite Hother, (set_origin_same _ _ Horigin).
    destruct request; reflexivity. }
  rewrite (_handle_request_sequences request server0 false) in Hserver.
  2:{ exact Hrole. }
  2:{ subst server0. unfold other_next_seq, persisted in *. cbn -[enter].
      rewrite enter_current, Hnext. exact Hseq. }
  2:{ split; [exact Hcs|]. subst server0. unfold num_pending_responses, persisted in *.
      cbn -[enter]. now rewrite enter_current. }
  rewrite Harrived, sequence_and_answer_run in Hserver. cbv zeta in Hserver.
  assert (Hws : can_write (db (storage server0)) = true)
    by (apply enter_can_write, Hsts).
  rewrite Hws in Hserver.
  change (executor server0) with (executor server) in Hserver. rewrite Hex in Hserver.
  set (ex := executor client) in *.
  set (r := sequence_next_command (req_command request) false true ex) in *.
  set (cs := Z.of_nat (length (seq ex))) in *.
  set (applied := (if is_ok r.1 then set_success cs else set_fail cs) r.2) in *.
  destruct applied.1 as [[]|e] eqn:Happlied; [|discriminate Hserver].
  injection Hserver as Hresp Hserver'. rewrite Hresp in Hserver'.
  (* the client *)
  cbn [handle_response]. unfold atomic_writes_F.
  set (client0 := with_storage enter client).
  assert (Hstatus : bool_decide (status resp = success) = is_ok r.1).
  { rewrite <- Hresp. destruct r.1; reflexivity. }
  rewrite (_handle_response_run _ now fuel resp client0 sq request cs).
  - cbv zeta. change (executor client0) with ex.
    change (next_final_sequence client0) with (length (seq ex)).
    fold cs. rewrite Z.eqb_refl, Hstatus. fold r. fold applied.
    rewrite Happlied. cbn [is_ok negb fst snd].
    eexists. split; [reflexivity|].
    split; [rewrite <- Hserver'; cbn -[enter exit]; reflexivity|].
    split.
    { unfold persisted, answered. cbn -[enter exit]. rewrite exit_commit_current.
      cbn -[enter exit]. rewrite enter_current.
      destruct (advance_cursor_requests sq (current (db (storage client)))) as [-> _].
      reflexivity. }
    split.
    { rewrite <- Hserver'. unfold persisted, recorded. cbn -[enter exit].
      rewrite exit_commit_current. cbn -[enter exit]. rewrite enter_current.
      reflexivity. }
    rewrite <- Hresp. reflexivity.
  - apply enter_can_write, Hstc.
  - rewrite <- Hresp. destruct r.1; cbn; now rewrite Hseq.
  - unfold persisted. cbn -[enter]. rewrite enter_current. exact Hreq.
  - unfold has_response. rewrite Hnone. reflexivity.
  - rewrite <- Hresp. destruct r.1; reflexivity.
  - rewrite <- Hresp. destruct r.1; reflexivity.
  - intros _. repeat split; assumption.
Qed.

End Agreement.

(** The client submitted [hello]; the server answers, the client handles
    the answer. *)
Lemma request_response_agreement_witness :
  let request := CommandRequestObject_init (set_origin hello "AAAA") 0 None in
  let out := @handle_request sample_methods request server_channel in
  my_requests (persisted client_waiting) !! 0 = Some request
  ∧ out.1 = Ok (Some (answer 0 0))
  ∧ ∃ client',
      @handle_response sample_methods 0 2 (answer 0 0) client_waiting
      = Some (Ok true, client')
      ∧ executor client' = executor out.2
      ∧ (commit_status <$> seq (executor out.2)) = [Some true].
Proof.
  cbv zeta.
  set (request := CommandRequestObject_init (set_origin hello "AAAA") 0 None).
  assert (Hmine : my_requests (persisted client_waiting) !! 0 = Some request)
    by (vm_compute; reflexivity).
  assert (Hserver : @handle_request sample_methods request server_channel
                    = (Ok (Some (answer 0 0)),
                       (@handle_request sample_methods request server_channel).2))
    by (vm_compute; reflexivity).
  split; [exact Hmine|]. split; [vm_compute; reflexivity|].
  destruct (@request_response_agreement sample_methods client_waiting server_channel
              request 0 0%Z 0 (answer 0 0) _
              eq_refl eq_refl ltac:(repeat split) ltac:(repeat split) eq_refl
              Hmine eq_refl eq_refl eq_refl eq_refl eq_refl eq_refl
              eq_refl eq_refl eq_refl Hserver)
    as (client' & Hrun & Hexec & _).
  exists client'. split; [exact Hrun|]. split; [exact Hexec|].
  vm_compute. reflexivity.
Defined.

(** X21: a response whose [command_seq] lies beyond the next position of
    the command sequence is put into [response_cache] and accepted.  The
    request stays without a response and still counts as pending, the
    executor is untouched, and yet the cursor of retransmission has stepped
    over the request when it stood on it. *)
Theorem early_response_cached `{CommandMethods} (now : Z) (fuel : nat)
    (response : CommandResponseObject) (ch : VASPPairChannel)
    (sq : nat) (request : CommandRequestObject) (cs : Z) :
  can_write (db (storage ch)) = true →
  resp_seq response = Some (Z.of_nat sq) →
  my_requests (persisted ch) !! sq = Some request →
  has_response request = false →
  not_protocol_failure response = true →
  resp_command_seq response = Some cs →
  (Z.of_nat (next_final_sequence ch) < cs)%Z →
  ∃ ch',
    _handle_response now (S fuel) response ch = Some (Ok true, ch')
    ∧ response_cache ch' = <[cs := response]> (response_cache ch)
    ∧ my_requests (persisted ch') = my_requests (persisted ch)
    ∧ num_pending_responses ch' = num_pending_responses ch
    ∧ executor ch' = executor ch
    ∧ next_retransmit (persisted ch')
      = (if Nat.eqb (next_retransmit (persisted ch)) sq then S sq
         else next_retransmit (persisted ch)).
Proof.
  intros Hw Hseq Hreq Hhas Hok Hcs Hearly.
  exists (with_response_cache (<[cs := response]>) (cursor_moved sq ch)).
  split.
  { unfold _handle_response.
    rewrite (_handle_response_run _ now fuel response ch sq request cs);
      try assumption; [|lia].
    cbv zeta.
    replace ((cs =? Z.of_nat (next_final_sequence ch))%Z) with false
      by (symmetry; apply Z.eqb_neq; lia).
    replace ((cs <? Z.of_nat (next_final_sequence ch))%Z) with false
      by (symmetry; apply Z.ltb_ge; lia).
    reflexivity. }
  unfold num_pending_responses, persisted, cursor_moved, advance_cursor. cbn.
  destruct (Nat.eqb (next_retransmit (current (db (storage ch)))) sq);
    repeat split.
Qed.

(** The client gets the answer to its second request, with position 1,
    before anything was sequenced. *)
Lemma early_response_cached_witness :
  let ch := with_storage enter client_two_waiting in
  ∃ ch',
    @_handle_response sample_methods 0 1 (answer 1 1) ch = Some (Ok true, ch')
    ∧ response_cache ch' !! 1%Z = Some (answer 1 1)
    ∧ num_pending_responses ch' = 2
    ∧ next_retransmit (persisted ch') = 0.
Proof.
  cbv zeta.
  destruct (@early_response_cached sample_methods 0 0 (answer 1 1)
              (with_storage enter client_two_waiting) 1
              (CommandRequestObject_init (set_origin again "AAAA") 1 None) 1%Z
              eq_refl eq_refl ltac:(vm_compute; reflexivity) eq_refl eq_refl eq_refl
              ltac:(vm_compute; reflexivity))
    as (ch' & Hrun & Hcache & _ & Hpending & _ & Hcursor).
  exists ch'. split; [exact Hrun|].
  rewrite Hcache, Hpending, Hcursor.
  split; [apply lookup_insert_eq|].
  split.
  - vm_compute.
    reflexivity.
  - vm_compute.
    reflexivity.
Defined.

Lemma settle_fresh (l : list FutureState) (st : FutureState) (ch : VASPPairChannel) :
  futures ch = l ++ [Pending] →
  settle (length l) st ch = (Ok tt, with_futures (fun _ => l ++ [st]) ch).
Proof.
  intros Hf. unfold settle. rewrite Hf.
  rewrite lookup_app_r by lia. rewrite Nat.sub_diag. cbn.
  unfold with_futures. rewrite Hf.
  rewrite insert_app_r_alt by lia. rewrite Nat.sub_diag. reflexivity.
Qed.

(** X19: a message that is no request.  When it decodes ([encoded] is
    off, or [json.loads] accepts the text), reading the request raises
    [JSONParsingError]: the parsing error is put on the wire twice, once
    in the handler of [JSONParsingError] and once more after the [try], and
    the future resolves to it.  When [encoded] is on and [json.loads]
    rejects the text, the exception is no [JSONParsingError]: nothing is
    sent and the future fails with that exception.  Either way the future
    is returned, and the storage, the executor and the buffer are left as
    they were. *)
Theorem parsing_error_answered_twice `{CommandMethods} (ch : VASPPairChannel)
    (json_command : Json) (encoded nowait : bool) (now : Z) :
  is_ok (request_from_json json_command) = false →
  let sent := {| src := myself ch; dst := other ch; type := ResponseType;
                 content := JsonResponse make_parsing_error |} in
  let r := parse_handle_request_to_future json_command encoded None nowait now ch in
  r.1 = Ok (length (futures ch))
  ∧ match (if encoded then json_loads json_command else Ok json_command) with
    | Ok _ =>
        futures r.2 = futures ch ++ [Resolved (Sent sent)]
        ∧ net_queue r.2 = net_queue ch ++ [sent; sent]
    | Raise e =>
        futures r.2 = futures ch ++ [Failed e]
        ∧ net_queue r.2 = net_queue ch
    end
  ∧ storage r.2 = storage ch
  ∧ executor r.2 = executor ch
  ∧ waiting_requests r.2 = waiting_requests ch.
Proof.
  intros Hbad. cbv zeta.
  unfold parse_handle_request_to_future, bind, fresh_or, new_future, try_except,
    lift_result.
  destruct json_command as [request|response|s|text]; [discriminate Hbad| | |];
    destruct encoded; cbn;
    unfold set_result, set_exception; erewrite settle_fresh by reflexivity;
    cbn; rewrite <- ?app_assoc; repeat split.
Qed.

(** The client is handed, as text, a JSON object that is no request, and
    then a text that is not JSON. *)
Lemma parsing_error_answered_twice_witness :
  let r := @parse_handle_request_to_future sample_methods (JsonOther "{}")
             true None false 0 client_channel in
  let r' := @parse_handle_request_to_future sample_methods (JsonUndecodable "{")
              true None false 0 client_channel in
  (r.1 = Ok 0 ∧ length (net_queue r.2) = 2 ∧ length (futures r.2) = 1)
  ∧ (r'.1 = Ok 0 ∧ net_queue r'.2 = []
     ∧ futures r'.2
       = [Failed (mkExn JSONDecodeError "Expecting value: line 1 column 1 (char 0)")]).
Proof.
  cbv zeta. split.
  - destruct (@parsing_error_answered_twice sample_methods client_channel (JsonOther "{}")
                true false 0%Z eq_refl) as (Hr & [Hf Hq] & _).
    rewrite Hr, Hf, Hq. repeat split.
  - destruct (@parsing_error_answered_twice sample_methods client_channel
                (JsonUndecodable "{") true false 0%Z eq_refl) as (Hr & [Hf Hq] & _).
    rewrite Hr, Hf, Hq. repeat split.
Defined.

(** X20: without [nowait], a request whose [seq] lies beyond the next
    expected one is buffered under its [seq], however far beyond (the
    upper bound of the window compares the [seq] with itself), and so is a
    request that a server with responses pending would otherwise refuse.
    The future stays pending and nothing else changes. *)
Theorem early_request_buffered `{CommandMethods} (ch : VASPPairChannel)
    (request : CommandRequestObject) (encoded : bool) (now : Z) :
  ((Z.of_nat (other_next_seq ch) < req_seq request)%Z ∧ (0 < request_window ch)%Z)
  ∨ ((req_seq request ≤ Z.of_nat (other_next_seq ch))%Z
     ∧ client_of (myself ch) (other ch) = Ok false
     ∧ 0 < num_pending_responses ch) →
  let fut := length (futures ch) in
  let r := parse_handle_request_to_future (JsonRequest request) encoded None false now ch in
  r.1 = Ok fut
  ∧ futures r.2 = futures ch ++ [Pending]
  ∧ waiting_requests r.2
    = <[req_seq request :=
          default [] (waiting_requests ch !! req_seq request)
          ++ [(JsonRequest request, encoded, fut, now)]]> (waiting_requests ch)
  ∧ storage r.2 = storage ch
  ∧ executor r.2 = executor ch
  ∧ net_queue r.2 = net_queue ch.
Proof.
  intros Hwhy. cbv zeta.
  assert (Hdec : (if encoded then json_loads (JsonRequest request)
                  else Ok (JsonRequest request)) = Ok (JsonRequest request))
    by (destruct encoded; reflexivity).
  unfold parse_handle_request_to_future, bind, fresh_or, new_future, try_except,
    lift_result, gets, is_server, is_client, ret, modify.
  rewrite Hdec.
  cbn -[handle_request Nat.ltb Z.ltb other_next_seq num_pending_responses].
  change (other_next_seq (with_futures (λ l : list FutureState, l ++ [Pending]) ch))
    with (other_next_seq ch).
  destruct Hwhy as [[Hfar Hwin] | (Hnear & Hrole & Hbusy)].
  - replace ((Z.of_nat (other_next_seq ch) <? req_seq request)%Z) with true
      by (symmetry; apply Z.ltb_lt; exact Hfar).
    replace ((req_seq request <? req_seq request + request_window ch)%Z) with true
      by (symmetry; apply Z.ltb_lt; lia).
    cbn. repeat split.
  - replace ((Z.of_nat (other_next_seq ch) <? req_seq request)%Z) with false
      by (symmetry; apply Z.ltb_ge; exact Hnear).
    cbn -[handle_request Nat.ltb num_pending_responses]. rewrite Hrole.
    cbn -[handle_request Nat.ltb num_pending_responses].
    change (num_pending_responses (with_futures (λ l : list FutureState, l ++ [Pending]) ch))
      with (num_pending_responses ch).
    replace ((0 <? num_pending_responses ch)%nat) with true
      by (symmetry; apply Nat.ltb_lt; exact Hbusy).
    cbn. repeat split.
Qed.

(** The client receives the second request of the server first. *)
Lemma early_request_buffered_witness :
  let r := @parse_handle_request_to_future sample_methods (JsonRequest request1)
             false None false 0 client_channel in
  other_next_seq client_channel = 0
  ∧ r.1 = Ok 0
  ∧ futures r.2 = [Pending]
  ∧ waiting_requests r.2 !! 1%Z = Some [(JsonRequest request1, false, 0, 0%Z)].
Proof.
  cbv zeta. split; [reflexivity|].
  assert (Hfar : (Z.of_nat (other_next_seq client_channel) < req_seq request1)%Z
                 ∧ (0 < request_window client_channel)%Z) by (split; reflexivity).
  destruct (@early_request_buffered sample_methods client_channel request1 false 0%Z
              (or_introl Hfar))
    as (Hr & Hf & Hw & _).
  rewrite Hr, Hf, Hw.
  split; [reflexivity|]. split; [reflexivity|]. apply lookup_insert_eq.
Defined.

Section Submission.
Context `{CommandMethods}.

Lemma sequence_command_local_run (cmd : ProtocolCommand) (ch : VASPPairChannel)
    (c : bool) :
  consistent (storage ch) →
  client_of (myself ch) (other ch) = Ok c →
  let local := set_origin cmd (myself ch) in
  let r := sequence_next_command local true true (executor ch) in
  let request :=
    CommandRequestObject_init local (Z.of_nat (my_next_seq ch))
      (if c then None else Some (Z.of_nat (length (seq (executor ch))))) in
  let m := {| src := myself ch; dst := other ch; type := RequestType;
              content := JsonRequest request |} in
  sequence_command_local cmd ch =
  if c then (Ok m, with_net_queue (fun q => q ++ [m]) (submitted request ch))
  else match r.1 with
       | Ok _ => (Ok m, with_net_queue (fun q => q ++ [m])
                          (submitted request (with_executor r.2 ch)))
       | Raise e => (Raise e, with_executor r.2 ch)
       end.
Proof.
  intros Hst Hclient. cbv zeta.
  destruct ch as [me oth [[w cm cur] tx lv] ex rc wr rw ws sw nq fu].
  unfold consistent in Hst. cbn in Hst, Hclient.
  unfold sequence_command_local, atomic_writes, is_server, is_client,
    lift_executor, bind, gets, ret, write, check_write, send_request, persisted,
    get_my_address, my_next_seq, next_final_sequence, next_seq, submitted,
    with_storage, with_net_queue, with_executor, enter, exit.
  cbn [myself other storage executor db levels can_write current committed net_queue
       response_cache waiting_requests waiting_response request_window response_window
       futures current_transaction].
  rewrite Hclient.
  destruct c; cbn [negb].
  - destruct lv as [|lv]; cbn in Hst.
    + destruct Hst as (-> & -> & ->). reflexivity.
    + subst w. cbn. replace (lv + 1 - 0) with (S lv) by lia. reflexivity.
  - destruct lv as [|lv]; cbn -[sequence_next_command];
      destruct (sequence_next_command (set_origin cmd me) true true ex)
        as [[pos|e] ex1] eqn:Hrun; cbn -[sequence_next_command].
    + cbn in Hst. destruct Hst as (-> & -> & ->). reflexivity.
    + cbn in Hst. destruct Hst as (-> & -> & ->). reflexivity.
    + cbn in Hst. subst w. cbn. replace (lv + 1 - 0) with (S lv) by lia. reflexivity.
    + cbn in Hst. subst w. cbn. replace (lv + 1 - 0) with (S lv) by lia. reflexivity.
Qed.

End Submission.

Lemma exit_written_consistent (st : StorableFactory Persist) (f : Persist → Persist)
    (exc : bool) :
  consistent st →
  consistent (exit exc {| db := update_rows f (db (enter st));
                          current_transaction := current_transaction (enter st);
                          levels := levels (enter st) |}).
Proof.
  unfold consistent, enter, exit. destruct st as [[w c cur] tx lv]. cbn.
  destruct lv as [|lv]; cbn.
  - intros _. destruct exc; cbn; auto.
  - intros ->. replace (lv + 1 - 0) with (S lv) by lia. cbn. reflexivity.
Qed.

Section Consistency.
Context `{CommandMethods}.

(** X22: [sequence_command_local], [handle_request] and
    [would_retransmit] leave the storage as they must find it: outside a
    transaction nothing is uncommitted and the store refuses writes, inside
    one the store accepts them. *)
Theorem storage_stays_consistent (ch : VASPPairChannel) (cmd : ProtocolCommand)
    (request : CommandRequestObject) (do_retransmit : bool) :
  consistent (storage ch) →
  consistent (storage (sequence_command_local cmd ch).2)
  ∧ consistent (storage (handle_request request ch).2)
  ∧ consistent (storage (would_retransmit do_retransmit ch).2).
Proof.
  intros Hst. split; [|split].
  - destruct (client_of_defined (myself ch) (other ch)) as [c Hc].
    rewrite (sequence_command_local_run cmd ch c Hst Hc). cbv zeta.
    destruct c; [now apply exit_written_consistent|].
    destruct (sequence_next_command _ _ _ _).1; [|exact Hst].
    now apply exit_written_consistent.
  - unfold handle_request, atomic_writes.
    destruct (_handle_request_state request (with_storage enter ch))
      as [Heq | [(ex' & Heq) | (stored & ex' & Heq & _)]];
      destruct (_handle_request request (with_storage enter ch)) as [r ch1];
      cbn [snd] in Heq; subst ch1; cbn -[enter exit].
    + destruct (is_ok r); cbn [negb];
        [rewrite exit_enter_commit | rewrite exit_enter_rollback]; assumption.
    + destruct (is_ok r); cbn [negb];
        [rewrite exit_enter_commit | rewrite exit_enter_rollback]; assumption.
    + now apply exit_written_consistent.
  - unfold would_retransmit, atomic_writes, bind, gets, persisted.
    cbn -[enter exit scan_retransmit].
    destruct (scan_retransmit _ _ do_retransmit) as [next picked].
    unfold write, check_write. cbn -[enter exit].
    rewrite (enter_can_write _ Hst). cbn -[enter exit].
    destruct picked as [picked|]; cbn -[enter exit];
      now apply exit_written_consistent.
Qed.

End Consistency.

(** The client before and after a submission, and after a request. *)
Lemma storage_stays_consistent_witness :
  consistent (storage client_channel)
  ∧ consistent (storage client_waiting)
  ∧ consistent (storage client_gap_filled).
Proof.
  assert (Hst : consistent (storage client_channel)) by (repeat split).
  split; [exact Hst|].
  split.
  - exact (proj1 (@storage_stays_consistent sample_methods client_channel hello
                    request0 true Hst)).
  - assert (Hbuf : consistent (storage client_buffering)) by (repeat split).
    exact (proj1 (proj2 (@storage_stays_consistent sample_methods client_buffering hello
                           request0 true Hbuf))).
Defined.

Section Agreement2.
Context `{CommandMethods}.

(** A command that is accepted is sequenced the same way whether or not
    errors are to be sequenced. *)
Lemma sequence_next_command_accepted (cmd : ProtocolCommand) (b b' own : bool)
    (ex : ProtocolExecutor) :
  is_ok (sequence_next_command cmd b own ex).1 = true →
  sequence_next_command cmd b' own ex = sequence_next_command cmd b own ex.
Proof.
  unfold sequence_next_command.
  destruct (sequence_try cmd own ex) as [[[]|e] ex1]; cbn; [reflexivity | discriminate].
Qed.

(** X24: one round started by the server.  Client and server hold the
    same executor state; the server submits a command, which its executor
    sequences speculatively; the client handles the request and answers;
    the server handles the answer.  Then the answer is a success at the
    position the server chose, both have recorded the request with this
    answer, and both hold the same executor state again. *)
Theorem local_submission_agreement (client server : VASPPairChannel)
    (cmd : ProtocolCommand) (now : Z) (fuel : nat) (m : NetMessage)
    (server1 : VASPPairChannel) (request : CommandRequestObject)
    (resp : CommandResponseObject) (client' : VASPPairChannel) :
  other client = myself server →
  client_of (myself client) (other client) = Ok true →
  client_of (myself server) (other server) = Ok false →
  consistent (storage client) → consistent (storage server) →
  executor server = executor client →
  other_next_seq client = my_next_seq server →
  waiting_response server = ∅ → waiting_requests server = ∅ →
  response_cache server = ∅ →
  sequence_command_local cmd server = (Ok m, server1) →
  content m = JsonRequest request →
  handle_request request client = (Ok (Some resp), client') →
  ∃ server2,
    handle_response now (S (S fuel)) resp server1 = Some (Ok true, server2)
    ∧ executor server2 = executor client'
    ∧ status resp = success
    ∧ resp_command_seq resp = req_command_seq request
    ∧ my_requests (persisted server2)
      = my_requests (persisted server) ++ [with_response request (Some resp)]
    ∧ other_requests (persisted client')
      = other_requests (persisted client) ++ [with_response request (Some resp)].
Proof.
  intros Hother Hcrole Hsrole Hstc Hsts Hex Hnext Hwresp Hwreq Hcache
    Hsubmit Hcontent Hclient.
  (* the submission *)
  rewrite (sequence_command_local_run cmd server false Hsts Hsrole) in Hsubmit.
  cbv zeta in Hsubmit. rewrite Hex in Hsubmit.
  set (ex := executor client) in *.
  set (local := set_origin cmd (myself server)) in *.
  set (r := sequence_next_command local true true ex) in *.
  set (p := Z.of_nat (length (seq ex))) in *.
  destruct r.1 as [pos|e] eqn:Hr1; [|discriminate Hsubmit].
  injection Hsubmit as Hm Hserver1. rewrite <- Hm in Hcontent. cbn in Hcontent.
  injection Hcontent as Hrequest.
  assert (Hrok : is_ok r.1 = true) by (rewrite Hr1; reflexivity).
  assert (Hr' : sequence_next_command local false true ex = r)
    by (apply sequence_next_command_accepted; exact Hrok).
  destruct (sequence_next_command_appends local true ex) as (Hs1 & Hl1).
  rewrite Hr' in Hs1, Hl1.
  (* the client *)
  unfold handle_request, atomic_writes in Hclient.
  set (client0 := with_storage enter client) in *.
  assert (Harrived : with_req_command request
                       (set_origin (req_command request) (other client0)) = request).
  { subst client0. cbn -[enter]. rewrite Hother, <- Hrequest. reflexivity. }
  rewrite (_handle_request_sequences request client0 true) in Hclient.
  2:{ exact Hcrole. }
  2:{ subst client0. unfold other_next_seq, persisted in *. cbn -[enter].
      rewrite enter_current, Hnext, <- Hrequest. reflexivity. }
  2:{ exists p. rewrite <- Hrequest. split; [reflexivity|]. apply Z.le_refl. }
  rewrite Harrived, sequence_and_answer_run in Hclient. cbv zeta in Hclient.
  assert (Hwc : can_write (db (storage client0)) = true)
    by (apply enter_can_write, Hstc).
  rewrite Hwc in Hclient.
  change (executor client0) with ex in Hclient.
  replace (req_command request) with local in Hclient by (rewrite <- Hrequest; reflexivity).
  rewrite Hr' in Hclient. rewrite Hrok, Hr1 in Hclient. fold p in Hclient.
  set (applied := set_success p r.2) in *.
  destruct applied.1 as [[]|e] eqn:Happlied; [|discriminate Hclient].
  injection Hclient as Hresp Hclient'. rewrite Hresp in Hclient'.
  (* the server *)
  assert (Hsts1 : consistent (storage server1)).
  { rewrite <- Hserver1. cbn -[enter exit]. now apply exit_written_consistent. }
  assert (Hmine : my_requests (persisted server1)
                  = my_requests (persisted server) ++ [request]).
  { rewrite <- Hserver1, <- Hrequest. unfold persisted, submitted. cbn -[enter exit].
    rewrite exit_commit_current. cbn -[enter exit]. rewrite enter_current.
    reflexivity. }
  cbn [handle_response]. unfold atomic_writes_F.
  set (server0 := with_storage enter server1).
  rewrite (_handle_response_run _ now fuel resp server0 (my_next_seq server) request p).
  - cbv zeta.
    assert (Hex1 : executor server0 = r.2)
      by (subst server0; rewrite <- Hserver1; reflexivity).
    unfold next_final_sequence, next_seq. rewrite Hex1, Hs1, length_app. cbn [length].
    replace ((p =? Z.of_nat (length (seq ex) + 1))%Z) with false
      by (symmetry; apply Z.eqb_neq; subst p; lia).
    replace ((p <? Z.of_nat (length (seq ex) + 1))%Z) with true
      by (symmetry; apply Z.ltb_lt; subst p; lia).
    rewrite <- Hresp. cbn [status with_command_seq make_success_response].
    rewrite (bool_decide_eq_true_2 (success = success) eq_refl).
    fold applied. rewrite Happlied. cbn [is_ok negb fst snd].
    eexists. split; [reflexivity|].
    split; [rewrite <- Hclient'; cbn -[enter exit]; reflexivity|].
    split; [reflexivity|].
    split; [rewrite <- Hrequest; reflexivity|].
    split.
    { unfold persisted, answered. cbn -[enter exit]. rewrite exit_commit_current.
      cbn -[enter exit]. rewrite enter_current.
      destruct (advance_cursor_requests (my_next_seq server) (current (db (storage server1))))
        as [-> _].
      unfold persisted in Hmine. rewrite Hmine.
      rewrite insert_app_r_alt by (unfold my_next_seq, persisted; lia).
      unfold my_next_seq, persisted. rewrite Nat.sub_diag. rewrite Hresp. reflexivity. }
    rewrite <- Hclient'. unfold persisted, recorded. cbn -[enter exit].
    rewrite exit_commit_current. cbn -[enter exit]. rewrite enter_current.
    rewrite Hresp. reflexivity.
  - apply enter_can_write, Hsts1.
  - rewrite <- Hresp, <- Hrequest. reflexivity.
  - unfold persisted in *. cbn -[enter]. rewrite enter_current, Hmine.
    rewrite lookup_app_r by (unfold my_next_seq, persisted; lia).
    unfold my_next_seq, persisted. now rewrite Nat.sub_diag.
  - rewrite <- Hrequest. reflexivity.
  - rewrite <- Hresp. reflexivity.
  - rewrite <- Hresp. reflexivity.
  - intros _. subst server0. rewrite <- Hserver1. cbn. auto.
Qed.

End Agreement2.

(** The server submits [hello]; the client answers, the server handles the
    answer. *)
Lemma local_submission_agreement_witness :
  let submit := @sequence_command_local sample_methods hello server_channel in
  let request := CommandRequestObject_init (set_origin hello "AAAB") 0 (Some 0%Z) in
  let out := @handle_request sample_methods request client_channel in
  is_ok submit.1 = true
  ∧ out.1 = Ok (Some (answer 0 0))
  ∧ ∃ server2,
      @handle_response sample_methods 0 2 (answer 0 0) submit.2
      = Some (Ok true, server2)
      ∧ executor server2 = executor out.2
      ∧ last_confirmed (executor server2) = 1.
Proof.
  cbv zeta.
  set (request := CommandRequestObject_init (set_origin hello "AAAB") 0 (Some 0%Z)).
  set (m := {| src := "AAAB"; dst := "AAAA"; type := RequestType;
               content := JsonRequest request |}).
  assert (Hsubmit : @sequence_command_local sample_methods hello server_channel
                    = (Ok m, (@sequence_command_local sample_methods hello
                                server_channel).2))
    by (vm_compute; reflexivity).
  assert (Hclient : @handle_request sample_methods request client_channel
                    = (Ok (Some (answer 0 0)),
                       (@handle_request sample_methods request client_channel).2))
    by (vm_compute; reflexivity).
  split; [vm_compute; reflexivity|]. split; [vm_compute; reflexivity|].
  destruct (@local_submission_agreement sample_methods client_channel server_channel
              hello 0%Z 0 m _ request (answer 0 0) _
              eq_refl eq_refl eq_refl ltac:(repeat split) ltac:(repeat split)
              eq_refl eq_refl eq_refl eq_refl eq_refl Hsubmit eq_refl Hclient)
    as (server2 & Hrun & Hexec & _).
  exists server2. split; [exact Hrun|]. split; [exact Hexec|].
  rewrite Hexec. vm_compute. reflexivity.
Defined.

Section Spin.
Context `{CommandMethods}.

Lemma drain_waiting_response_spins (rec : CommandResponseObject → F bool)
    (ch : VASPPairChannel) (l : list (Json * bool * nat)) :
  waiting_response ch !! Z.of_nat (next_final_sequence ch) = Some l →
  waiting_response ch !! Z.of_nat (last_confirmed (executor ch)) = None →
  ∀ fuel, drain_waiting_response rec fuel ch = None.
Proof.
  intros Hnext Hconfirmed fuel. induction fuel as [|fuel IH]; [reflexivity|].
  cbn [drain_waiting_response]. unfold fbind, total, gets, ret, modify, bind.
  rewrite Hnext. rewrite bool_decide_eq_true_2 by eauto.
  rewrite Hconfirmed. cbn [for_each total ret].
  cbn. rewrite lookup_insert_eq.
  replace (with_waiting_response _ (with_waiting_response _ ch)) with ch; [exact IH|].
  destruct ch. unfold with_waiting_response. cbn in *.
  now rewrite delete_insert_id.
Qed.

(** X26: [process_waiting_messages] does not return when an answer is
    buffered for the next position of the command sequence while nothing is
    buffered for position [last_confirmed]: its first loop tests one key
    and reads and deletes the other, so every round leaves the buffer as it
    found it.  Whatever the fuel, the loop is still running when the fuel
    is spent; [process_pending_requests_response] starts with that loop. *)
Theorem process_waiting_messages_spins (now : Z) (ch : VASPPairChannel)
    (l : list (Json * bool * nat)) :
  waiting_response ch !! Z.of_nat (next_final_sequence ch) = Some l →
  waiting_response ch !! Z.of_nat (last_confirmed (executor ch)) = None →
  ∀ fuel,
    process_waiting_messages now fuel ch = None
    ∧ process_pending_requests_response now fuel ch = None.
Proof.
  intros Hnext Hconfirmed fuel.
  unfold process_pending_requests_response, process_pending_requests_response_with,
    process_waiting_messages, process_waiting_messages_with, fbind.
  rewrite (drain_waiting_response_spins _ ch l Hnext Hconfirmed). split; reflexivity.
Qed.

(** X25: without [nowait], an answer whose [command_seq] lies beyond the
    next position of the command sequence and within the window is
    buffered under its [command_seq]: the future stays pending and
    nothing else changes. *)
Theorem early_response_buffered (now : Z) (fuel : nat) (ch : VASPPairChannel)
    (response : CommandResponseObject) (encoded : bool) (cs : Z) :
  resp_command_seq response = Some cs →
  (Z.of_nat (next_final_sequence ch) < cs < Z.of_nat (next_final_sequence ch)
                                           + response_window ch)%Z →
  let fut := length (futures ch) in
  ∃ ch',
    parse_handle_response_to_future now fuel (JsonResponse response) encoded None false ch
    = Some (Ok fut, ch')
    ∧ futures ch' = futures ch ++ [Pending]
    ∧ waiting_response ch'
      = <[cs := default [] (waiting_response ch !! cs)
                ++ [(JsonResponse response, encoded, fut)]]> (waiting_response ch)
    ∧ storage ch' = storage ch
    ∧ executor ch' = executor ch
    ∧ response_cache ch' = response_cache ch
    ∧ net_queue ch' = net_queue ch.
Proof.
  intros Hcs Hwin. cbv zeta.
  assert (Hdec : (if encoded then json_loads (JsonResponse response)
                  else Ok (JsonResponse response)) = Ok (JsonResponse response))
    by (destruct encoded; reflexivity).
  unfold parse_handle_response_to_future, parse_handle_response_to_future_with,
    fbind, ftry_except, total, fresh_or, new_future, lift_result, gets, bind, modify, ret.
  rewrite Hdec.
  cbn -[handle_response Z.ltb]. rewrite Hcs.
  change (next_final_sequence (with_futures (λ l : list FutureState, l ++ [Pending]) ch))
    with (next_final_sequence ch).
  replace ((Z.of_nat (next_final_sequence ch) <? cs)%Z) with true
    by (symmetry; apply Z.ltb_lt; lia).
  replace ((cs <? Z.of_nat (next_final_sequence ch) + response_window ch)%Z) with true
    by (symmetry; apply Z.ltb_lt; lia).
  cbn. eexists. repeat split.
Qed.

End Spin.

(** The server of [server_spinning]: one thousand rounds are not enough. *)
Lemma process_waiting_messages_spins_witness :
  next_final_sequence server_spinning = 1
  ∧ last_confirmed (executor server_spinning) = 0
  ∧ @process_waiting_messages sample_methods 0 1000 server_spinning = None.
Proof.
  split; [reflexivity|]. split; [reflexivity|].
  exact (proj1 (@process_waiting_messages_spins sample_methods 0 server_spinning
                  [(JsonResponse (answer 0 1), false, 0)] eq_refl eq_refl 1000)).
Defined.

(** The fresh server is sent an answer that names position 1. *)
Lemma early_response_buffered_witness :
  ∃ ch',
    @parse_handle_response_to_future sample_methods 0 1 (JsonResponse (answer 0 1))
      false None false server_channel = Some (Ok 0, ch')
    ∧ waiting_response ch' !! 1%Z = Some [(JsonResponse (answer 0 1), false, 0)].
Proof.
  assert (Hwin : (Z.of_nat (next_final_sequence server_channel) < 1
                  < Z.of_nat (next_final_sequence server_channel)
                    + response_window server_channel)%Z) by (split; reflexivity).
  destruct (@early_response_buffered sample_methods 0 1 server_channel (answer 0 1)
              false 1%Z eq_refl Hwin) as (ch' & Hrun & _ & Hw & _).
  exists ch'. split; [exact Hrun|]. rewrite Hw. apply lookup_insert_eq.
Defined.

(** ** Checked structures *)

Import Structure StructureSamples.

Section CheckerFacts.
Context `{PyValues}.
Variable fields : list Field.
Variable custom_update_checks : StructureChecker → Diff → option string.

Lemma check_fields_raises (self : StructureChecker) (diff : Diff) (fs : list Field)
    (e : StructureException) :
  check_fields self diff fs = Some e →
  (∃ name expected got, e = WrongType name expected got) ∨ (∃ name, e = WrongUpdate name).
Proof.
  induction fs as [|f rest IH]; cbn; [discriminate|].
  destruct (diff_get diff (field f)) as [v|]; [|exact IH].
  destruct (negb (isinstance v (field_type f))).
  { intros [= <-]. left. eauto. }
  destruct (data self !! field f) as [old|]; [|exact IH].
  destruct (bool_decide (write_mode f = WRITE_ONCE) && ne old v); [|exact IH].
  intros [= <-]. right. eauto.
Qed.

Lemma check_known_raises (keys : list string) (e : StructureException) :
  check_known fields keys = Some e → ∃ key, e = UnknownField key.
Proof.
  induction keys as [|key rest IH]; cbn; [discriminate|].
  destruct (bool_decide (key ∈ field <$> fields)); [exact IH|].
  intros [= <-]. eauto.
Qed.

Lemma check_required_raises (d : gmap string value) (fs : list Field)
    (e : StructureException) :
  check_required d fs = Some e → ∃ name, e = MissingField name.
Proof.
  induction fs as [|f rest IH]; cbn; [discriminate|].
  destruct (required f && negb (bool_decide (is_Some (d !! field f)))); [|exact IH].
  intros [= <-]. eauto.
Qed.

(** What the checks of the first loop have established for a field. *)
Lemma check_fields_passed (self : StructureChecker) (diff : Diff) (fs : list Field)
    (f : Field) (v : value) :
  check_fields self diff fs = None → f ∈ fs → diff_get diff (field f) = Some v →
  isinstance v (field_type f) = true
  ∧ ∀ old, data self !! field f = Some old → write_mode f = WRITE_ONCE → ne old v = false.
Proof.
  induction fs as [|g rest IH]; intros Hcheck Hin Hv; [inversion Hin|].
  cbn in Hcheck.
  apply elem_of_cons in Hin as [<- | Hin].
  - rewrite Hv in Hcheck.
    destruct (isinstance v (field_type f)); cbn in Hcheck; [|discriminate].
    split; [reflexivity|]. intros old Hold Hmode. rewrite Hold in Hcheck.
    rewrite (bool_decide_eq_true_2 _ Hmode) in Hcheck. cbn in Hcheck.
    destruct (ne old v); [discriminate | reflexivity].
  - apply IH; try assumption.
    destruct (diff_get diff (field g)) as [w|]; [|exact Hcheck].
    destruct (negb (isinstance w (field_type g))); [discriminate|].
    destruct (data self !! field g) as [old|]; [|exact Hcheck].
    destruct (bool_decide (write_mode g = WRITE_ONCE) && ne old w);
      [discriminate | exact Hcheck].
Qed.

(** The writes of the third loop, key by key. *)
Lemma apply_diff_lookup (diff : Diff) (keys : list string) (d : gmap string value)
    (updates : bool) (k : string) :
  (apply_diff diff keys d updates).1 !! k =
  match diff_get diff k with
  | Some v =>
      if bool_decide (k ∈ keys)
      then match d !! k with
           | Some old => if ne old v then Some v else Some old
           | None => Some v
           end
      else d !! k
  | None => d !! k
  end.
Proof.
  revert d updates. induction keys as [|key rest IH]; intros d updates.
  - cbn. destruct (diff_get diff k); reflexivity.
  - cbn [apply_diff].
    destruct (decide (key = k)) as [->|Hkey].
    + rewrite (bool_decide_eq_true_2 (k ∈ k :: rest)) by (now left).
      destruct (diff_get diff k) as [v|] eqn:Hv; [|now rewrite IH].
      destruct (d !! k) as [old|] eqn:Hold.
      * destruct (ne old v) eqn:Hne.
        -- rewrite IH, lookup_insert_eq.
           destruct (bool_decide (k ∈ rest)); [|reflexivity].
           destruct (ne v v); reflexivity.
        -- rewrite IH, Hold, Hne. destruct (bool_decide (k ∈ rest)); reflexivity.
      * rewrite IH, lookup_insert_eq.
        destruct (bool_decide (k ∈ rest)); [|reflexivity].
        destruct (ne v v); reflexivity.
    + assert (Hmem : bool_decide (k ∈ key :: rest) = bool_decide (k ∈ rest)).
      { apply bool_decide_ext. rewrite elem_of_cons.
        split; [intros [-> | ?]; [contradiction | assumption] | auto]. }
      rewrite Hmem.
      destruct (diff_get diff key) as [w|]; [|apply IH].
      destruct (match d !! key with Some old => ne old w | None => true end).
      * rewrite IH, lookup_insert_ne by exact Hkey. reflexivity.
      * apply IH.
Qed.

(** The third loop reports an update exactly when it wrote. *)
Lemma apply_diff_updates (diff : Diff) (keys : list string) (d : gmap string value) :
  (apply_diff diff keys d false).2 = false → (apply_diff diff keys d false).1 = d.
Proof.
  assert (Hsticky : ∀ keys d, (apply_diff diff keys d true).2 = true).
  { clear. intros keys. induction keys as [|key rest IH]; intros d; cbn; [reflexivity|].
    destruct (diff_get diff key) as [v|]; [|apply IH].
    destruct (match d !! key with Some old => ne old v | None => true end); apply IH. }
  revert d. induction keys as [|key rest IH]; intros d; cbn; [reflexivity|].
  destruct (diff_get diff key) as [v|]; [|apply IH].
  destruct (match d !! key with Some old => ne old v | None => true end); [|apply IH].
  rewrite Hsticky. discriminate.
Qed.

Lemma diff_get_key (diff : Diff) (k : string) :
  is_Some (diff_get diff k) ↔ k ∈ diff.*1.
Proof.
  induction diff as [|[k' v] rest IH]; cbn.
  - split; [intros [? [=]] | intros Hin; inversion Hin].
  - rewrite elem_of_cons. case_bool_decide as Hk.
    + subst. split; eauto.
    + rewrite IH. split; [auto | intros [-> | ?]; [contradiction | assumption]].
Qed.

Lemma check_known_passed (keys : list string) (k : string) :
  check_known fields keys = None → k ∈ keys → k ∈ field <$> fields.
Proof.
  induction keys as [|key rest IH]; intros Hcheck Hin; [inversion Hin|].
  cbn in Hcheck. case_bool_decide as Hkey; [|discriminate].
  apply elem_of_cons in Hin as [-> | Hin]; [exact Hkey | now apply IH].
Qed.

Lemma check_required_passed (d : gmap string value) (fs : list Field) (f : Field) :
  check_required d fs = None → f ∈ fs → required f = REQUIRED → is_Some (d !! field f).
Proof.
  induction fs as [|g rest IH]; intros Hcheck Hin Hreq; [inversion Hin|].
  cbn in Hcheck.
  destruct (required g && negb (bool_decide (is_Some (d !! field g)))) eqn:Hg;
    [discriminate|].
  apply elem_of_cons in Hin as [<- | Hin]; [|now apply IH].
  rewrite Hreq in Hg. cbn in Hg. apply negb_false_iff in Hg.
  now apply bool_decide_eq_true_1 in Hg.
Qed.

Lemma apply_diff_overwritten (diff : Diff) (d : gmap string value) :
  overwritten diff d (apply_diff diff diff.*1 d false).1.
Proof.
  intros k. rewrite apply_diff_lookup.
  destruct (diff_get diff k) as [v|] eqn:Hv; [|reflexivity].
  rewrite bool_decide_eq_true_2 by (apply diff_get_key; eauto).
  destruct (d !! k) as [old|]; [|now left].
  destruct (ne old v) eqn:Hne; [now left|]. right. eauto.
Qed.

(** The third loop reports an update exactly when the diff changes
    something. *)
Lemma apply_diff_changes (diff : Diff) (keys : list string) (d : gmap string value) :
  keys ⊆ diff.*1 →
  (apply_diff diff keys d false).2 = true → changes diff d.
Proof.
  revert d. induction keys as [|key rest IH]; intros d Hkeys; cbn; [discriminate|].
  assert (Hrest : rest ⊆ diff.*1) by (intros x Hx; apply Hkeys; now right).
  destruct (diff_get diff key) as [v|] eqn:Hv; [|now apply IH].
  destruct (d !! key) as [old|] eqn:Hold.
  - destruct (ne old v) eqn:Hne; [|now apply IH].
    intros _. exists key, v. now rewrite Hold.
  - intros _. exists key, v. now rewrite Hold.
Qed.

Lemma apply_diff_unchanged (diff : Diff) (keys : list string) (d : gmap string value) :
  (apply_diff diff keys d false).2 = false →
  ∀ k v, k ∈ keys → diff_get diff k = Some v → ∃ old, d !! k = Some old ∧ ne old v = false.
Proof.
  assert (Hsticky : ∀ keys d, (apply_diff diff keys d true).2 = true).
  { clear. intros keys. induction keys as [|key rest IH]; intros d; cbn; [reflexivity|].
    destruct (diff_get diff key) as [v|]; [|apply IH].
    destruct (match d !! key with Some old => ne old v | None => true end); apply IH. }
  revert d. induction keys as [|key rest IH]; intros d Hupd k v Hin Hv; [inversion Hin|].
  cbn in Hupd.
  destruct (diff_get diff key) as [w|] eqn:Hw.
  - destruct (d !! key) as [old|] eqn:Hold.
    + destruct (ne old w) eqn:Hne; [rewrite Hsticky in Hupd; discriminate|].
      apply elem_of_cons in Hin as [-> | Hin]; [|now apply IH].
      rewrite Hv in Hw. injection Hw as <-. eauto.
    + rewrite Hsticky in Hupd. discriminate.
  - apply elem_of_cons in Hin as [-> | Hin]; [congruence | now apply IH].
Qed.

(** X27: a write-once field that has a value keeps it through every call
    of [update], whether the call returns or raises. *)
Theorem write_once_field_keeps_value (diff : Diff) (self : StructureChecker)
    (f : Field) (old : value) :
  f ∈ fields → write_mode f = WRITE_ONCE → data self !! field f = Some old →
  data (update fields custom_update_checks diff self).2 !! field f = Some old.
Proof.
  intros Hf Hmode Hold. unfold update.
  destruct (check_fields self diff fields) eqn:Hcheck; [exact Hold|].
  destruct (check_known fields diff.*1); [exact Hold|].
  assert (Hkept : (apply_diff diff diff.*1 (data self) false).1 !! field f = Some old).
  { pose proof (apply_diff_overwritten diff (data self) (field f)) as Hw.
    destruct (diff_get diff (field f)) as [v|] eqn:Hv; [|now rewrite Hw].
    destruct (check_fields_passed self diff fields f v Hcheck Hf Hv) as [_ Hsame].
    specialize (Hsame old Hold Hmode).
    rewrite apply_diff_lookup, Hv, Hold, Hsame.
    now destruct (bool_decide (field f ∈ diff.*1)). }
  destruct (apply_diff diff diff.*1 (data self) false) as [d updates]. cbn in Hkept.
  destruct (check_required d fields); [exact Hkept|].
  destruct (custom_update_checks _ diff); [exact Hkept|].
  destruct updates; exact Hkept.
Qed.

(** X28: what a refused update leaves behind.  No refused update is
    recorded.  One refused for a wrong type, for a change of a write-once
    field or for an unknown field leaves the instance as it was; one
    refused for a missing required field or by the custom checks has
    already overwritten [data] with the diff. *)
Theorem refused_update_effects (diff : Diff) (self self' : StructureChecker)
    (e : StructureException) :
  update fields custom_update_checks diff self = (Some e, self') →
  update_record self' = update_record self
  ∧ match e with
    | WrongType _ _ _ | WrongUpdate _ | UnknownField _ => self' = self
    | MissingField _ | CustomCheck _ => overwritten diff (data self) (data self')
    end.
Proof.
  unfold update.
  destruct (check_fields self diff fields) as [e1|] eqn:Hcheck.
  { intros [= <- <-]. split; [reflexivity|].
    destruct (check_fields_raises _ _ _ _ Hcheck) as [(? & ? & ? & ->) | [? ->]];
      reflexivity. }
  destruct (check_known fields diff.*1) as [e2|] eqn:Hknown.
  { intros [= <- <-]. split; [reflexivity|].
    destruct (check_known_raises _ _ Hknown) as [? ->]. reflexivity. }
  pose proof (apply_diff_overwritten diff (data self)) as Hw.
  destruct (apply_diff diff diff.*1 (data self) false) as [d updates]. cbn in Hw.
  destruct (check_required d fields) as [e3|] eqn:Hreq.
  { intros [= <- <-]. split; [reflexivity|].
    destruct (check_required_raises _ _ _ Hreq) as [? ->]. exact Hw. }
  destruct (custom_update_checks _ diff); [|discriminate].
  intros [= <- <-]. split; [reflexivity | exact Hw].
Qed.

(** X29: what an accepted update has established.  Every key of the diff
    is a declared field, every value of the diff has the type of each
    field of its name, every required field has a value afterwards, and
    [data] is the old one overwritten by the diff. *)
Theorem accepted_update_effects (diff : Diff) (self self' : StructureChecker) :
  update fields custom_update_checks diff self = (None, self') →
  (∀ k, k ∈ diff.*1 → k ∈ field <$> fields)
  ∧ (∀ f v, f ∈ fields → diff_get diff (field f) = Some v
            → isinstance v (field_type f) = true)
  ∧ (∀ f, f ∈ fields → required f = REQUIRED → is_Some (data self' !! field f))
  ∧ overwritten diff (data self) (data self').
Proof.
  unfold update.
  destruct (check_fields self diff fields) as [e1|] eqn:Hcheck; [discriminate|].
  destruct (check_known fields diff.*1) as [e2|] eqn:Hknown; [discriminate|].
  pose proof (apply_diff_overwritten diff (data self)) as Hw.
  destruct (apply_diff diff diff.*1 (data self) false) as [d updates]. cbn in Hw.
  destruct (check_required d fields) as [e3|] eqn:Hreq; [discriminate|].
  destruct (custom_update_checks _ diff); [discriminate|].
  intros [= <-].
  assert (Hdata : data (if updates
                        then record diff {| data := d; update_record := update_record self |}
                        else {| data := d; update_record := update_record self |}) = d)
    by now destruct updates.
  rewrite Hdata. repeat split.
  - intros k Hk. exact (check_known_passed _ _ Hknown Hk).
  - intros f v Hf Hv. exact (proj1 (check_fields_passed _ _ _ _ _ Hcheck Hf Hv)).
  - intros f Hf Hr. exact (check_required_passed _ _ _ Hreq Hf Hr).
  - exact Hw.
Qed.

(** X30: an accepted update is recorded exactly when it changes something.
    Either the diff sets a field that had no value or a value [!=] to the
    diff's, and the diff is appended to [update_record]; or every field it
    sets already held a value not [!=] to the diff's, and neither [data]
    nor [update_record] changes. *)
Theorem update_recorded_iff_changed (diff : Diff) (self self' : StructureChecker) :
  update fields custom_update_checks diff self = (None, self') →
  (changes diff (data self) ∧ update_record self' = update_record self ++ [diff])
  ∨ ((∀ k v, diff_get diff k = Some v
             → ∃ old, data self !! k = Some old ∧ ne old v = false)
     ∧ self' = self).
Proof.
  unfold update.
  destruct (check_fields self diff fields) as [e1|]; [discriminate|].
  destruct (check_known fields diff.*1) as [e2|]; [discriminate|].
  pose proof (apply_diff_changes diff diff.*1 (data self) (reflexivity _)) as Hch.
  pose proof (apply_diff_unchanged diff diff.*1 (data self)) as Hun.
  pose proof (apply_diff_updates diff diff.*1 (data self)) as Hsame.
  destruct (apply_diff diff diff.*1 (data self) false) as [d updates]. cbn in *.
  destruct (check_required d fields) as [e3|]; [discriminate|].
  destruct (custom_update_checks _ diff); [discriminate|].
  intros [= <-]. destruct updates.
  - left. split; [now apply Hch | reflexivity].
  - right. split.
    + intros k v Hv. apply (Hun eq_refl k v); [|exact Hv]. apply diff_get_key. eauto.
    + rewrite (Hsame eq_refl). now destruct self.
Qed.

End CheckerFacts.

(** Alice's structure is asked to change its sender and its amount. *)
Lemma write_once_field_keeps_value_witness :
  data (update sample_fields no_custom_checks
          [("sender", PyStr "bob"); ("amount", PyInt 20)] alice_structure).2 !! "sender"
  = Some (PyStr "alice").
Proof.
  assert (Hf : mkField "sender" py_str REQUIRED WRITE_ONCE ∈ sample_fields)
    by apply list_elem_of_here.
  assert (Hold : data alice_structure !! "sender" = Some (PyStr "alice"))
    by (vm_compute; reflexivity).
  exact (write_once_field_keeps_value sample_fields no_custom_checks
           [("sender", PyStr "bob"); ("amount", PyInt 20)] alice_structure
           _ (PyStr "alice") Hf eq_refl Hold).
Defined.

(** A fresh structure is given an amount and no sender: the update is
    refused, and the amount is there. *)
Lemma refused_update_effects_witness :
  let r := update sample_fields no_custom_checks [("amount", PyInt 20)] fresh_structure in
  r.1 = Some (MissingField "sender")
  ∧ update_record r.2 = []
  ∧ overwritten [("amount", PyInt 20)] ∅ (data r.2).
Proof.
  cbv zeta.
  assert (Hrun : update sample_fields no_custom_checks [("amount", PyInt 20)] fresh_structure
                 = (Some (MissingField "sender"),
                    (update sample_fields no_custom_checks [("amount", PyInt 20)]
                       fresh_structure).2))
    by (vm_compute; reflexivity).
  split; [vm_compute; reflexivity|].
  exact (refused_update_effects sample_fields no_custom_checks _ _ _ _ Hrun).
Defined.

(** The first diff of alice on a fresh structure. *)
Lemma accepted_update_effects_witness :
  (∀ k, k ∈ first_diff.*1 → k ∈ field <$> sample_fields)
  ∧ (∀ f v, f ∈ sample_fields → diff_get first_diff (field f) = Some v
            → isinstance v (field_type f) = true)
  ∧ (∀ f, f ∈ sample_fields → required f = REQUIRED
          → is_Some (data alice_structure !! field f))
  ∧ overwritten first_diff ∅ (data alice_structure).
Proof.
  assert (Hrun : update sample_fields no_custom_checks first_diff fresh_structure
                 = (None, alice_structure)) by (vm_compute; reflexivity).
  exact (accepted_update_effects sample_fields no_custom_checks _ _ _ Hrun).
Defined.

(** The first diff of alice is recorded once: given again, it changes
    nothing. *)
Lemma update_recorded_iff_changed_witness :
  update sample_fields no_custom_checks first_diff alice_structure = (None, alice_structure)
  ∧ update_record alice_structure = [first_diff]
  ∧ ((changes first_diff (data alice_structure)
      ∧ update_record alice_structure = update_record alice_structure ++ [first_diff])
     ∨ ((∀ k v, diff_get first_diff k = Some v
                → ∃ old, data alice_structure !! k = Some old ∧ ne old v = false)
        ∧ alice_structure = alice_structure)).
Proof.
  assert (Hrun : update sample_fields no_custom_checks first_diff alice_structure
                 = (None, alice_structure)) by (vm_compute; reflexivity).
  split; [exact Hrun|]. split; [vm_compute; reflexivity|].
  exact (update_recorded_iff_changed sample_fields no_custom_checks _ _ _ Hrun).
Defined.
